(** * PackageManager.js: a shallow embedding and its checked properties

    The module [src/PackageManager.js] of the devkit is a Node.js file.  Its
    interesting logic is string processing driven by regular expressions
    ([sanitizeCode], [unsanitizeCode], [parseImports]) plus a few stateful
    operations on the package manifest and on the file system.

    Strings are sequences of UTF-16 code units, regular expressions are
    values of an abstract syntax run by a backtracking matcher that follows
    the matcher semantics of the ECMAScript specification (continuation
    passing, leftmost alternative first, greedy and lazy quantifiers,
    numbered captures), and the stateful operations thread an explicit
    world.

    The round trip of the sanitizer is proved for all texts: a global
    replacement by a pattern anchored to the lines (flags [gm]) is read line
    by line, a line is matched in its text as it is matched alone, and the
    pattern of [unsanitizeCode] matches a masked line whenever the pattern
    of [sanitizeCode] matched the line without its optional slashes. *)

From Stdlib Require Import List NArith ZArith Arith Bool Lia String Ascii.
From Stdlib Require Import HexadecimalString DecimalString.
Import ListNotations.

Set Implicit Arguments.
Set Warnings "-register-all".

(** ** JavaScript strings *)

Module JS.

(** A string is a list of UTF-16 code units. *)
Definition jsstring := list N.

(** A literal of the source, written with ASCII characters only. *)
Definition lit (s : string) : jsstring :=
  map N_of_ascii (list_ascii_of_string s).

Definition LF : N := 10.
Definition CR : N := 13.
Definition TAB : N := 9.

Fixpoint str_eqb (a b : jsstring) : bool :=
  match a, b with
  | [], [] => true
  | x :: a', y :: b' => N.eqb x y && str_eqb a' b'
  | _, _ => false
  end.

(** [s.charAt(i)]: the one-unit string at [i], or the empty string. *)
Definition charAt (i : nat) (s : jsstring) : jsstring :=
  match nth_error s i with
  | Some c => [c]
  | None => []
  end.

(** [s.substr(i)] with a non-negative start. *)
Definition substr (i : nat) (s : jsstring) : jsstring := skipn i s.

(** [s.substring(i, j)] for [i <= j]. *)
Definition substring (i j : nat) (s : jsstring) : jsstring :=
  firstn (j - i) (skipn i s).

(** Truthiness of a possibly undefined string: [undefined] and the empty
    string are falsy. *)
Definition truthy_str (s : option jsstring) : bool :=
  match s with
  | Some (_ :: _) => true
  | _ => false
  end.

(** [a || b] on possibly undefined strings. *)
Definition or_else (a : option jsstring) (b : option jsstring) : option jsstring :=
  if truthy_str a then a else b.

End JS.
Import JS.

(** ** Outcomes of JavaScript code *)

Module Outcome.

Inductive error : Type := TypeError | SyntaxError.

(** A computation returns, throws, or never finishes. *)
Inductive outcome (A : Type) : Type :=
| Returns : A -> outcome A
| Throws : error -> outcome A
| Hangs : outcome A.

Arguments Returns {A} _.
Arguments Throws {A} _.
Arguments Hangs {A}.

Definition bind {A B : Type} (o : outcome A) (f : A -> outcome B) : outcome B :=
  match o with
  | Returns a => f a
  | Throws e => Throws e
  | Hangs => Hangs
  end.

(** A string or [undefined]. *)
Definition jsval := option jsstring.

(** A method call [recv.f(...)]: a TypeError on [undefined]. *)
Definition method {A : Type} (recv : jsval) (f : jsstring -> A) : outcome A :=
  match recv with
  | Some s => Returns (f s)
  | None => Throws TypeError
  end.

(** String conversion in a concatenation. *)
Definition toStr (v : jsval) : jsstring :=
  match v with
  | Some s => s
  | None => lit "undefined"
  end.

(** [a == b] on strings and [undefined]. *)
Definition jsval_eqb (a b : jsval) : bool :=
  match a, b with
  | Some x, Some y => str_eqb x y
  | None, None => true
  | _, _ => false
  end.

End Outcome.
Import Outcome.

Notation "x <- a ;; b" := (bind a (fun x => b))
  (at level 61, a at next level, right associativity).

(** ** Regular expressions *)

Module RegExp.

(** Pattern syntax.  A character class, a class escape or the dot is a
    predicate on code units. *)
Inductive regex : Type :=
| Eps : regex
| Chr : N -> regex
| Cls : (N -> bool) -> regex
| Bol : regex                                   (* ^ *)
| Eol : regex                                   (* $ *)
| Wb : regex                                    (* \b *)
| Seq : regex -> regex -> regex
| Alt : regex -> regex -> regex
| Rep : bool -> nat -> option nat -> regex -> regex
        (* greedy?, min, max (None is unbounded), body *)
| Grp : nat -> regex -> regex.                  (* capture number n *)

Definition Star (r : regex) : regex := Rep true 0 None r.
Definition LazyStar (r : regex) : regex := Rep false 0 None r.
Definition Plus (r : regex) : regex := Rep true 1 None r.
Definition Opt (r : regex) : regex := Rep true 0 (Some 1) r.

Fixpoint seqs (rs : list regex) : regex :=
  match rs with
  | [] => Eps
  | [r] => r
  | r :: rs' => Seq r (seqs rs')
  end.

(** A run of pattern characters, as in [import]. *)
Definition word (s : string) : regex := seqs (map Chr (lit s)).

Definition isLineTerminator (c : N) : bool :=
  N.eqb c 10 || N.eqb c 13 || N.eqb c 8232 || N.eqb c 8233.

(** [.] *)
Definition dot : N -> bool := fun c => negb (isLineTerminator c).

(** [\s]: white space and line terminators. *)
Definition isSpace (c : N) : bool :=
  N.eqb c 9 || N.eqb c 10 || N.eqb c 11 || N.eqb c 12 || N.eqb c 13
  || N.eqb c 32 || N.eqb c 160 || N.eqb c 5760
  || (N.leb 8192 c && N.leb c 8202)
  || N.eqb c 8232 || N.eqb c 8233 || N.eqb c 8239 || N.eqb c 8287
  || N.eqb c 12288 || N.eqb c 65279.

(** [\w] *)
Definition isWordChar (c : N) : bool :=
  (N.leb 97 c && N.leb c 122) || (N.leb 65 c && N.leb c 90)
  || (N.leb 48 c && N.leb c 57) || N.eqb c 95.

(** [[abc]] and [[^abc]] over ASCII members. *)
Definition oneOf (s : string) : N -> bool :=
  fun c => existsb (N.eqb c) (lit s).
Definition noneOf (s : string) : N -> bool :=
  fun c => negb (oneOf s c).

Definition toUpper (c : N) : N :=
  if N.leb 97 c && N.leb c 122 then (c - 32)%N else c.
Definition toLower (c : N) : N :=
  if N.leb 65 c && N.leb c 90 then (c + 32)%N else c.

(** Canonicalize of the specification.  Every pattern character of this
    file is ASCII, and a code unit above 127 never canonicalizes to an ASCII
    one, so folding the ASCII letters is exact here. *)
Definition canonicalize (ignoreCase : bool) (c : N) : N :=
  if ignoreCase then toUpper c else c.

(** A match state: the end index and the captures, most recent first; a
    capture is the pair of its start and end indices. *)
Record state : Type := mkState {
  endIndex : nat;
  captures : list (nat * (nat * nat))
}.

Definition cont := state -> option state.

Fixpoint groups (r : regex) : list nat :=
  match r with
  | Seq a b | Alt a b => groups a ++ groups b
  | Rep _ _ _ a => groups a
  | Grp n a => n :: groups a
  | _ => []
  end.

Definition clear (gs : list nat) (x : state) : state :=
  mkState (endIndex x)
          (filter (fun c => negb (existsb (Nat.eqb (fst c)) gs)) (captures x)).

Definition setCapture (n : nat) (s e : nat) (x : state) : state :=
  mkState (endIndex x) ((n, (s, e)) :: captures x).

Definition getCapture (n : nat) (x : state) : option (nat * nat) :=
  match find (fun c => Nat.eqb (fst c) n) (captures x) with
  | Some c => Some (snd c)
  | None => None
  end.

(** Whether every match of the pattern takes at least one code unit. *)
Fixpoint consumes (r : regex) : bool :=
  match r with
  | Chr _ | Cls _ => true
  | Seq a b => consumes a || consumes b
  | Alt a b => consumes a && consumes b
  | Rep _ min max a =>
      negb (Nat.eqb min 0)
      && match max with Some 0 => false | _ => true end
      && consumes a
  | Grp _ a => consumes a
  | _ => false
  end.

Definition pred_max (m : option nat) : option nat :=
  match m with
  | Some k => Some (pred k)
  | None => None
  end.

Section Matcher.

Variables (ignoreCase multiline : bool) (input : jsstring).

Definition charIs (p : N -> bool) (i : nat) : bool :=
  match nth_error input i with
  | Some c => p c
  | None => false
  end.

Definition classHolds (p : N -> bool) (c : N) : bool :=
  if ignoreCase then p c || p (toUpper c) || p (toLower c) else p c.

Definition atLineStart (e : nat) : bool :=
  match e with
  | 0 => true
  | S e' => multiline && charIs isLineTerminator e'
  end.

Definition atLineEnd (e : nat) : bool :=
  (List.length input <=? e) || (multiline && charIs isLineTerminator e).

Definition wordAt (e : nat) : bool := charIs isWordChar e.
Definition wordBefore (e : nat) : bool :=
  match e with
  | 0 => false
  | S e' => charIs isWordChar e'
  end.

(** RepeatMatcher for the body matcher [m]; [gs] are the captures of the
    body, cleared when an iteration starts.  An iteration either lowers
    [min] or consumes input, so [fuel] bounds the remaining iterations. *)
Fixpoint repeatMatcher (m : cont -> state -> option state) (gs : list nat)
         (greedy : bool) (c : cont) (fuel : nat) (min : nat)
         (max : option nat) (x : state) {struct fuel} : option state :=
  match fuel with
  | 0 => None
  | S fuel' =>
      match max with
      | Some 0 => c x
      | _ =>
          let d := fun y : state =>
            if Nat.eqb min 0 && Nat.eqb (endIndex y) (endIndex x)
            then None
            else repeatMatcher m gs greedy c fuel' (pred min) (pred_max max) y in
          let xr := clear gs x in
          if negb (Nat.eqb min 0) then m d xr
          else if greedy then
            match m d xr with
            | Some z => Some z
            | None => c x
            end
          else
            match c x with
            | Some z => Some z
            | None => m d xr
            end
      end
  end.

(** The matcher of a pattern: [c] is the continuation, [x] the state. *)
Fixpoint rmatch (r : regex) (c : cont) (x : state) {struct r} : option state :=
  match r with
  | Eps => c x
  | Chr a =>
      match nth_error input (endIndex x) with
      | Some ch =>
          if N.eqb (canonicalize ignoreCase ch) (canonicalize ignoreCase a)
          then c (mkState (S (endIndex x)) (captures x))
          else None
      | None => None
      end
  | Cls p =>
      match nth_error input (endIndex x) with
      | Some ch =>
          if classHolds p ch
          then c (mkState (S (endIndex x)) (captures x))
          else None
      | None => None
      end
  | Bol => if atLineStart (endIndex x) then c x else None
  | Eol => if atLineEnd (endIndex x) then c x else None
  | Wb =>
      if xorb (wordBefore (endIndex x)) (wordAt (endIndex x)) then c x else None
  | Seq r1 r2 => rmatch r1 (fun y => rmatch r2 c y) x
  | Alt r1 r2 =>
      match rmatch r1 c x with
      | Some z => Some z
      | None => rmatch r2 c x
      end
  | Rep greedy min max body =>
      repeatMatcher (rmatch body) (groups body) greedy c
        (S (min + (List.length input - endIndex x))) min max x
  | Grp n body =>
      rmatch body (fun y => c (setCapture n (endIndex x) (endIndex y) y)) x
  end.

(** One attempt of the pattern at index [i]. *)
Definition matchAt (r : regex) (i : nat) : option state :=
  rmatch r (fun y => Some y) (mkState i []).

End Matcher.

(** A regular expression object: pattern and flags. *)
Record regexp : Type := mkRegExp {
  pattern : regex;
  flagI : bool;
  flagM : bool;
  flagG : bool
}.

(** A successful match: where it starts, and the final state. *)
Record result : Type := mkResult {
  index : nat;
  final : state
}.

Definition lastOf (m : result) : nat := endIndex (final m).

Fixpoint firstMatch (re : regexp) (s : jsstring) (cands : list nat) : option result :=
  match cands with
  | [] => None
  | i :: cands' =>
      match matchAt (flagI re) (flagM re) s (pattern re) i with
      | Some y => Some (mkResult i y)
      | None => firstMatch re s cands'
      end
  end.

(** [re.exec(s)] started at [lastIndex]: the first index from [lastIndex]
    up to the length of [s] at which the pattern matches. *)
Definition exec (re : regexp) (s : jsstring) (lastIndex : nat) : option result :=
  firstMatch re s (seq lastIndex (S (List.length s) - lastIndex)).

(** [m[n]] for a match [m] of [s]; [m[0]] is the whole match. *)
Definition group (s : jsstring) (m : result) (n : nat) : option jsstring :=
  match n with
  | 0 => Some (substring (index m) (lastOf m) s)
  | _ =>
      match getCapture n (final m) with
      | Some (a, b) => Some (substring a b s)
      | None => None
      end
  end.

(** [re.test(s)] and the truthiness of [s.match(re)], for a pattern
    without the [g] flag. *)
Definition test (re : regexp) (s : jsstring) : bool :=
  match exec re s 0 with
  | Some _ => true
  | None => false
  end.

(** All the matches a global search visits: after a match the search
    resumes at its end, one further when the match is empty. *)
Fixpoint execAll (fuel : nat) (re : regexp) (s : jsstring) (lastIndex : nat)
  : list result :=
  match fuel with
  | 0 => []
  | S fuel' =>
      match exec re s lastIndex with
      | None => []
      | Some m =>
          m :: execAll fuel' re s
                 (if Nat.eqb (lastOf m) (index m) then S (lastOf m) else lastOf m)
      end
  end.

(** The matches [s.replace(re, ...)] replaces: all of them with the [g]
    flag, the first one without. *)
Definition matches (re : regexp) (s : jsstring) : list result :=
  if flagG re then execAll (S (S (List.length s))) re s 0
  else match exec re s 0 with
       | Some m => [m]
       | None => []
       end.

(** Replacement text: literal pieces and [$n]. *)
Inductive piece : Type :=
| Text : jsstring -> piece
| Ref : nat -> piece.

Definition expand (s : jsstring) (m : result) (t : list piece) : jsstring :=
  flat_map (fun p =>
              match p with
              | Text u => u
              | Ref n => match group s m n with
                         | Some u => u
                         | None => []
                         end
              end) t.

(** Splice replacements into [s]: [pos] is the end of the previous match. *)
Fixpoint splice (s : jsstring) (f : result -> jsstring) (pos : nat)
         (ms : list result) : jsstring :=
  match ms with
  | [] => skipn pos s
  | m :: ms' =>
      substring pos (index m) s ++ f m ++ splice s f (lastOf m) ms'
  end.

(** [s.replace(re, t)] *)
Definition replace (re : regexp) (t : list piece) (s : jsstring) : jsstring :=
  splice s (fun m => expand s m t) 0 (matches re s).

(** [s.replace(re, f)] for a replacer function [f] with effects: [f] is
    called once per match, in order, and threads the state [st]. *)
Fixpoint spliceWith {St : Type} (s : jsstring)
         (f : result -> St -> outcome (jsstring * St)) (pos : nat)
         (ms : list result) (st : St) : outcome (jsstring * St) :=
  match ms with
  | [] => Returns (skipn pos s, st)
  | m :: ms' =>
      bind (f m st) (fun r1 =>
      bind (spliceWith s f (lastOf m) ms' (snd r1)) (fun r2 =>
      Returns (substring pos (index m) s ++ fst r1 ++ fst r2, snd r2)))
  end.

Definition replaceWith {St : Type} (re : regexp)
           (f : result -> St -> outcome (jsstring * St)) (s : jsstring)
           (st : St) : outcome (jsstring * St) :=
  spliceWith s f 0 (matches re s) st.

(** [s.split(re)] for a separator without captures. *)
Fixpoint splitLoop (fuel : nat) (re : regexp) (s : jsstring) (p q : nat)
  : list jsstring :=
  match fuel with
  | 0 => []
  | S fuel' =>
      if List.length s <=? q then [substring p (List.length s) s]
      else
        match matchAt (flagI re) (flagM re) s (pattern re) q with
        | None => splitLoop fuel' re s p (S q)
        | Some y =>
            let e := Nat.min (endIndex y) (List.length s) in
            if Nat.eqb e p then splitLoop fuel' re s p (S q)
            else substring p q s :: splitLoop fuel' re s e e
        end
  end.

Definition split (re : regexp) (s : jsstring) : list jsstring :=
  match s with
  | [] =>
      match matchAt (flagI re) (flagM re) s (pattern re) 0 with
      | Some _ => []
      | None => [s]
      end
  | _ => splitLoop (S (S (2 * List.length s))) re s 0 0
  end.

End RegExp.
Import RegExp.

(** ** Replacement texts *)

Module Substitution.

Definition isDigit (c : N) : bool := N.leb 48 c && N.leb c 57.
Definition digitValue (c : N) : nat := N.to_nat (c - 48).

(** The capture [n] of the match [m] of [s]; a capture that took no part
    in the match is replaced by the empty string. *)
Definition captureText (s : jsstring) (m : result) (n : nat) : jsstring :=
  match group s m n with
  | Some t => t
  | None => []
  end.

(** GetSubstitution of the ECMAScript specification, for a pattern with
    [ncap] captures and no named ones: in the replacement text [tpl], [$$]
    is a dollar, [$&] the match, [$`] and [$'] the text before and after it,
    [$n] and [$nn] the capture of that number when the pattern has one (two
    digits are tried first); any other dollar stands for itself. *)
Fixpoint getSubstitution (s : jsstring) (m : result) (ncap : nat)
         (tpl : jsstring) {struct tpl} : jsstring :=
  match tpl with
  | [] => []
  | c :: t =>
      if negb (N.eqb c 36) then c :: getSubstitution s m ncap t
      else
        match t with
        | [] => [36%N]
        | d :: t' =>
            if N.eqb d 36 then 36%N :: getSubstitution s m ncap t'
            else if N.eqb d 38 then
              substring (index m) (lastOf m) s ++ getSubstitution s m ncap t'
            else if N.eqb d 96 then
              firstn (index m) s ++ getSubstitution s m ncap t'
            else if N.eqb d 39 then
              skipn (lastOf m) s ++ getSubstitution s m ncap t'
            else if isDigit d then
              let one := digitValue d in
              let single :=
                if (1 <=? one) && (one <=? ncap)
                then captureText s m one ++ getSubstitution s m ncap t'
                else 36%N :: getSubstitution s m ncap t in
              match t' with
              | e :: t'' =>
                  let two := 10 * one + digitValue e in
                  if isDigit e && (1 <=? two) && (two <=? ncap)
                  then captureText s m two ++ getSubstitution s m ncap t''
                  else single
              | [] => single
              end
            else 36%N :: getSubstitution s m ncap t
        end
  end.

(** [s.replace(re, tpl)] for a replacement text [tpl]. *)
Definition replaceString (re : regexp) (tpl : jsstring) (s : jsstring)
  : jsstring :=
  splice s
         (fun m => getSubstitution s m (List.length (groups (pattern re))) tpl)
         0 (matches re s).

End Substitution.
Import Substitution.


(** ** The module *)

Module PackageManager.

Definition blank (c : N) : bool := N.eqb c 32 || N.eqb c TAB.   (* [ \t] *)

Definition keyword : regex := Alt (word "import") (word "from").

(** Pattern [^ #] (spaces added between the parts). *)
Definition reHash : regexp :=
  mkRegExp (seqs [Bol; word "#"]) false false false.

(** Pattern [^ ( [ \t]* ( \/\/ )? ( import|from ) \b .* ) $], flags [img]
    (spaces added between the parts). *)
Definition reImportLine : regexp :=
  mkRegExp
    (seqs [Bol;
           Grp 1 (seqs [Star (Cls blank); Opt (Grp 2 (word "//"));
                        Grp 3 keyword; Wb; Star (Cls dot)]);
           Eol])
    true true true.

(** Pattern [^ \/\/#] (spaces added between the parts). *)
Definition reMaskedHash : regexp :=
  mkRegExp (seqs [Bol; word "//#"]) false false false.

(** Pattern [^ \/\/ ( [ \t]* ( import|from ) \b .* ) $], flags [img]
    (spaces added between the parts). *)
Definition reMaskedImportLine : regexp :=
  mkRegExp
    (seqs [Bol; word "//";
           Grp 1 (seqs [Star (Cls blank); Grp 2 keyword; Wb; Star (Cls dot)]);
           Eol])
    true true true.

Definition sanitizeCode (code : jsstring) : jsstring :=
  replace reImportLine [Text (lit "//"); Ref 1]
    (replace reHash [Text (lit "//#")] code).

Definition unsanitizeCode (code : jsstring) : jsstring :=
  replace reMaskedImportLine [Ref 1]
    (replace reMaskedHash [Text (lit "#")] code).

(** Pattern [^ ( \s* ) ( import|from ) \s+ ( .*? ) \s* ;* $], flags [gm]
    (spaces added between the parts). *)
Definition importRegex : regexp :=
  mkRegExp
    (seqs [Bol; Grp 1 (Star (Cls isSpace)); Grp 2 keyword; Plus (Cls isSpace);
           Grp 3 (LazyStar (Cls dot)); Star (Cls isSpace); Star (word ";");
           Eol])
    false true true.

(** Pattern [^ \.] (spaces added between the parts). *)
Definition reLeadingDot : regexp :=
  mkRegExp (seqs [Bol; word "."]) false false false.

(** Pattern [ [^.]+ \.? $ ] (spaces added between the parts). *)
Definition reLastSegment : regexp :=
  mkRegExp (seqs [Plus (Cls (noneOf ".")); Opt (word "."); Eol])
           false false false.

(** Pattern [ ( (^ \.) | \. ) [^.]+ $ ] (spaces added between the parts). *)
Definition reDotClass : regexp :=
  mkRegExp
    (seqs [Grp 1 (Alt (Grp 2 (seqs [Bol; word "."])) (word "."));
           Plus (Cls (noneOf ".")); Eol])
    false false false.

(** Pattern [^ ( .* ) \.] (spaces added between the parts). *)
Definition reUpToLastDot : regexp :=
  mkRegExp (seqs [Bol; Grp 1 (Star (Cls dot)); word "."]) false false false.

(** Pattern [\s+] (spaces added between the parts). *)
Definition reSpaces : regexp :=
  mkRegExp (Plus (Cls isSpace)) false false false.

(** The [while] loop of [resolve]: each turn drops a trailing segment of
    [rel2] and the first code unit of [cls] ([cls.substr(1)]).  The pattern
    needs a code unit, so the loop is never entered on the empty string. *)
Fixpoint resolveLoop (rel2 cls : jsstring) {struct cls} : jsstring :=
  if test reLeadingDot cls then
    match cls with
    | [] => rel2 ++ cls
    | _ :: cls' => resolveLoop (replace reLastSegment [] rel2) cls'
    end
  else rel2 ++ cls.

(** [resolve(cls)] inside [parseImports(code, rel)]. *)
Definition resolve (rel : jsval) (cls : jsval) : outcome jsval :=
  if negb (truthy_str rel) then Returns cls
  else
    c0 <- method cls (charAt 0) ;;
    if negb (str_eqb c0 (lit ".")) then Returns cls
    else Returns (Some (resolveLoop (toStr rel) (toStr cls))).

(** One element of the array [parseImports] returns. *)
Record ImportRecord : Type := mkImport {
  type : jsval;
  package : jsval;
  class : jsval;
  alias : jsval;
  resolved : jsval
}.

(** The body of the [while] loop of [parseImports] for the match [m]. *)
Definition importOf (code : jsstring) (rel : jsval) (m : result)
  : outcome ImportRecord :=
  let type := group code m 2 in
  rest <- method (group code m 3) (split reSpaces) ;;
  let rest0 := nth_error rest 0 in
  let rest2 := nth_error rest 2 in
  if jsval_eqb type (Some (lit "import")) then
    short <- method rest0 (replace reDotClass [Ref 2]) ;;
    pkg <- resolve rel (Some short) ;;
    cls <- method rest0 (replace reUpToLastDot []) ;;
    als <- method (or_else rest2 rest0) (replace reLeadingDot []) ;;
    res <- resolve rel rest0 ;;
    Returns (mkImport type pkg (Some cls) (Some als) res)
  else
    pkg <- resolve rel rest0 ;;
    res <- resolve rel
             (Some ((if truthy_str rest0 then toStr rest0 ++ lit "." else [])
                    ++ toStr rest2)) ;;
    Returns (mkImport type pkg rest2 rest2 res).

(** [while (m = importRegex.exec(code)) ...]: [exec] resumes at the end of
    the previous match, so a match that does not advance is found again for
    ever; [fuel] bounds the number of turns. *)
Fixpoint parseLoop (fuel : nat) (code : jsstring) (rel : jsval)
         (lastIndex : nat) : outcome (list ImportRecord) :=
  match fuel with
  | 0 => Hangs
  | S fuel' =>
      match exec importRegex code lastIndex with
      | None => Returns []
      | Some m =>
          r <- importOf code rel m ;;
          rs <- parseLoop fuel' code rel (lastOf m) ;;
          Returns (r :: rs)
      end
  end.

(** [exports.parseImports]; [importRegex.lastIndex] is 0 on entry. *)
Definition parseImports (code : jsstring) (rel : jsval)
  : outcome (list ImportRecord) :=
  parseLoop (S (S (List.length code))) code rel 0.

(** *** createUUID *)

(** The value [[1e7]+1e3+4e3+8e3+1e11]: the array and the numbers are
    converted to strings and concatenated. *)
Definition uuidTemplate : jsstring :=
  lit "10000000" ++ lit "1000" ++ lit "4000" ++ lit "8000"
  ++ lit "100000000000".

(** Pattern [[018]], flag [g]. *)
Definition reUuidDigit : regexp :=
  mkRegExp (Cls (oneOf "018")) false false true.

(** The number a string converts to; exact on one decimal digit, which is
    all the pattern above can match. *)
Definition toNumber (a : jsstring) : N :=
  match a with
  | [c] => if N.leb 48 c && N.leb c 57 then (c - 48)%N else 0%N
  | _ => 0%N
  end.

(** [n.toString(16)] for a non-negative integer. *)
Definition toString16 (n : N) : jsstring :=
  lit (HexadecimalString.NilZero.string_of_uint (N.to_hex_uint n)).

Section Random.

(** [random16 k] is the integer part of [Math.random() * 16] at the [k]-th
    call of [Math.random], which [>>] takes as its left operand. *)
Variable random16 : nat -> N.

(** [a ^ Math.random() * 16 >> a / 4] and its hexadecimal spelling. *)
Definition uuidDigit (a : jsstring) (k : nat) : jsstring :=
  toString16
    (N.lxor (toNumber a)
            (N.shiftr (random16 k) (N.land (toNumber a / 4) 31))).

(** [createUUID(a)]; [k] counts the calls of [Math.random] so far.  The
    function is its own replacer, [depth] bounds that nesting. *)
Fixpoint createUUID (depth : nat) (a : jsval) (k : nat)
  : outcome (jsstring * nat) :=
  if truthy_str a then Returns (uuidDigit (toStr a) k, S k)
  else
    match depth with
    | 0 => Hangs
    | S depth' =>
        replaceWith reUuidDigit
          (fun m k' => createUUID depth' (group uuidTemplate m 0) k')
          uuidTemplate k
    end.

End Random.

(** *** JSON values and the manifest *)

Inductive json : Type :=
| JNull : json
| JBool : bool -> json
| JNum : Z -> json
| JStr : jsstring -> json
| JArr : list json -> json
| JObj : list (jsstring * json) -> json.

(** A value of the program: [None] is [undefined]. *)
Definition value := option json.

Inductive jstype : Type :=
| TUndefined | TObject | TBoolean | TNumber | TString.

Definition typeof (v : value) : jstype :=
  match v with
  | None => TUndefined
  | Some JNull => TObject
  | Some (JBool _) => TBoolean
  | Some (JNum _) => TNumber
  | Some (JStr _) => TString
  | Some (JArr _) => TObject
  | Some (JObj _) => TObject
  end.

Definition jstype_eqb (a b : jstype) : bool :=
  match a, b with
  | TUndefined, TUndefined | TObject, TObject | TBoolean, TBoolean
  | TNumber, TNumber | TString, TString => true
  | _, _ => false
  end.

Definition truthy (v : value) : bool :=
  match v with
  | None => false
  | Some JNull => false
  | Some (JBool b) => b
  | Some (JNum z) => negb (Z.eqb z 0)
  | Some (JStr s) => negb (Nat.eqb (List.length s) 0)
  | Some _ => true
  end.

Fixpoint lookup (k : jsstring) (kvs : list (jsstring * json)) : value :=
  match kvs with
  | [] => None
  | (k', v) :: kvs' => if str_eqb k k' then Some v else lookup k kvs'
  end.

(** [o[k] = v] on the properties of an object: an existing key keeps its
    place, a new one goes last. *)
Fixpoint setProp (kvs : list (jsstring * json)) (k : jsstring) (v : json)
  : list (jsstring * json) :=
  match kvs with
  | [] => [(k, v)]
  | (k', v') :: kvs' =>
      if str_eqb k k' then (k, v) :: kvs' else (k', v') :: setProp kvs' k v
  end.

(** [v.k] for the keys this file reads, which no primitive or array has. *)
Definition getProp (v : value) (k : jsstring) : outcome value :=
  match v with
  | None => Throws TypeError
  | Some JNull => Throws TypeError
  | Some (JObj kvs) => Returns (lookup k kvs)
  | Some _ => Returns None
  end.

(** [v.k = x].  On a primitive the assignment is dropped; on an array it
    adds a property that [JSON.stringify] does not print, which is not
    represented. *)
Definition putProp (v : value) (k : jsstring) (x : json) : outcome value :=
  match v with
  | None => Throws TypeError
  | Some JNull => Throws TypeError
  | Some (JObj kvs) => Returns (Some (JObj (setProp kvs k x)))
  | Some j => Returns (Some j)
  end.

Definition indexKey (i : nat) : jsstring :=
  lit (DecimalString.NilZero.string_of_uint (Nat.to_uint i)).

(** The own enumerable properties a [for (k in b)] loop visits. *)
Definition ownProps (b : json) : list (jsstring * json) :=
  match b with
  | JObj kvs => kvs
  | JArr l => combine (map indexKey (seq 0 (List.length l))) l
  | JStr s =>
      combine (map indexKey (seq 0 (List.length s))) (map (fun c => JStr [c]) s)
  | _ => []
  end.

(** [a[k] = v] on a plain object [a], as its own properties.  Every
    property of [Object.prototype] is a writable data property, which the
    assignment shadows by an own property, but for [__proto__]: that one is
    an accessor, and on an object that has no own property of the name the
    assignment runs its setter, which adds no own property.  (The setter
    makes [v] the prototype of [a] when [v] is an object or [null]; the
    prototype is not represented, and nothing proved below reads a property
    of the result through it.) *)
Definition assign (kvs : list (jsstring * json)) (k : jsstring) (v : json)
  : list (jsstring * json) :=
  match lookup k kvs with
  | Some _ => setProp kvs k v
  | None => if str_eqb k (lit "__proto__") then kvs else setProp kvs k v
  end.

(** [augment(a, b)]: [a[k] = b[k]] for every own key [k] of [b]. *)
Definition augment (a : list (jsstring * json)) (b : json)
  : list (jsstring * json) :=
  fold_left
    (fun acc k =>
       match lookup k (ownProps b) with
       | Some v => assign acc k v
       | None => acc
       end)
    (map fst (ownProps b)) a.

(** What the callback of [readManifest] receives. *)
Inductive cbArgs (contents : Type) : Type :=
| CbIOError : cbArgs contents
| CbParseError : contents -> cbArgs contents
| CbManifest : value -> cbArgs contents.

Arguments CbIOError {contents}.
Arguments CbParseError {contents} _.
Arguments CbManifest {contents} _.

(** What the package does to the outside, in order. *)
Inductive event (contents : Type) : Type :=
| WriteFileSync : contents -> event contents   (* done when it returns *)
| WriteFile : contents -> event contents       (* requested, done later *)
| Callback : cbArgs contents -> event contents.

Arguments WriteFileSync {contents} _.
Arguments WriteFile {contents} _.
Arguments Callback {contents} _.

(** The package object and its surroundings: the file [manifest.json]
    ([None] when it cannot be read), [this.manifest], the number of calls of
    [Math.random] so far, and the events so far. *)
Record world (contents : Type) : Type := mkWorld {
  file : option contents;
  manifest : value;
  randomCalls : nat;
  trace : list (event contents)
}.

Section Manifest.

(** What a file holds is opaque here; [JSON.parse] reads it and
    [JSON.stringify] produces it, compact or indented by a tab. *)
Variable contents : Type.
Variable JSON_parse : contents -> option json.
Variable JSON_stringify : bool -> json -> contents.
Variable random16 : nat -> N.

Definition serializeConfig (j : json) : contents := JSON_stringify true j.

(** [clone(obj)]: [JSON.stringify(undefined)] is [undefined], which
    [JSON.parse] rejects. *)
Definition clone (obj : value) : outcome json :=
  match obj with
  | None => Throws SyntaxError
  | Some j =>
      match JSON_parse (JSON_stringify false j) with
      | Some j' => Returns j'
      | None => Throws SyntaxError
      end
  end.

Definition emit (w : world contents) (e : event contents) : world contents :=
  mkWorld (file w) (manifest w) (randomCalls w) (trace w ++ [e]).

Definition call (cb : bool) (w : world contents) (a : cbArgs contents)
  : world contents :=
  if cb then emit w (Callback a) else w.

(** The test on [this.manifest.appID] in [readManifest]. *)
Definition appIDInvalid (appID : value) : bool :=
  negb (truthy appID)
  || negb (jstype_eqb (typeof appID) TString)
  || match appID with
     | Some (JStr s) => List.length s <? 1
     | _ => false
     end.

(** [readManifest(cb)], run to the end of the callback of [fs.readFile];
    [cb] tells whether a callback was passed. *)
Definition readManifest (cb : bool) (w : world contents)
  : outcome (world contents) :=
  match file w with
  | None => Returns (call cb w CbIOError)
  | Some text =>
      match JSON_parse text with
      | None => Returns (call cb w (CbParseError text))
      | Some j =>
          let w1 := mkWorld (file w) (Some j) (randomCalls w) (trace w) in
          appID <- getProp (manifest w1) (lit "appID") ;;
          w3 <- (if appIDInvalid appID then
                   id <- createUUID random16 2 None (randomCalls w1) ;;
                   m' <- putProp (manifest w1) (lit "appID") (JStr (fst id)) ;;
                   let data := serializeConfig
                                 (match m' with Some j' => j' | None => JNull end) in
                   Returns (mkWorld (Some data) m' (snd id)
                                    (trace w1 ++ [WriteFileSync data]))
                 else Returns w1) ;;
          Returns (call cb w3 (CbManifest (manifest w3)))
      end
  end.

(** [saveManifest(data, cb)]: the object is replaced at once, the write is
    only requested. *)
Definition saveManifest (data : json) (w : world contents) : world contents :=
  mkWorld (file w) (Some data) (randomCalls w)
          (trace w ++ [WriteFile (serializeConfig data)]).

(** [(typeof v === 'undefined') ? "" : v] *)
Definition orEmpty (v : value) : json :=
  match v with
  | None => JStr []
  | Some j => j
  end.

(** [populateManifest(opts, cb)] *)
Definition populateManifest (opts : value) (w : world contents)
  : outcome (world contents) :=
  let opts := if jstype_eqb (typeof opts) TObject then opts
              else Some (JObj []) in
  id <- createUUID random16 2 None (randomCalls w) ;;
  shortName <- getProp opts (lit "shortName") ;;
  title <- getProp opts (lit "title") ;;
  let skeleton :=
    [ (lit "appID", JStr (fst id));
      (lit "shortName", orEmpty shortName);
      (lit "title", orEmpty title);
      (lit "studio",
       JObj [ (lit "name", JStr (lit "Your Studio Name"));
              (lit "domain", JStr (lit "studio.example.com"));
              (lit "stagingDomain", JStr (lit "staging.example.com")) ]);
      (lit "supportedOrientations",
       JArr [ JStr (lit "portrait"); JStr (lit "landscape") ]) ] in
  existing <- clone (manifest w) ;;
  Returns (saveManifest (JObj (augment skeleton existing))
             (mkWorld (file w) (manifest w) (snd id) (trace w))).

End Manifest.

(** *** Scripts *)

(** What the AST engine does with a source text: it calls back on the
    nodes it visits, then throws, or returns its output.  The output of
    falafel is an object that holds the regenerated text in pieces, with
    the methods [toString] and [inspect]; it is no string, and it has no
    method [replace]. *)
Inductive falafelResult (node : Type) : Type :=
| Threw : list node -> falafelResult node
| Output : list node -> jsstring -> falafelResult node.

(** What [walkScript] makes happen, in order: the events of the emitter it
    returns, and the exception the callback of [fs.readFile] ends with when
    it throws, after which nothing is emitted. *)
Inductive scriptEvent (node : Type) : Type :=
| NodeEvent : node -> scriptEvent node
| EndEvent : jsstring -> scriptEvent node
| Uncaught : error -> scriptEvent node.

Arguments EndEvent {node} _.
Arguments Uncaught {node} _.

Section Scripts.

Variable node : Type.
Variable falafel : jsstring -> falafelResult node.

(** [walkScript(path, opts, cb)], run to the end of the callback of
    [fs.readFile]; [code] is what was read, [undefined] after a failed
    read.  [unsanitizeCode(out)] is outside of the [try]: it calls
    [out.replace], which throws a TypeError when [out] is [undefined] and
    when [out] is the output of the engine; only after the engine threw is
    [out] a string, the text that was read. *)
Definition walkScript (code : jsval) : outcome (list (scriptEvent node)) :=
  match code with
  | None =>
      (* sanitizeCode(undefined) throws inside the try, out = undefined,
         and unsanitizeCode(undefined) throws outside of it *)
      Returns [Uncaught TypeError]
  | Some src =>
      match falafel (sanitizeCode src) with
      | Output visited _ =>
          Returns (map (@NodeEvent node) visited ++ [Uncaught TypeError])
      | Threw visited =>
          let out := src in
          Returns (map (@NodeEvent node) visited ++ [EndEvent (unsanitizeCode out)])
      end
  end.

(** The file after [rewriteScript(path, opts, cb)]: the listener of ['end']
    writes the code it receives. *)
Definition rewriteScript (code : jsval) : outcome jsval :=
  evs <- walkScript code ;;
  Returns
    (fold_left (fun f e =>
                  match e with
                  | EndEvent c => Some c
                  | _ => f
                  end) evs code).

End Scripts.

(** *** Listing files *)

Record stat : Type := mkStat { isFile : bool }.

Record entry : Type := mkEntry {
  name : jsstring;
  path : jsstring;
  stats : stat
}.

Inductive signal : Type :=
| FileSignal : entry -> signal
| EndSignal : signal.

Inductive effect : Type :=
| Emit : signal -> effect               (* ret.emit(...) *)
| Call : list entry -> effect.          (* cb(...) *)

(** What a call of [listFiles] gives: whether the emitter is returned
    ([false] is [undefined]), what happens before it returns, and what
    happens on later turns of the event loop. *)
Record listing : Type := mkListing {
  emitter : bool;
  now : list effect;
  later : list effect
}.

Section Listing.

Variable existsSync : jsstring -> bool.
(** The entries below a directory, in the order [findit] finds them. *)
Variable findit : jsstring -> list (jsstring * stat).
Variable extname : jsstring -> jsstring.
Variable basename : jsstring -> jsstring -> jsstring.

(** [(exts || []).indexOf(path.extname(file).substr(1)) >= 0] *)
Definition wanted (exts : option (list jsstring)) (file : jsstring) : bool :=
  existsb (str_eqb (substr 1 (extname file)))
          (match exts with Some l => l | None => [] end).

Definition entryOf (f : jsstring * stat) : entry :=
  mkEntry (basename (fst f) (extname (fst f))) (fst f) (snd f).

(** [listFiles(base, exts, cb)]; [cb] tells whether a callback was passed. *)
Definition listFiles (base : jsstring) (exts : option (list jsstring))
           (cb : bool) : outcome listing :=
  if negb (existsSync base) then
    if cb then Returns (mkListing false [Call []] [])
    else Returns (mkListing false [] [Emit EndSignal])
  else
    let found :=
      map entryOf
          (filter (fun f => isFile (snd f) && wanted exts (fst f)) (findit base)) in
    Returns (mkListing true []
               (map (fun e => Emit (FileSignal e)) found
                ++ [Emit EndSignal]
                ++ (if cb then [Call found] else []))).

(** [listFilesSync(base, exts)] *)
Definition listFilesSync (base : jsstring) (exts : option (list jsstring))
  : outcome (list entry) :=
  Returns
    (if existsSync base then
       map entryOf
           (filter (fun f => isFile (snd f) && wanted exts (fst f)) (findit base))
     else []).

End Listing.


(** *** More of the package object *)

(** [o.hasOwnProperty(k) ? o[k] : undefined] for a value [JSON.parse]
    returned: the own properties of an object are its keys, those of an
    array or of a string are its indices and [length], a number or a
    boolean has none. *)
Definition ownValue (j : json) (k : jsstring) : value :=
  match lookup k (ownProps j) with
  | Some v => Some v
  | None =>
      match j with
      | JArr l =>
          if str_eqb k (lit "length")
          then Some (JNum (Z.of_nat (List.length l))) else None
      | JStr s =>
          if str_eqb k (lit "length")
          then Some (JNum (Z.of_nat (List.length s))) else None
      | _ => None
      end
  end.

(** What the callback of [load] receives: the error of [initPaths], the
    error [readManifest] passed on, or [(null, this)]. *)
Inductive loadArgs (contents : Type) : Type :=
| LoadInvalidArchive : loadArgs contents
| LoadFailed : cbArgs contents -> loadArgs contents
| LoadOk : loadArgs contents.

Arguments LoadInvalidArchive {contents}.
Arguments LoadFailed {contents} _.
Arguments LoadOk {contents}.

Section Package.

Variable contents : Type.
Variable JSON_parse : contents -> option json.
Variable JSON_stringify : bool -> json -> contents.
Variable random16 : nat -> N.
Variable existsSync : jsstring -> bool.
Variable path_join : jsstring -> jsstring -> jsstring.

(** [getManifestKey(key, def)]: [this.manifest.hasOwnProperty] is the
    method of [Object.prototype] unless the manifest has a key of that name,
    whose value is then called and is no function. *)
Definition getManifestKey (key : jsstring) (def : value) (w : world contents)
  : outcome value :=
  match manifest w with
  | None => Throws TypeError
  | Some JNull => Throws TypeError
  | Some j =>
      match j, lookup (lit "hasOwnProperty") (ownProps j) with
      | JObj _, Some _ => Throws TypeError
      | _, _ =>
          Returns (match ownValue j key with
                   | Some v => Some v
                   | None => def
                   end)
      end
  end.

(** [getDefaultLanguage()] *)
Definition getDefaultLanguage (w : world contents) : outcome value :=
  getManifestKey (lit "defaultLang") (Some (JStr (lit "en"))) w.

(** [getAddonConfig()] *)
Definition getAddonConfig (w : world contents) : outcome value :=
  addons <- getProp (manifest w) (lit "addons") ;;
  Returns (if truthy addons then addons else Some (JObj [])).


(** [saveManifestSync(data)]: the object is replaced and the file is
    written before it returns. *)
Definition saveManifestSync (data : json) (w : world contents)
  : world contents :=
  mkWorld (Some (serializeConfig JSON_stringify data)) (Some data)
          (randomCalls w)
          (trace w ++ [WriteFileSync (serializeConfig JSON_stringify data)]).

(** [exports.isPackage(root)] *)
Definition isPackage (root : jsstring) : bool :=
  existsSync root && existsSync (path_join root (lit "manifest.json")).

(** The last call of a callback in a trace. *)
Definition lastCallback (t : list (event contents)) : option (cbArgs contents) :=
  match rev t with
  | Callback a :: _ => Some a
  | _ => None
  end.

(** [load(root, cb)], run to the end of the callback of [fs.readFile];
    [file w] is the manifest of [root].  [initPaths] gives an error when
    [root] is no package, and [cb] is then called without a test for it.
    Otherwise [readManifest] is given a function that passes the error on,
    or [(null, this)]; the result lists the calls of [cb]. *)
Definition load (root : jsstring) (cb : bool) (w : world contents)
  : outcome (world contents * list (loadArgs contents)) :=
  if negb (isPackage root) then
    if cb then Returns (w, [LoadInvalidArchive]) else Throws TypeError
  else
    w' <- readManifest JSON_parse JSON_stringify random16 true w ;;
    Returns (w',
             if cb then
               match lastCallback (trace w') with
               | Some (CbManifest _) => [LoadOk]
               | Some a => [LoadFailed a]
               | None => []
               end
             else []).

End Package.

(** *** addImport *)

(** The class of every code unit but the quotation mark. *)
Definition notQuote (c : N) : bool := negb (N.eqb c 34).

(** Pattern [^ ( Q use [^Q]* Q [ \t]* ; [ \t]* \r? \n ( [ \t]* \r? \n )? )?]
    where Q is the quotation mark and [use] is followed by one space (spaces
    added between the parts). *)
Definition reUseDirective : regexp :=
  mkRegExp
    (seqs [Bol;
           Opt (Grp 1 (seqs [Chr 34; word "use "; Star (Cls notQuote); Chr 34;
                             Star (Cls blank); word ";"; Star (Cls blank);
                             Opt (Chr CR); Chr LF;
                             Opt (Grp 2 (seqs [Star (Cls blank); Opt (Chr CR);
                                               Chr LF]))]))])
    false false false.

(** The replacement text: [use import] between quotation marks, [;], two
    line feeds, [import ], [pkg], [;] and a line feed. *)
Definition importHeader (pkg : jsstring) : jsstring :=
  [34%N] ++ lit "use import" ++ [34%N] ++ lit ";" ++ [LF; LF]
  ++ lit "import " ++ pkg ++ lit ";" ++ [LF].

(** [addImport(code, pkg)] *)
Definition addImport (code pkg : jsstring) : jsstring :=
  replaceString reUseDirective (importHeader pkg) code.

(** *** collector *)

Section Collector.

Variables (A B : Type).

(** [collector(emitter, event, consumer).collect(cb)] for an emitter that
    emits [evs], each with its name, in that order: the listener of [event]
    pushes what [consumer] makes of the arguments, and the listener of
    ['end'], which is set after it and so runs after it, calls [cb] with the
    array.  The result lists what the array holds at each call of [cb]; it
    is the same array at every call. *)
Fixpoint collectLoop (event : jsstring) (consumer : A -> B)
         (evs : list (jsstring * A)) (collected : list B) : list (list B) :=
  match evs with
  | [] => []
  | (n, a) :: evs' =>
      let collected' :=
        if str_eqb n event then collected ++ [consumer a] else collected in
      (if str_eqb n (lit "end") then [collected'] else [])
      ++ collectLoop event consumer evs' collected'
  end.

Definition collector (event : jsstring) (consumer : A -> B)
           (evs : list (jsstring * A)) : list (list B) :=
  collectLoop event consumer evs [].

End Collector.

Section ScriptsCollected.

Variable node : Type.
Variable falafel : jsstring -> falafelResult node.

(** The events of the emitter among what [walkScript] makes happen, each
    with its name. *)
Definition emitted (evs : list (scriptEvent node))
  : list (jsstring * scriptEvent node) :=
  flat_map (fun e =>
              match e with
              | NodeEvent _ => [(lit "node", e)]
              | EndEvent _ => [(lit "end", e)]
              | Uncaught _ => []
              end) evs.

(** [walkScript(path, opts, cb)] with a callback: the calls of [cb], each
    with the nodes collected so far. *)
Definition walkScriptCollect (code : jsval)
  : outcome (list (list (scriptEvent node))) :=
  evs <- walkScript falafel code ;;
  Returns (collector (lit "node") (fun e => e) (emitted evs)).

End ScriptsCollected.

(** *** Resources *)

(** The first argument of [listResources]: a list of extensions, a
    function, or nothing. *)
Inductive extsArg : Type :=
| ExtsList : list jsstring -> extsArg
| ExtsFunction : extsArg
| ExtsNone : extsArg.

Section Resources.

Variable existsSync : jsstring -> bool.
Variable findit : jsstring -> list (jsstring * stat).
Variable extname : jsstring -> jsstring.
Variable basename : jsstring -> jsstring -> jsstring.

(** [listResources(exts, next)]; [resources] is [this.paths.resources]. *)
Definition listResources (resources : jsstring) (exts : extsArg) (next : bool)
  : outcome listing :=
  match exts with
  | ExtsFunction => listFiles existsSync findit extname basename resources None true
  | ExtsList l => listFiles existsSync findit extname basename resources (Some l) next
  | ExtsNone => listFiles existsSync findit extname basename resources None next
  end.

(** [listResourcesSync(exts)] *)
Definition listResourcesSync (resources : jsstring) (exts : extsArg)
  : outcome (list entry) :=
  match exts with
  | ExtsList l => listFilesSync existsSync findit extname basename resources (Some l)
  | _ => listFilesSync existsSync findit extname basename resources None
  end.

End Resources.

(** *** Translations *)

(** The files of the translations: what each path holds, and whether the
    file system takes changes. *)
Record disk (contents : Type) : Type := mkDisk {
  holds : jsstring -> option contents;
  writable : bool
}.

(** What a call on the file system gives: a value, an error of [fs], or an
    error of the language. *)
Inductive ioOutcome (A : Type) : Type :=
| IoReturns : A -> ioOutcome A
| IoThrows : ioOutcome A
| JsThrows : error -> ioOutcome A.

Arguments IoReturns {A} _.
Arguments IoThrows {A}.
Arguments JsThrows {A} _.

Section Translations.

Variable contents : Type.
Variable JSON_parse : contents -> option json.
Variable JSON_stringify : bool -> json -> contents.
Variable path_join : jsstring -> jsstring -> jsstring.
(** [this.paths.lang] *)
Variable lang : jsstring.

(** [path.join(this.paths.lang, code + ".json")] *)
Definition translationPath (code : jsstring) : jsstring :=
  path_join lang (code ++ lit ".json").

Definition writeDisk (d : disk contents) (p : jsstring) (c : option contents)
  : disk contents :=
  mkDisk (fun q => if str_eqb q p then c else holds d q) (writable d).

(** [getTranslationSync(code)]: the buffer that was read is an object,
    hence truthy; every error is caught and gives [null]. *)
Definition getTranslationSync (code : jsstring) (d : disk contents) : json :=
  match holds d (translationPath code) with
  | Some data =>
      match JSON_parse data with
      | Some j => j
      | None => JNull
      end
  | None => JNull
  end.

(** [getTranslation(code, cb)], run to the end of the callback of
    [fs.readFile], which the [try] does not cover; the result lists the
    calls of [cb]. *)
Definition getTranslation (code : jsstring) (d : disk contents)
  : ioOutcome (list json) :=
  match holds d (translationPath code) with
  | Some data =>
      match JSON_parse data with
      | Some j => IoReturns [j]
      | None => JsThrows SyntaxError
      end
  | None => IoReturns [JNull]
  end.

(** [saveTranslationSync(code, json)] *)
Definition saveTranslationSync (code : jsstring) (j : json) (d : disk contents)
  : ioOutcome (bool * disk contents) :=
  if writable d
  then IoReturns (true, writeDisk d (translationPath code)
                                  (Some (serializeConfig JSON_stringify j)))
  else IoThrows.

(** [removeTranslationSync(code)] *)
Definition removeTranslationSync (code : jsstring) (d : disk contents)
  : ioOutcome (bool * disk contents) :=
  match holds d (translationPath code) with
  | Some _ =>
      if writable d
      then IoReturns (true, writeDisk d (translationPath code) None)
      else IoThrows
  | None => IoThrows
  end.

End Translations.

End PackageManager.
Import PackageManager.

(** ** Vocabulary of the statements *)

(** The string begins with a dot. *)
Definition startsWithDot (s : jsstring) : bool :=
  match s with
  | c :: _ => N.eqb c 46
  | [] => false
  end.

(** [m] is a match of [importRegex] in [code]. *)
Definition importMatch (code : jsstring) (m : result) : Prop :=
  index m <= List.length code
  /\ matchAt false true code (pattern importRegex) (index m) = Some (final m).

(** [y] keeps the captures of [x] outside of [gs]. *)
Definition frame (gs : list nat) (x y : state) : Prop :=
  forall n, ~ In n gs -> getCapture n y = getCapture n x.

(** The continuation [c] was called on a state no earlier than [x], [k]
    code units later at least, and answered [w]. *)
Definition reaches (k : nat) (gs : list nat) (c : cont) (x w : state) : Prop :=
  exists y, c y = Some w /\ endIndex x + k <= endIndex y /\ frame gs x y.

Definition step (b : bool) : nat := if b then 1 else 0.

(** The matches [ms] lie in a text of length [len], one after the other
    from [pos] on. *)
Fixpoint chain (len pos : nat) (ms : list result) : bool :=
  match ms with
  | [] => pos <=? len
  | m :: ms' =>
      (pos <=? index m) && (index m <=? lastOf m) && (lastOf m <=? len)
      && chain len (lastOf m) ms'
  end.

(** One of the digits [createUUID] replaces. *)
Definition isUuidDigit (a : jsval) : bool :=
  match a with
  | Some [c] => N.eqb c 48 || N.eqb c 49 || N.eqb c 56
  | _ => false
  end.

(** The continuations [c] and [c'] answer alike on the states between [x]
    and the end of a text of length [len]. *)
Definition agree (len : nat) (x : state) (c c' : cont) : Prop :=
  forall y, endIndex x <= endIndex y -> endIndex y <= len -> c y = c' y.

(** A world in which a file holds a JSON value, for examples. *)
Definition parseValue (j : json) : option json := Some j.
Definition stringifyValue (indent : bool) (j : json) : json := j.
Definition randomZero (k : nat) : N := 0%N.

(** The groups 0 to [n] of the first match of [re] in [s]. *)
Definition execGroups (re : regexp) (s : jsstring) (n : nat)
  : option (list jsval) :=
  match exec re s 0 with
  | Some m => Some (map (group s m) (seq 0 (S n)))
  | None => None
  end.

(** ** Vocabulary of the round trip of the sanitizer *)

Definition succeeds {A : Type} (o : option A) : bool :=
  match o with Some _ => true | None => false end.

(** [e] is the end of the text [t] or the index of a line terminator. *)
Definition lineEndAt (t : jsstring) (e : nat) : Prop :=
  match nth_error t e with
  | Some ch => isLineTerminator ch = true
  | None => True
  end.

(** The states [x] and [x'] are at the same offset of a window of [n] code
    units that starts at [a] in one text and at [a'] in another. *)
Definition related (a a' n : nat) (x x' : state) : Prop :=
  exists j, j <= n /\ endIndex x = a + j /\ endIndex x' = a' + j.

(** Two patterns that differ in their captures only, and that take no line
    terminator and do not look at the start of the line. *)
Inductive shape (ic : bool) : regex -> regex -> Prop :=
| ShEps : shape ic Eps Eps
| ShChr : forall p, isLineTerminator p = false -> shape ic (Chr p) (Chr p)
| ShCls : forall p,
    (forall ch, isLineTerminator ch = true -> classHolds ic p ch = false) ->
    shape ic (Cls p) (Cls p)
| ShEol : shape ic Eol Eol
| ShWb : shape ic Wb Wb
| ShSeq : forall r1 r1' r2 r2',
    shape ic r1 r1' -> shape ic r2 r2' -> shape ic (Seq r1 r2) (Seq r1' r2')
| ShAlt : forall r1 r1' r2 r2',
    shape ic r1 r1' -> shape ic r2 r2' -> shape ic (Alt r1 r2) (Alt r1' r2')
| ShRep : forall g mn mx r r',
    shape ic r r' -> shape ic (Rep g mn mx r) (Rep g mn mx r')
| ShGrpL : forall k r r', shape ic r r' -> shape ic (Grp k r) r'
| ShGrpR : forall k r r', shape ic r r' -> shape ic r (Grp k r').

(** [y] is not before [x], and is inside the text when [x] is. *)
Definition after (input : jsstring) (x y : state) : Prop :=
  endIndex x <= endIndex y
  /\ (endIndex x <= List.length input -> endIndex y <= List.length input).

(** The matcher [m] called its continuation [c] on a state [y] after [x],
    where [c] answered [w]; and [m] succeeds with every continuation that
    succeeds on [y]. *)
Definition replays (input : jsstring) (m : cont -> option state) (c : cont)
           (x w : state) : Prop :=
  exists y, c y = Some w /\ after input x y
            /\ forall c', succeeds (c' y) = true -> succeeds (m c') = true.

(** The continuation RepeatMatcher gives to its body. *)
Definition repeatCont (m : cont -> state -> option state) (gs : list nat)
           (greedy : bool) (c : cont) (fuel min : nat) (max : option nat)
           (x : state) : cont :=
  fun y =>
    if Nat.eqb min 0 && Nat.eqb (endIndex y) (endIndex x) then None
    else repeatMatcher m gs greedy c fuel (pred min) (pred_max max) y.

(** What [c] accepts from [x] on, [c'] accepts on the other side of the
    window. *)
Definition below (a a' n : nat) (c c' : cont) (x : state) : Prop :=
  forall y y', related a a' n y y' -> endIndex x <= endIndex y ->
               succeeds (c y) = true -> succeeds (c' y') = true.

(** A text as its lines: the first line and then, for each line
    terminator, the terminator and the line that follows it. *)
Fixpoint join (l0 : jsstring) (rest : list (N * jsstring)) : jsstring :=
  match rest with
  | [] => l0
  | (t, l) :: rest' => l0 ++ t :: join l rest'
  end.

(** A line holds no line terminator. *)
Definition isLine (l : jsstring) : Prop :=
  Forall (fun c => isLineTerminator c = false) l.

Definition areLines (l0 : jsstring) (rest : list (N * jsstring)) : Prop :=
  isLine l0
  /\ Forall (fun tl => isLineTerminator (fst tl) = true /\ isLine (snd tl)) rest.

(** The same change on every line. *)
Definition onLines (f : jsstring -> jsstring) (rest : list (N * jsstring))
  : list (N * jsstring) :=
  map (fun tl => (fst tl, f (snd tl))) rest.

(** [change] on a line that the pattern [^ body], flag [m], matches. *)
Definition perLine (ic : bool) (body : regex) (change : jsstring -> jsstring)
           (l : jsstring) : jsstring :=
  if succeeds (matchAt ic true l (Seq Bol body) 0) then change l else l.

(** The patterns of the sanitizer after their leading [^]. *)
Definition maskBody : regex :=
  Seq (Grp 1 (seqs [Star (Cls blank); Opt (Grp 2 (word "//"));
                    Grp 3 keyword; Wb; Star (Cls dot)]))
      Eol.

Definition unmaskBody : regex :=
  Seq (word "//")
      (Seq (Grp 1 (seqs [Star (Cls blank); Grp 2 keyword; Wb; Star (Cls dot)]))
           Eol).

(** [maskBody] without its optional slashes. *)
Definition plainBody : regex :=
  Seq (Grp 1 (seqs [Star (Cls blank); Grp 3 keyword; Wb; Star (Cls dot)])) Eol.

(** Pattern [^ [ \t]* \/\/ ( import|from ) \b], flags [im] (spaces added
    between the parts): a line that holds an import commented out with no
    space after the slashes. *)
Definition commentedBody : regex :=
  seqs [Star (Cls blank); word "//"; keyword; Wb].

Definition reCommentedImport : regexp :=
  mkRegExp (Seq Bol commentedBody) true true false.

(** What [sanitizeCode] and [unsanitizeCode] do to one line. *)
Definition maskLine (l : jsstring) : jsstring :=
  if succeeds (matchAt true true l (pattern reImportLine) 0)
  then lit "//" ++ l else l.

Definition unmaskLine (l : jsstring) : jsstring :=
  if succeeds (matchAt true true l (pattern reMaskedImportLine) 0)
  then skipn 2 l else l.

(** And to the directive at the start of the text. *)
Definition isHash (l : jsstring) : bool :=
  match l with
  | c :: _ => N.eqb c 35
  | [] => false
  end.

Definition isMaskedHash (l : jsstring) : bool :=
  match l with
  | a :: b :: c :: _ => N.eqb a 47 && N.eqb b 47 && N.eqb c 35
  | _ => false
  end.

Definition maskHash (l : jsstring) : jsstring :=
  if isHash l then lit "//" ++ l else l.

Definition unmaskHash (l : jsstring) : jsstring :=
  if isMaskedHash l then skipn 2 l else l.

(** A text with a directive, imports and other lines, for examples. *)
Definition sampleText : jsstring :=
  lit "#define A" ++ [LF] ++ lit "import a.b;" ++ [LF]
  ++ lit "var x = 1;" ++ [LF] ++ lit "  From x import y;".

(** ** Vocabulary of the further properties *)

(** [l'] is [l], or [l] behind the mask [//]. *)
Definition maskedOf (l l' : jsstring) : Prop :=
  l' = l \/ l' = lit "//" ++ l.

(** Pattern [^ [ \t]* ( import|from ) \b], flags [im] (spaces added between
    the parts): a line that begins, after blanks, with the word [import] or
    [from]. *)
Definition importBody : regex := seqs [Star (Cls blank); keyword; Wb].

Definition reImportStart : regexp :=
  mkRegExp (Seq Bol importBody) true true false.

(** A hexadecimal digit in lower case. *)
Definition isLowerHex (c : N) : bool :=
  (N.leb 48 c && N.leb c 57) || (N.leb 97 c && N.leb c 102).

(** The template of [createUUID] with each of its digits 0, 1 and 8
    replaced, from left to right, by the digit [createUUID] makes of it with
    the next random number. *)
Fixpoint uuidFill (random16 : nat -> N) (t : jsstring) (k : nat) : jsstring :=
  match t with
  | [] => []
  | c :: t' =>
      if isUuidDigit (Some [c])
      then uuidDigit random16 [c] k ++ uuidFill random16 t' (S k)
      else c :: uuidFill random16 t' k
  end.

(** The text holds no dollar sign. *)
Definition noDollar (t : jsstring) : bool :=
  forallb (fun c => negb (N.eqb c 36)) t.

(** The text [s] begins with [p]. *)
Fixpoint startsWith (p s : jsstring) : bool :=
  match p, s with
  | [], _ => true
  | a :: p', b :: s' => N.eqb b a && startsWith p' s'
  | _ :: _, [] => false
  end.

(** The pattern of the code units of [p], one after the other, and then
    [r]. *)
Definition litThen (p : jsstring) (r : regex) : regex :=
  fold_right (fun a acc => Seq (Chr a) acc) r p.

(** The text does not go on with a blank, a carriage return or a line
    feed. *)
Definition noBlankAhead (t : jsstring) : bool :=
  match t with
  | [] => true
  | c :: _ => negb (blank c) && negb (N.eqb c CR) && negb (N.eqb c LF)
  end.

(** The nodes the engine visited, whether it returned or threw. *)
Definition visitedBy {node : Type} (r : falafelResult node) : list node :=
  match r with
  | Threw visited => visited
  | Output visited _ => visited
  end.

(** The listing holds no ['file'] event. *)
Definition noFileSignal (l : listing) : bool :=
  forallb (fun e => match e with Emit (FileSignal _) => false | _ => true end)
          (now l ++ later l).

(** The entries the callback of a listing was given, one list per call. *)
Definition calledWith (l : listing) : list (list entry) :=
  flat_map (fun e => match e with Call es => [es] | Emit _ => [] end)
           (now l ++ later l).

(** A segment of a dotted path: not empty, and without a dot. *)
Definition isSegment (s : jsstring) : bool :=
  negb (Nat.eqb (List.length s) 0) && forallb (noneOf ".") s.

(** The segments with a dot between them, as in [a.b.c]. *)
Fixpoint joinDots (segs : list jsstring) : jsstring :=
  match segs with
  | [] => []
  | [s] => s
  | s :: segs' => s ++ lit "." ++ joinDots segs'
  end.

(** The segments with a dot after each, as in [a.b.]. *)
Definition withDots (segs : list jsstring) : jsstring :=
  flat_map (fun s => s ++ lit ".") segs.

(** A code unit of a word of an import statement: neither white space nor
    a semicolon. *)
Definition isPlain (c : N) : bool := negb (isSpace c) && negb (N.eqb c 59).

(** A word: not empty, and of such code units. *)
Definition isToken (t : jsstring) : bool :=
  negb (Nat.eqb (List.length t) 0) && forallb isPlain t.

(** A name: a word without a dot. *)
Definition isName (t : jsstring) : bool :=
  isToken t && forallb (noneOf ".") t.

(** The words with one space between them. *)
Fixpoint joinSpaces (toks : list jsstring) : jsstring :=
  match toks with
  | [] => []
  | [t] => t
  | t :: toks' => t ++ lit " " ++ joinSpaces toks'
  end.

(** The text without its leading dot, when it has one. *)
Definition dropDot (t : jsstring) : jsstring :=
  if startsWithDot t then tl t else t.






(** * Properties *)

(** ** The matcher on the examples of the ECMAScript specification *)

(** Alternatives are tried from the left and captures of the untaken
    alternative are undefined: the pattern ((a)|(ab))((c)|(bcd)) on
    [abcd]. *)
Example exec_alternatives :
  execGroups
    (mkRegExp (seqs [Grp 1 (Alt (Grp 2 (word "a")) (Grp 3 (word "ab")));
                     Grp 4 (Alt (Grp 5 (word "c")) (Grp 6 (word "bcd")))])
              false false false)
    (lit "abcd") 6
  = Some [Some (lit "abcd"); Some (lit "a"); Some (lit "a"); None;
          Some (lit "bcd"); None; Some (lit "bcd")].
Proof. vm_compute. reflexivity. Qed.

(** Captures inside a repetition are cleared when an iteration starts:
    the pattern (z)((a+)?(b+)?(c))* on [zaacbbbcac]. *)
Example exec_captures_reset :
  execGroups
    (mkRegExp (seqs [Grp 1 (word "z");
                     Star (Grp 2 (seqs [Opt (Grp 3 (Plus (word "a")));
                                        Opt (Grp 4 (Plus (word "b")));
                                        Grp 5 (word "c")]))])
              false false false)
    (lit "zaacbbbcac") 5
  = Some [Some (lit "zaacbbbcac"); Some (lit "z"); Some (lit "ac");
          Some (lit "a"); None; Some (lit "c")].
Proof. vm_compute. reflexivity. Qed.

(** An iteration that matches the empty string is refused: a starred
    group of [a]-stars on [b]. *)
Example exec_empty_iteration :
  execGroups (mkRegExp (Star (Grp 1 (Star (word "a")))) false false false)
             (lit "b") 1
  = Some [Some []; None].
Proof. vm_compute. reflexivity. Qed.

(** Greedy and lazy bounded repetition on [abcdefghi]. *)
Example exec_bounded :
  execGroups (mkRegExp (seqs [word "a"; Rep true 2 (Some 4) (Cls isWordChar)])
                       false false false) (lit "abcdefghi") 0
  = Some [Some (lit "abcde")]
  /\ execGroups (mkRegExp (seqs [word "a"; Rep false 2 (Some 4) (Cls isWordChar)])
                          false false false) (lit "abcdefghi") 0
     = Some [Some (lit "abc")].
Proof. split; vm_compute; reflexivity. Qed.

(** A global replacement steps over empty matches. *)
Example replace_empty_matches :
  replace (mkRegExp (LazyStar (word "a")) false false true) [Text (lit "x")]
          (lit "aaa") = lit "xaxaxax"
  /\ replace (mkRegExp (Star (word "a")) false false true) [Text (lit "x")]
             (lit "baaac") = lit "xbxxcx".
Proof. split; vm_compute; reflexivity. Qed.

Example split_spaces :
  split reSpaces (lit " a  b ") = [[]; lit "a"; lit "b"; []]
  /\ split reSpaces [] = [[]]
  /\ split (mkRegExp (Star (Cls isSpace)) false false false) (lit "ab c")
     = [lit "a"; lit "b"; lit "c"].
Proof. repeat split; vm_compute; reflexivity. Qed.


(** ** The matcher *)

Section MatcherFacts.

Variables (ignoreCase multiline : bool) (input : jsstring).

Lemma frame_refl gs x : frame gs x x.
Proof. intros n _; reflexivity. Qed.

Lemma frame_trans gs x y z : frame gs x y -> frame gs y z -> frame gs x z.
Proof. intros H1 H2 n Hn. rewrite (H2 n Hn). now apply H1. Qed.

Lemma frame_weaken gs gs' x y :
  (forall n, In n gs -> In n gs') -> frame gs x y -> frame gs' x y.
Proof. intros Hsub H n Hn. apply H. intro Hin. apply Hn. now apply Hsub. Qed.

Lemma getCapture_clear gs n x :
  ~ In n gs -> getCapture n (clear gs x) = getCapture n x.
Proof.
  intros Hn. unfold getCapture, clear. simpl.
  induction (captures x) as [|[k se] l IH]; simpl; [reflexivity|].
  destruct (existsb (Nat.eqb k) gs) eqn:Hk; simpl.
  - destruct (Nat.eqb k n) eqn:Hkn; [|exact IH].
    apply Nat.eqb_eq in Hkn. subst k.
    apply existsb_exists in Hk. destruct Hk as [g [Hg Hgn]].
    apply Nat.eqb_eq in Hgn. subst g. contradiction.
  - destruct (Nat.eqb k n); [reflexivity|exact IH].
Qed.

Lemma frame_clear gs x : frame gs x (clear gs x).
Proof. intros n Hn. now apply getCapture_clear. Qed.

Lemma getCapture_set_other n m s e x :
  n <> m -> getCapture n (setCapture m s e x) = getCapture n x.
Proof.
  intros Hnm. unfold getCapture, setCapture. simpl.
  destruct (Nat.eqb m n) eqn:E; [|reflexivity].
  apply Nat.eqb_eq in E. congruence.
Qed.

Lemma getCapture_set_same n s e x :
  getCapture n (setCapture n s e x) = Some (s, e).
Proof. unfold getCapture, setCapture. simpl. now rewrite Nat.eqb_refl. Qed.

(** RepeatMatcher inherits the invariant of its body. *)
Lemma repeatMatcher_reaches (m : cont -> state -> option state) gs k greedy c :
  (forall d x w, m d x = Some w -> reaches k gs d x w) ->
  forall fuel min max x w,
    repeatMatcher m gs greedy c fuel min max x = Some w ->
    reaches
      (if negb (Nat.eqb min 0) && match max with Some 0 => false | _ => true end
       then k else 0) gs c x w.
Proof.
  intros Hm. induction fuel as [|fuel IH]; intros min max x w H; [discriminate|].
  simpl in H.
  assert (Hzero : c x = Some w -> reaches 0 gs c x w).
  { intros Hc. exists x. split; [|split]; [exact Hc|lia|apply frame_refl]. }
  assert (Hiter : m (fun y : state =>
                       if Nat.eqb min 0 && Nat.eqb (endIndex y) (endIndex x)
                       then None
                       else repeatMatcher m gs greedy c fuel (pred min) (pred_max max) y)
                    (clear gs x) = Some w -> reaches k gs c x w).
  { intros Hi. apply Hm in Hi. destruct Hi as [y1 [Hd [Hle Hfr]]].
    destruct (Nat.eqb min 0 && Nat.eqb (endIndex y1) (endIndex x)); [discriminate|].
    apply IH in Hd. destruct Hd as [y [Hc [Hle2 Hfr2]]].
    exists y. split; [|split]; [exact Hc|simpl in Hle; lia|].
    eapply frame_trans; [|exact Hfr2].
    eapply frame_trans; [apply frame_clear|exact Hfr]. }
  assert (Hweak : reaches k gs c x w -> reaches 0 gs c x w).
  { intros [y [Hc [Hle Hfr]]]. exists y. split; [|split]; [exact Hc|lia|exact Hfr]. }
  destruct max as [[|mx]|].
  - rewrite andb_false_r. now apply Hzero.
  - rewrite andb_true_r. destruct (Nat.eqb min 0); simpl in *.
    + destruct greedy.
      * destruct (m _ (clear gs x)) eqn:E.
        -- inversion H; subst. apply Hweak. now apply Hiter.
        -- now apply Hzero.
      * destruct (c x) eqn:E.
        -- inversion H; subst. now apply Hzero.
        -- apply Hweak. now apply Hiter.
    + now apply Hiter.
  - rewrite andb_true_r. destruct (Nat.eqb min 0); simpl in *.
    + destruct greedy.
      * destruct (m _ (clear gs x)) eqn:E.
        -- inversion H; subst. apply Hweak. now apply Hiter.
        -- now apply Hzero.
      * destruct (c x) eqn:E.
        -- inversion H; subst. now apply Hzero.
        -- apply Hweak. now apply Hiter.
    + now apply Hiter.
Qed.

(** Every success of the matcher is a success of its continuation, on a
    later state that keeps the captures the pattern does not own. *)
Lemma rmatch_reaches r :
  forall c x w,
    rmatch ignoreCase multiline input r c x = Some w ->
    reaches (step (consumes r)) (groups r) c x w.
Proof.
  induction r as [|a|p| | | |r1 IH1 r2 IH2|r1 IH1 r2 IH2|g mn mx body IH|n body IH];
    intros c x w H; cbn [rmatch] in H.
  - exists x. split; [|split]; [exact H|simpl; lia|apply frame_refl].
  - destruct (nth_error input (endIndex x)) as [ch|]; [|discriminate].
    destruct (N.eqb _ _); [|discriminate].
    eexists. split; [|split]; [exact H|simpl; lia|intros n _; reflexivity].
  - destruct (nth_error input (endIndex x)) as [ch|]; [|discriminate].
    destruct (classHolds _ _ _); [|discriminate].
    eexists. split; [|split]; [exact H|simpl; lia|intros n _; reflexivity].
  - destruct (atLineStart _ _ _); [|discriminate].
    exists x. split; [|split]; [exact H|simpl; lia|apply frame_refl].
  - destruct (atLineEnd _ _ _); [|discriminate].
    exists x. split; [|split]; [exact H|simpl; lia|apply frame_refl].
  - destruct (xorb _ _); [|discriminate].
    exists x. split; [|split]; [exact H|simpl; lia|apply frame_refl].
  - apply IH1 in H. destruct H as [y1 [H [Hle1 Hfr1]]].
    apply IH2 in H. destruct H as [y2 [H [Hle2 Hfr2]]].
    exists y2. split; [|split]; [exact H| |].
    + simpl. unfold step in *.
      destruct (consumes r1), (consumes r2); simpl in *; lia.
    + simpl. eapply frame_trans.
      * eapply frame_weaken; [|exact Hfr1]. intros; apply in_or_app; now left.
      * eapply frame_weaken; [|exact Hfr2]. intros; apply in_or_app; now right.
  - destruct (rmatch _ _ _ r1 c x) eqn:E.
    + inversion H; subst. apply IH1 in E. destruct E as [y [Hc [Hle Hfr]]].
      exists y. split; [|split]; [exact Hc| |].
      * simpl. unfold step in *.
        destruct (consumes r1), (consumes r2); simpl in *; lia.
      * simpl. eapply frame_weaken; [|exact Hfr].
        intros; apply in_or_app; now left.
    + apply IH2 in H. destruct H as [y [Hc [Hle Hfr]]].
      exists y. split; [|split]; [exact Hc| |].
      * simpl. unfold step in *.
        destruct (consumes r1), (consumes r2); simpl in *; lia.
      * simpl. eapply frame_weaken; [|exact Hfr].
        intros; apply in_or_app; now right.
  - apply repeatMatcher_reaches with (k := step (consumes body)) in H; [|exact IH].
    destruct H as [y [Hc [Hle Hfr]]].
    exists y. split; [|split]; [exact Hc| |exact Hfr].
    simpl. unfold step in *.
    destruct (negb (Nat.eqb mn 0) && match mx with Some 0 => false | _ => true end);
      destruct (consumes body); simpl in *; lia.
  - apply IH in H. destruct H as [y [Hc [Hle Hfr]]].
    eexists. split; [|split]; [exact Hc|simpl; exact Hle|].
    intros m Hm. simpl in Hm.
    rewrite getCapture_set_other by (intro; subst; apply Hm; now left).
    apply Hfr. intro Hin. apply Hm. now right.
Qed.

End MatcherFacts.

Lemma rmatch_Seq_inv ic ml s a b c x w :
  rmatch ic ml s (Seq a b) c x = Some w ->
  exists y, rmatch ic ml s b c y = Some w
            /\ endIndex x + step (consumes a) <= endIndex y
            /\ frame (groups a) x y.
Proof. intros H. cbn [rmatch] in H. now apply rmatch_reaches in H. Qed.

Lemma rmatch_Grp_inv ic ml s n a c x w :
  rmatch ic ml s (Grp n a) c x = Some w ->
  exists y, c (setCapture n (endIndex x) (endIndex y) y) = Some w
            /\ endIndex x + step (consumes a) <= endIndex y.
Proof.
  intros H. cbn [rmatch] in H. apply rmatch_reaches in H.
  destruct H as [y [H [Hle _]]]. now exists y.
Qed.

(** A match never ends before it starts, and ends later when the pattern
    consumes. *)
Lemma matchAt_advances ic ml s r i y :
  matchAt ic ml s r i = Some y -> i + step (consumes r) <= endIndex y.
Proof.
  unfold matchAt. intros H. apply rmatch_reaches in H.
  destruct H as [y' [Hy [Hle _]]]. inversion Hy; subst. exact Hle.
Qed.

(** ** Searching *)

Lemma firstMatch_none re s cands :
  (forall i, In i cands -> matchAt (flagI re) (flagM re) s (pattern re) i = None) ->
  firstMatch re s cands = None.
Proof.
  induction cands as [|i cands IH]; intros H; simpl; [reflexivity|].
  rewrite (H i) by now left. apply IH. intros j Hj. apply H. now right.
Qed.

Lemma firstMatch_some re s cands m :
  firstMatch re s cands = Some m ->
  In (index m) cands
  /\ matchAt (flagI re) (flagM re) s (pattern re) (index m) = Some (final m).
Proof.
  induction cands as [|i cands IH]; simpl; [discriminate|].
  destruct (matchAt _ _ s (pattern re) i) eqn:E.
  - intros H. inversion H; subst. simpl. split; [now left|exact E].
  - intros H. apply IH in H. destruct H as [H1 H2]. split; [now right|exact H2].
Qed.

Lemma exec_some re s lastIndex m :
  exec re s lastIndex = Some m ->
  lastIndex <= index m <= List.length s
  /\ matchAt (flagI re) (flagM re) s (pattern re) (index m) = Some (final m).
Proof.
  unfold exec. intros H. apply firstMatch_some in H. destruct H as [Hin Hm].
  apply in_seq in Hin. split; [lia|exact Hm].
Qed.

(** A pattern that starts with [^] and has no [m] flag matches at index 0
    only. *)
Lemma anchored_later ic s r i :
  matchAt ic false s (Seq Bol r) (S i) = None.
Proof. reflexivity. Qed.

Lemma exec_anchored re s r :
  pattern re = Seq Bol r -> flagM re = false ->
  exec re s 0 =
  match matchAt (flagI re) false s (pattern re) 0 with
  | Some y => Some (mkResult 0 y)
  | None => None
  end.
Proof.
  intros Hp Hm. unfold exec. rewrite Nat.sub_0_r. simpl seq. simpl firstMatch.
  rewrite Hm. destruct (matchAt _ _ _ _ 0); [reflexivity|].
  apply firstMatch_none. intros i Hi. apply in_seq in Hi.
  destruct i as [|i]; [lia|]. rewrite Hm, Hp. apply anchored_later.
Qed.

(** ** Splitting *)

Lemma splitLoop_nonempty re s :
  forall fuel p q, List.length s - q < fuel -> splitLoop fuel re s p q <> [].
Proof.
  induction fuel as [|fuel IH]; intros p q Hlt; [lia|]. simpl.
  destruct (List.length s <=? q) eqn:Hq; [discriminate|].
  apply Nat.leb_gt in Hq.
  destruct (matchAt _ _ s (pattern re) q) as [y|].
  - destruct (Nat.eqb _ p); [apply IH; lia|discriminate].
  - apply IH. lia.
Qed.

(** [split] on white space always gives a first element. *)
Lemma split_spaces_first s : exists r0, nth_error (split reSpaces s) 0 = Some r0.
Proof.
  destruct (split reSpaces s) as [|r0 rest] eqn:E; [|now exists r0].
  exfalso. destruct s as [|c s].
  - vm_compute in E. discriminate.
  - unfold split in E. revert E. apply splitLoop_nonempty. simpl. lia.
Qed.

(** ** The fuel of the matcher is enough *)

Section FuelFacts.

Variables (ignoreCase multiline : bool) (input : jsstring).

Let L := List.length input.

Lemma repeatMatcher_local (m : cont -> state -> option state) gs greedy :
  (forall c c' x, endIndex x <= L -> agree L x c c' -> m c x = m c' x) ->
  forall fuel c c' min max x,
    endIndex x <= L -> agree L x c c' ->
    repeatMatcher m gs greedy c fuel min max x
    = repeatMatcher m gs greedy c' fuel min max x.
Proof.
  intros Hm. induction fuel as [|fuel IH]; intros c c' min max x Hx Hcc;
    [reflexivity|].
  assert (Hcx : c x = c' x) by (apply Hcc; lia).
  assert (Hiter :
            m (fun y : state =>
                 if Nat.eqb min 0 && Nat.eqb (endIndex y) (endIndex x) then None
                 else repeatMatcher m gs greedy c fuel (pred min) (pred_max max) y)
              (clear gs x)
            = m (fun y : state =>
                   if Nat.eqb min 0 && Nat.eqb (endIndex y) (endIndex x) then None
                   else repeatMatcher m gs greedy c' fuel (pred min) (pred_max max) y)
                (clear gs x)).
  { apply Hm; [exact Hx|]. intros y Hy1 Hy2. simpl in Hy1.
    destruct (Nat.eqb min 0 && Nat.eqb (endIndex y) (endIndex x)); [reflexivity|].
    apply IH; [exact Hy2|]. intros z Hz1 Hz2. apply Hcc; lia. }
  simpl. rewrite Hiter, Hcx. reflexivity.
Qed.

(** The matcher only asks its continuation about states that are no
    earlier than its own and inside the text. *)
Lemma rmatch_local r :
  forall c c' x,
    endIndex x <= L -> agree L x c c' ->
    rmatch ignoreCase multiline input r c x
    = rmatch ignoreCase multiline input r c' x.
Proof.
  induction r as [|a|p| | | |r1 IH1 r2 IH2|r1 IH1 r2 IH2|g mn mx body IH|n body IH];
    intros c c' x Hx Hcc; cbn [rmatch].
  - apply Hcc; lia.
  - destruct (nth_error input (endIndex x)) as [ch|] eqn:E; [|reflexivity].
    destruct (N.eqb _ _); [|reflexivity].
    assert (endIndex x < L) by (apply nth_error_Some; congruence).
    apply Hcc; simpl; lia.
  - destruct (nth_error input (endIndex x)) as [ch|] eqn:E; [|reflexivity].
    destruct (classHolds _ _ _); [|reflexivity].
    assert (endIndex x < L) by (apply nth_error_Some; congruence).
    apply Hcc; simpl; lia.
  - destruct (atLineStart _ _ _); [apply Hcc; lia|reflexivity].
  - destruct (atLineEnd _ _ _); [apply Hcc; lia|reflexivity].
  - destruct (xorb _ _); [apply Hcc; lia|reflexivity].
  - apply IH1; [exact Hx|]. intros y Hy1 Hy2.
    apply IH2; [exact Hy2|]. intros z Hz1 Hz2. apply Hcc; lia.
  - rewrite (IH1 c c' x Hx Hcc), (IH2 c c' x Hx Hcc). reflexivity.
  - apply repeatMatcher_local; assumption.
  - apply IH; [exact Hx|]. intros y Hy1 Hy2. apply Hcc; simpl; lia.
Qed.

(** More fuel than [min] plus the rest of the text changes nothing: the
    bound [rmatch] passes to RepeatMatcher never runs out. *)
Theorem repeatMatcher_fuel_enough r greedy c :
  forall fuel fuel' min max x,
    endIndex x <= L ->
    min + (L - endIndex x) < fuel ->
    min + (L - endIndex x) < fuel' ->
    repeatMatcher (rmatch ignoreCase multiline input r) (groups r) greedy c
                  fuel min max x
    = repeatMatcher (rmatch ignoreCase multiline input r) (groups r) greedy c
                    fuel' min max x.
Proof.
  induction fuel as [|fuel IH]; intros fuel' min max x Hx Hf Hf'; [lia|].
  destruct fuel' as [|fuel']; [lia|].
  assert (Hiter :
            rmatch ignoreCase multiline input r
              (fun y : state =>
                 if Nat.eqb min 0 && Nat.eqb (endIndex y) (endIndex x) then None
                 else repeatMatcher (rmatch ignoreCase multiline input r) (groups r)
                        greedy c fuel (pred min) (pred_max max) y)
              (clear (groups r) x)
            = rmatch ignoreCase multiline input r
                (fun y : state =>
                   if Nat.eqb min 0 && Nat.eqb (endIndex y) (endIndex x) then None
                   else repeatMatcher (rmatch ignoreCase multiline input r) (groups r)
                          greedy c fuel' (pred min) (pred_max max) y)
                (clear (groups r) x)).
  { apply rmatch_local; [exact Hx|]. intros y Hy1 Hy2. simpl in Hy1.
    destruct (Nat.eqb min 0) eqn:Emin; simpl.
    - destruct (Nat.eqb (endIndex y) (endIndex x)) eqn:Ey; [reflexivity|].
      apply Nat.eqb_eq in Emin. apply Nat.eqb_neq in Ey.
      apply IH; [exact Hy2|subst min; simpl; lia|subst min; simpl; lia].
    - apply Nat.eqb_neq in Emin. apply IH; [exact Hy2|lia|lia]. }
  simpl. rewrite Hiter. reflexivity.
Qed.

End FuelFacts.

(** A global search needs no more turns than the text has indices. *)
Lemma execAll_fuel_enough re s :
  forall fuel fuel' lastIndex,
    S (List.length s) - lastIndex < fuel ->
    S (List.length s) - lastIndex < fuel' ->
    execAll fuel re s lastIndex = execAll fuel' re s lastIndex.
Proof.
  induction fuel as [|fuel IH]; intros fuel' li Hf Hf'; [lia|].
  destruct fuel' as [|fuel']; [lia|]. simpl.
  destruct (exec re s li) as [m|] eqn:E; [|reflexivity].
  apply exec_some in E. destruct E as [Hidx Hm].
  apply matchAt_advances in Hm. f_equal. unfold lastOf.
  destruct (Nat.eqb (endIndex (final m)) (index m)) eqn:Ee.
  - apply Nat.eqb_eq in Ee. apply IH; lia.
  - apply Nat.eqb_neq in Ee. apply IH; lia.
Qed.

(** Nor does [split] need more turns than it is given. *)
Lemma splitLoop_fuel_enough re s :
  forall fuel fuel' p q,
    2 * (List.length s - q) + (if Nat.eqb p q then 0 else 1) < fuel ->
    2 * (List.length s - q) + (if Nat.eqb p q then 0 else 1) < fuel' ->
    splitLoop fuel re s p q = splitLoop fuel' re s p q.
Proof.
  induction fuel as [|fuel IH]; intros fuel' p q Hf Hf'; [lia|].
  destruct fuel' as [|fuel']; [lia|]. simpl.
  destruct (List.length s <=? q) eqn:Hq; [reflexivity|].
  apply Nat.leb_gt in Hq.
  assert (Hlow : 2 * (List.length s - q) <= fuel /\ 2 * (List.length s - q) <= fuel'
                 /\ (p <> q -> 2 * (List.length s - q) < fuel
                              /\ 2 * (List.length s - q) < fuel')).
  { revert Hf Hf'. destruct (Nat.eqb_spec p q); intros; lia. }
  destruct Hlow as [Hl [Hl' Hne]].
  assert (Hnext : splitLoop fuel re s p (S q) = splitLoop fuel' re s p (S q)).
  { apply IH; destruct (Nat.eqb p (S q)); lia. }
  destruct (matchAt _ _ s (pattern re) q) as [y|] eqn:E; [|exact Hnext].
  apply matchAt_advances in E.
  destruct (Nat.eqb (Nat.min (endIndex y) (List.length s)) p) eqn:Ep; [exact Hnext|].
  apply Nat.eqb_neq in Ep. f_equal.
  assert (Hmin : q <= Nat.min (endIndex y) (List.length s)) by lia.
  destruct (Nat.eq_dec p q) as [Hpq|Hpq].
  - apply IH; rewrite Nat.eqb_refl; lia.
  - specialize (Hne Hpq). apply IH; rewrite Nat.eqb_refl; lia.
Qed.

(** ** The import grammar *)

Lemma rmatch_Seq_Grp_inv ic ml s n a b c x w :
  rmatch ic ml s (Seq (Grp n a) b) c x = Some w ->
  exists y, rmatch ic ml s b c (setCapture n (endIndex x) (endIndex y) y) = Some w.
Proof.
  intros H.
  change (rmatch ic ml s (Grp n a) (fun y => rmatch ic ml s b c y) x = Some w) in H.
  apply rmatch_Grp_inv in H. destruct H as [y [H _]]. now exists y.
Qed.

(** A match of [importRegex] is not empty and defines its third group. *)
Lemma importRegex_match code i y :
  matchAt false true code (pattern importRegex) i = Some y ->
  i < endIndex y /\ exists ab, getCapture 3 y = Some ab.
Proof.
  intros H. split.
  - apply matchAt_advances in H. simpl in H. lia.
  - unfold matchAt in H. cbv [importRegex pattern seqs] in H.
    apply rmatch_Seq_inv in H. destruct H as [y1 [H _]].
    apply rmatch_Seq_inv in H. destruct H as [y2 [H _]].
    apply rmatch_Seq_inv in H. destruct H as [y3 [H _]].
    apply rmatch_Seq_inv in H. destruct H as [y4 [H _]].
    apply rmatch_Seq_Grp_inv in H. destruct H as [y5 H].
    apply rmatch_reaches in H. destruct H as [y6 [H [_ Hfr]]].
    inversion H; subst y6. eexists.
    rewrite (Hfr 3) by (simpl; tauto).
    apply getCapture_set_same.
Qed.

Lemma resolve_some rel s :
  resolve rel (Some s) =
  Returns (Some (if truthy_str rel && startsWithDot s
                 then resolveLoop (toStr rel) s else s)).
Proof.
  unfold resolve. destruct (truthy_str rel); simpl; [|reflexivity].
  destruct s as [|c s]; simpl; [reflexivity|].
  unfold charAt. simpl. rewrite andb_true_r.
  destruct (N.eqb c 46); reflexivity.
Qed.

(** The body of the loop returns a record for every match, and the field
    [resolved] of the record is a result of [resolve] on a string. *)
Lemma importOf_returns code rel m :
  importMatch code m ->
  exists r s, importOf code rel m = Returns r
              /\ resolve rel (Some s) = Returns (resolved r).
Proof.
  intros [_ Hm]. apply importRegex_match in Hm. destruct Hm as [_ [[a b] Hc]].
  assert (Hg : group code m 3 = Some (substring a b code)).
  { unfold group. now rewrite Hc. }
  unfold importOf. rewrite Hg. cbn [method bind].
  destruct (split_spaces_first (substring a b code)) as [r0 Hr0].
  rewrite Hr0.
  destruct (jsval_eqb (group code m 2) (Some (lit "import"))).
  - cbn [method bind]. rewrite resolve_some. cbn [bind].
    assert (Hor : exists u, or_else (nth_error (split reSpaces (substring a b code)) 2)
                                    (Some r0) = Some u).
    { unfold or_else. destruct (nth_error _ 2) as [[|? ?]|]; simpl; eauto. }
    destruct Hor as [u Hu]. rewrite Hu. cbn [method bind].
    rewrite resolve_some. cbn [bind]. do 2 eexists. split; [reflexivity|].
    cbn [resolved]. apply resolve_some.
  - rewrite !resolve_some. cbn [bind]. do 2 eexists. split; [reflexivity|].
    cbn [resolved]. apply resolve_some.
Qed.

(** The loop of [parseImports] ends: every match moves [lastIndex]. *)
Lemma parseLoop_returns (P : ImportRecord -> Prop) code rel :
  (forall m, importMatch code m ->
             exists r, importOf code rel m = Returns r /\ P r) ->
  forall fuel lastIndex,
    S (List.length code) - lastIndex < fuel ->
    exists recs, parseLoop fuel code rel lastIndex = Returns recs /\ Forall P recs.
Proof.
  intros Hbody. induction fuel as [|fuel IH]; intros li Hfuel; [lia|].
  simpl. destruct (exec importRegex code li) as [m|] eqn:E.
  - apply exec_some in E. destruct E as [Hidx Hm].
    destruct (Hbody m) as [r [Hr HP]]; [split; [lia|exact Hm]|].
    rewrite Hr. cbn [bind].
    apply importRegex_match in Hm. destruct Hm as [Hadv _].
    destruct (IH (lastOf m)) as [recs [Hrecs HF]]; [unfold lastOf; lia|].
    rewrite Hrecs. cbn [bind]. eexists. split; [reflexivity|].
    constructor; assumption.
  - exists []. split; [reflexivity|constructor].
Qed.

Lemma parseImports_returns (P : ImportRecord -> Prop) code rel :
  (forall m, importMatch code m ->
             exists r, importOf code rel m = Returns r /\ P r) ->
  exists recs, parseImports code rel = Returns recs /\ Forall P recs.
Proof. intros H. unfold parseImports. apply parseLoop_returns; [exact H|lia]. Qed.

(** ** Resolution *)

Lemma test_reLeadingDot s : test reLeadingDot s = startsWithDot s.
Proof.
  unfold test. rewrite (@exec_anchored reLeadingDot s (word ".")) by reflexivity.
  destruct s as [|c s]; [reflexivity|].
  unfold matchAt. cbn. destruct (N.eqb c 46); reflexivity.
Qed.

(** A pattern that ends with [$] and has no [m] flag stops at the end of
    the text. *)
Lemma eol_end ic s x w :
  rmatch ic false s Eol (fun y => Some y) x = Some w -> List.length s <= endIndex w.
Proof.
  cbn [rmatch]. unfold atLineEnd. rewrite andb_false_l, orb_false_r.
  destruct (List.length s <=? endIndex x) eqn:E; [|discriminate].
  intros H. inversion H; subst. now apply Nat.leb_le.
Qed.

(** Dropping the last segment keeps a prefix. *)
Lemma replace_reLastSegment_prefix s :
  exists i, replace reLastSegment [] s = firstn i s.
Proof.
  unfold replace, matches. cbn [flagG reLastSegment].
  destruct (exec _ s 0) as [m|] eqn:E.
  - apply exec_some in E. destruct E as [_ Hm].
    unfold matchAt in Hm. cbv [reLastSegment pattern flagI flagM seqs] in Hm.
    apply rmatch_Seq_inv in Hm. destruct Hm as [y1 [Hm _]].
    apply rmatch_Seq_inv in Hm. destruct Hm as [y2 [Hm _]].
    apply eol_end in Hm.
    exists (index m). cbn [splice expand flat_map]. unfold substring, lastOf.
    rewrite (skipn_all2 s Hm). simpl.
    now rewrite Nat.sub_0_r, app_nil_r.
  - exists (List.length s). simpl. now rewrite firstn_all.
Qed.

Lemma startsWithDot_firstn i s :
  startsWithDot s = false -> startsWithDot (firstn i s) = false.
Proof. destruct i, s; simpl; auto. Qed.

Lemma startsWithDot_app a b :
  startsWithDot a = false -> startsWithDot b = false ->
  startsWithDot (a ++ b) = false.
Proof. destruct a; simpl; auto. Qed.

(** The loop gives a path without a leading dot when the base has none. *)
Lemma resolveLoop_no_dot cls :
  forall rel2, startsWithDot rel2 = false ->
               startsWithDot (resolveLoop rel2 cls) = false.
Proof.
  induction cls as [|c cls IH]; intros rel2 Hrel.
  - cbn [resolveLoop]. rewrite test_reLeadingDot. simpl.
    rewrite app_nil_r. exact Hrel.
  - cbn [resolveLoop]. rewrite test_reLeadingDot.
    destruct (startsWithDot (c :: cls)) eqn:E.
    + apply IH. destruct (replace_reLastSegment_prefix rel2) as [i Hi].
      rewrite Hi. now apply startsWithDot_firstn.
    + now apply startsWithDot_app.
Qed.

Lemma resolve_no_dot rel s v :
  truthy_str rel = true -> startsWithDot (toStr rel) = false ->
  resolve rel (Some s) = Returns v ->
  exists p, v = Some p /\ startsWithDot p = false.
Proof.
  intros Ht Hd H. rewrite resolve_some in H. inversion H; subst v.
  eexists. split; [reflexivity|]. rewrite Ht. simpl.
  destruct (startsWithDot s) eqn:E; [|exact E].
  now apply resolveLoop_no_dot.
Qed.

(** ** parseImports *)

(** C2, as stated, fails: without a base package path [resolve] returns
    its argument as it is, so [import .Foo;] keeps its leading dot. *)
Lemma parseImports_dot_without_base :
  parseImports (lit "import .Foo;") (Some [])
  = Returns [mkImport (Some (lit "import")) (Some (lit ".")) (Some (lit "Foo"))
                      (Some (lit "Foo")) (Some (lit ".Foo"))]
  /\ startsWithDot (lit ".Foo") = true.
Proof. split; vm_compute; reflexivity. Qed.

(** C2, amended: for every input text and every base package path that is
    not empty and does not itself begin with a dot, [parseImports] returns,
    and the [resolved] path of every record is a string that does not begin
    with a dot. *)
Theorem parseImports_resolved_no_dot code rel :
  truthy_str rel = true ->
  startsWithDot (toStr rel) = false ->
  exists recs,
    parseImports code rel = Returns recs
    /\ Forall (fun r => exists p, resolved r = Some p /\ startsWithDot p = false)
              recs.
Proof.
  intros Ht Hd. apply parseImports_returns. intros m Hm.
  destruct (importOf_returns rel Hm) as [r [s [Hr Hres]]].
  exists r. split; [exact Hr|]. eapply resolve_no_dot; eassumption.
Qed.

Lemma parseImports_resolved_no_dot_witness :
  truthy_str (Some (lit "a.b.c")) = true
  /\ startsWithDot (toStr (Some (lit "a.b.c"))) = false
  /\ exists recs,
       parseImports (lit "import ..Foo;") (Some (lit "a.b.c")) = Returns recs
       /\ Forall (fun r => exists p, resolved r = Some p /\ startsWithDot p = false)
                 recs.
Proof.
  split; [reflexivity|]. split; [reflexivity|].
  apply (@parseImports_resolved_no_dot (lit "import ..Foo;") (Some (lit "a.b.c")));
    reflexivity.
Defined.

(** C3, as stated, fails: the alias of [import a.b.C;] is not ["C"]. *)
Lemma parseImports_import_alias_is_not_class :
  parseImports (lit "import a.b.C;") None
  <> Returns [mkImport (Some (lit "import")) (Some (lit "a.b")) (Some (lit "C"))
                       (Some (lit "C")) (Some (lit "a.b.C"))].
Proof. vm_compute. discriminate. Qed.

(** C3, amended: with any base package path, [import a.b.C;] yields exactly
    one record, of type [import], package ["a.b"], class ["C"] and resolved
    path ["a.b.C"]; without a third token the alias is the whole path as
    written, ["a.b.C"], less one leading dot if it has one. *)
Theorem parseImports_import_record rel :
  parseImports (lit "import a.b.C;") rel
  = Returns [mkImport (Some (lit "import")) (Some (lit "a.b")) (Some (lit "C"))
                      (Some (lit "a.b.C")) (Some (lit "a.b.C"))].
Proof. destruct rel as [[|c r]|]; vm_compute; reflexivity. Qed.

(** C4: [resolve("..Foo")] against the base ["a.b.c"] is ["a.Foo"], and a
    path without a leading dot is returned as it is, whatever the base. *)
Theorem resolve_relative_and_absolute :
  resolve (Some (lit "a.b.c")) (Some (lit "..Foo")) = Returns (Some (lit "a.Foo"))
  /\ forall rel cls, startsWithDot cls = false ->
                     resolve rel (Some cls) = Returns (Some cls).
Proof.
  split; [vm_compute; reflexivity|].
  intros rel cls H. rewrite resolve_some, H, andb_false_r. reflexivity.
Qed.

Lemma resolve_relative_and_absolute_witness :
  startsWithDot (lit "Foo") = false
  /\ resolve (Some (lit "a.b.c")) (Some (lit "Foo")) = Returns (Some (lit "Foo")).
Proof.
  split; [reflexivity|].
  apply (proj2 resolve_relative_and_absolute (Some (lit "a.b.c")) (lit "Foo")).
  reflexivity.
Defined.

(** C5: with any base package path, [from a.b import C as D;] yields exactly
    one record, of type [from], package ["a.b"], class ["C"], alias ["C"]
    and resolved path ["a.b.C"]. *)
Theorem parseImports_from_record rel :
  parseImports (lit "from a.b import C as D;") rel
  = Returns [mkImport (Some (lit "from")) (Some (lit "a.b")) (Some (lit "C"))
                      (Some (lit "C")) (Some (lit "a.b.C"))].
Proof. destruct rel as [[|c r]|]; vm_compute; reflexivity. Qed.

(** C6, as stated, fails: the terminator is optional in the grammar, and an
    import statement without [;] gives its record. *)
Lemma parseImports_without_terminator :
  parseImports (lit "import a.b.C") None
  = Returns [mkImport (Some (lit "import")) (Some (lit "a.b")) (Some (lit "C"))
                      (Some (lit "a.b.C")) (Some (lit "a.b.C"))]
  /\ parseImports (lit "import a.b.C") None <> Returns [].
Proof. split; vm_compute; [reflexivity|discriminate]. Qed.

(** ** Matching again with another continuation *)

Unset Implicit Arguments.

Lemma succeeds_orelse_l {A : Type} (o d : option A) :
  succeeds o = true ->
  succeeds (match o with Some z => Some z | None => d end) = true.
Proof. now destruct o. Qed.

Lemma succeeds_orelse_r {A : Type} (o d : option A) :
  succeeds d = true ->
  succeeds (match o with Some z => Some z | None => d end) = true.
Proof. now destruct o. Qed.

Section Replay.

Variables (ic ml : bool) (input : jsstring).

Lemma repeatMatcher_S (m : cont -> state -> option state) gs greedy c fuel min max x :
  repeatMatcher m gs greedy c (S fuel) min max x
  = match max with
    | Some 0 => c x
    | _ =>
        if negb (Nat.eqb min 0)
        then m (repeatCont m gs greedy c fuel min max x) (clear gs x)
        else if greedy then
          match m (repeatCont m gs greedy c fuel min max x) (clear gs x) with
          | Some z => Some z
          | None => c x
          end
        else
          match c x with
          | Some z => Some z
          | None => m (repeatCont m gs greedy c fuel min max x) (clear gs x)
          end
    end.
Proof. reflexivity. Qed.

Lemma repeatMatcher_replays (m : cont -> state -> option state) gs greedy :
  (forall c x w, m c x = Some w -> replays input (fun c' => m c' x) c x w) ->
  forall fuel c min max x w,
    repeatMatcher m gs greedy c fuel min max x = Some w ->
    replays input (fun c' => repeatMatcher m gs greedy c' fuel min max x) c x w.
Proof.
  intros Hm. induction fuel as [|fuel IH]; intros c min max x w H; [discriminate|].
  rewrite repeatMatcher_S in H.
  assert (Hiter :
            forall w',
              m (repeatCont m gs greedy c fuel min max x) (clear gs x) = Some w' ->
              exists y, c y = Some w' /\ after input x y
                /\ forall c', succeeds (c' y) = true ->
                     succeeds (m (repeatCont m gs greedy c' fuel min max x)
                                 (clear gs x)) = true).
  { intros w' Hi. apply Hm in Hi. destruct Hi as [y1 [Hd [Hle Hre]]].
    unfold repeatCont in Hd at 1.
    destruct (Nat.eqb min 0 && Nat.eqb (endIndex y1) (endIndex x)) eqn:E;
      [discriminate|].
    apply IH in Hd. destruct Hd as [y [Hc [Hle2 Hre2]]].
    exists y. split; [exact Hc|].
    split; [unfold after in *; simpl in Hle; lia|].
    intros c' Hc'. apply Hre. unfold repeatCont at 1. rewrite E. now apply Hre2. }
  assert (Hstop : c x = Some w ->
                  (forall c', succeeds (c' x) = true ->
                     succeeds (repeatMatcher m gs greedy c' (S fuel) min max x) = true) ->
                  replays input
                    (fun c' => repeatMatcher m gs greedy c' (S fuel) min max x)
                          c x w).
  { intros Hc Hre. exists x. split; [exact Hc|].
    split; [unfold after; lia|exact Hre]. }
  assert (Hgo : m (repeatCont m gs greedy c fuel min max x) (clear gs x) = Some w ->
                (forall c',
                    succeeds (m (repeatCont m gs greedy c' fuel min max x)
                                (clear gs x)) = true ->
                    succeeds (repeatMatcher m gs greedy c' (S fuel) min max x) = true) ->
                replays input (fun c' => repeatMatcher m gs greedy c' (S fuel) min max x)
                        c x w).
  { intros Hi Hre. destruct (Hiter w Hi) as [y [Hc [Hle Hre2]]].
    exists y. split; [exact Hc|]. split; [exact Hle|].
    intros c' Hc'. apply Hre. now apply Hre2. }
  destruct max as [[|mx]|].
  - apply Hstop; [exact H|]. intros c' Hc'. rewrite repeatMatcher_S. exact Hc'.
  - destruct (Nat.eqb min 0) eqn:Emin; cbn [negb] in H.
    + destruct greedy.
      * destruct (m (repeatCont m gs true c fuel min (Some (S mx)) x) (clear gs x))
          as [z|] eqn:E.
        -- inversion H; subst z. apply Hgo; [reflexivity|].
           intros c' Hc'. rewrite repeatMatcher_S, Emin. cbn [negb].
           now apply succeeds_orelse_l.
        -- apply Hstop; [exact H|]. intros c' Hc'. rewrite repeatMatcher_S, Emin.
           cbn [negb]. now apply succeeds_orelse_r.
      * destruct (c x) as [z|] eqn:E.
        -- inversion H; subst z. apply Hstop; [reflexivity|]. intros c' Hc'.
           rewrite repeatMatcher_S, Emin. cbn [negb].
           now apply succeeds_orelse_l.
        -- apply Hgo; [exact H|]. intros c' Hc'. rewrite repeatMatcher_S, Emin.
           cbn [negb]. now apply succeeds_orelse_r.
    + apply Hgo; [exact H|]. intros c' Hc'. rewrite repeatMatcher_S, Emin.
      cbn [negb]. exact Hc'.
  - destruct (Nat.eqb min 0) eqn:Emin; cbn [negb] in H.
    + destruct greedy.
      * destruct (m (repeatCont m gs true c fuel min None x) (clear gs x))
          as [z|] eqn:E.
        -- inversion H; subst z. apply Hgo; [reflexivity|].
           intros c' Hc'. rewrite repeatMatcher_S, Emin. cbn [negb].
           now apply succeeds_orelse_l.
        -- apply Hstop; [exact H|]. intros c' Hc'. rewrite repeatMatcher_S, Emin.
           cbn [negb]. now apply succeeds_orelse_r.
      * destruct (c x) as [z|] eqn:E.
        -- inversion H; subst z. apply Hstop; [reflexivity|]. intros c' Hc'.
           rewrite repeatMatcher_S, Emin. cbn [negb].
           now apply succeeds_orelse_l.
        -- apply Hgo; [exact H|]. intros c' Hc'. rewrite repeatMatcher_S, Emin.
           cbn [negb]. now apply succeeds_orelse_r.
    + apply Hgo; [exact H|]. intros c' Hc'. rewrite repeatMatcher_S, Emin.
      cbn [negb]. exact Hc'.
Qed.

Lemma rmatch_replays r :
  forall c x w,
    rmatch ic ml input r c x = Some w ->
    replays input (fun c' => rmatch ic ml input r c' x) c x w.
Proof.
  induction r as [|a|p| | | |r1 IH1 r2 IH2|r1 IH1 r2 IH2|g mn mx body IH|n body IH];
    intros c x w H; cbn [rmatch] in H.
  - exists x. split; [exact H|]. split; [unfold after; lia|].
    intros c' Hc'. exact Hc'.
  - destruct (nth_error input (endIndex x)) as [ch|] eqn:E; [|discriminate].
    destruct (N.eqb _ _) eqn:E2; [|discriminate].
    assert (Hin : endIndex x < List.length input)
      by (apply nth_error_Some; rewrite E; discriminate).
    eexists. split; [exact H|]. split; [unfold after; simpl; lia|].
    intros c' Hc'. cbn [rmatch]. now rewrite E, E2.
  - destruct (nth_error input (endIndex x)) as [ch|] eqn:E; [|discriminate].
    destruct (classHolds _ _ _) eqn:E2; [|discriminate].
    assert (Hin : endIndex x < List.length input)
      by (apply nth_error_Some; rewrite E; discriminate).
    eexists. split; [exact H|]. split; [unfold after; simpl; lia|].
    intros c' Hc'. cbn [rmatch]. now rewrite E, E2.
  - destruct (atLineStart _ _ _) eqn:E; [|discriminate].
    exists x. split; [exact H|]. split; [unfold after; lia|].
    intros c' Hc'. cbn [rmatch]. now rewrite E.
  - destruct (atLineEnd _ _ _) eqn:E; [|discriminate].
    exists x. split; [exact H|]. split; [unfold after; lia|].
    intros c' Hc'. cbn [rmatch]. now rewrite E.
  - destruct (xorb _ _) eqn:E; [|discriminate].
    exists x. split; [exact H|]. split; [unfold after; lia|].
    intros c' Hc'. cbn [rmatch]. now rewrite E.
  - apply IH1 in H. destruct H as [y1 [H [Hle1 Hre1]]].
    apply IH2 in H. destruct H as [y2 [H [Hle2 Hre2]]].
    exists y2. split; [exact H|]. split; [unfold after in *; lia|].
    intros c' Hc'. cbn [rmatch]. apply Hre1. now apply Hre2.
  - destruct (rmatch _ _ _ r1 c x) as [z|] eqn:E.
    + inversion H; subst z. apply IH1 in E. destruct E as [y [Hc [Hle Hre]]].
      exists y. split; [exact Hc|]. split; [exact Hle|].
      intros c' Hc'. cbn [rmatch]. specialize (Hre c' Hc').
      now apply succeeds_orelse_l.
    + apply IH2 in H. destruct H as [y [Hc [Hle Hre]]].
      exists y. split; [exact Hc|]. split; [exact Hle|].
      intros c' Hc'. cbn [rmatch].
      apply succeeds_orelse_r. now apply Hre.
  - apply repeatMatcher_replays in H; [|exact IH].
    destruct H as [y [Hc [Hle Hre]]].
    exists y. split; [exact Hc|]. split; [exact Hle|].
    intros c' Hc'. cbn [rmatch]. now apply Hre.
  - apply IH in H. destruct H as [y [Hc [Hle Hre]]].
    eexists. split; [exact Hc|]. split; [exact Hle|].
    intros c' Hc'. cbn [rmatch]. apply Hre. exact Hc'.
Qed.

(** A repetition that may stop at once succeeds when its continuation
    does. *)
Lemma rmatch_Rep_skip g max r c x :
  succeeds (c x) = true ->
  succeeds (rmatch ic ml input (Rep g 0 max r) c x) = true.
Proof.
  intros Hc. cbn [rmatch]. rewrite repeatMatcher_S.
  destruct max as [[|mx]|]; [exact Hc| |].
  - cbn [Nat.eqb negb]. destruct g.
    + now apply succeeds_orelse_r.
    + now apply succeeds_orelse_l.
  - cbn [Nat.eqb negb]. destruct g.
    + now apply succeeds_orelse_r.
    + now apply succeeds_orelse_l.
Qed.

(** Nothing succeeds with a continuation that always fails. *)
Lemma rmatch_fail r x :
  rmatch ic ml input r (fun _ => None) x = None.
Proof.
  destruct (rmatch ic ml input r (fun _ => None) x) as [w|] eqn:E; [|reflexivity].
  apply rmatch_reaches in E. destruct E as [y [Hy _]]. discriminate.
Qed.

End Replay.

(** ** One line seen in two texts *)

Lemma lineTerminator_cases ch :
  isLineTerminator ch = true ->
  ch = 10%N \/ ch = 13%N \/ ch = 8232%N \/ ch = 8233%N.
Proof.
  unfold isLineTerminator. intros H.
  destruct (N.eqb_spec ch 10); [auto|]. destruct (N.eqb_spec ch 13); [auto|].
  destruct (N.eqb_spec ch 8232); [auto|]. destruct (N.eqb_spec ch 8233); [auto|].
  discriminate.
Qed.

Lemma lineTerminator_not_word ch :
  isLineTerminator ch = true -> isWordChar ch = false.
Proof.
  intros H. destruct (lineTerminator_cases ch H) as [->|[->|[->| ->]]]; reflexivity.
Qed.

(** A pattern character that is not a line terminator does not match one,
    with or without the [i] flag. *)
Lemma canonicalize_lineTerminator ic ch a :
  isLineTerminator ch = true -> isLineTerminator a = false ->
  N.eqb (canonicalize ic ch) (canonicalize ic a) = false.
Proof.
  intros Hch Ha. apply N.eqb_neq. intros Heq.
  assert (Hne : ch <> a) by (intro; subst; congruence).
  unfold canonicalize, toUpper in Heq.
  destruct (lineTerminator_cases ch Hch) as [->|[->|[->| ->]]];
    destruct ic; simpl in Heq; try congruence;
    destruct (N.leb 97 a && N.leb a 122) eqn:E; try congruence;
    apply andb_prop in E; destruct E as [E1 E2];
    apply N.leb_le in E1, E2; lia.
Qed.

Section Window.

Variables (ic : bool) (s s' : jsstring) (a a' n : nat).

Hypothesis window :
  forall j, j < n ->
    exists ch, nth_error s (a + j) = Some ch /\ nth_error s' (a' + j) = Some ch.
Hypothesis window_end : lineEndAt s (a + n).
Hypothesis window_end' : lineEndAt s' (a' + n).
Hypothesis window_word : wordBefore s a = wordBefore s' a'.
Hypothesis window_len' : a' + n <= List.length s'.

Lemma related_char x x' :
  related a a' n x x' ->
  (exists ch, nth_error s (endIndex x) = Some ch
              /\ nth_error s' (endIndex x') = Some ch
              /\ S (endIndex x - a) <= n)
  \/ (lineEndAt s (endIndex x) /\ lineEndAt s' (endIndex x')).
Proof.
  intros [j [Hj [Hx Hx']]]. rewrite Hx, Hx'.
  destruct (Nat.eq_dec j n) as [->|Hne]; [right; now split|].
  left. destruct (window j) as [ch [H1 H2]]; [lia|].
  exists ch. split; [exact H1|]. split; [exact H2|lia].
Qed.

Lemma related_next x x' caps caps' :
  related a a' n x x' -> S (endIndex x - a) <= n ->
  related a a' n (mkState (S (endIndex x)) caps) (mkState (S (endIndex x')) caps').
Proof.
  intros [j [Hj [Hx Hx']]] Hn. exists (S j). simpl. lia.
Qed.

Lemma related_atLineEnd x x' :
  related a a' n x x' ->
  atLineEnd true s (endIndex x) = atLineEnd true s' (endIndex x').
Proof.
  intros Hr. unfold atLineEnd, charIs.
  destruct (related_char x x' Hr) as [[ch [H1 [H2 _]]]|[H1 H2]].
  - rewrite H1, H2.
    assert (E1 : (List.length s <=? endIndex x) = false).
    { apply Nat.leb_gt. apply nth_error_Some. congruence. }
    assert (E2 : (List.length s' <=? endIndex x') = false).
    { apply Nat.leb_gt. apply nth_error_Some. congruence. }
    now rewrite E1, E2.
  - unfold lineEndAt in H1, H2.
    assert (G : forall t e, match nth_error t e with
                            | Some ch => isLineTerminator ch = true
                            | None => True
                            end ->
                            (List.length t <=? e)
                            || (true && match nth_error t e with
                                        | Some c => isLineTerminator c
                                        | None => false
                                        end) = true).
    { intros t e H. destruct (nth_error t e) eqn:E.
      - rewrite H. simpl. apply orb_true_r.
      - apply nth_error_None in E. apply Nat.leb_le in E. now rewrite E. }
    now rewrite (G _ _ H1), (G _ _ H2).
Qed.

Lemma related_wordAt x x' :
  related a a' n x x' -> wordAt s (endIndex x) = wordAt s' (endIndex x').
Proof.
  intros Hr. unfold wordAt, charIs.
  destruct (related_char x x' Hr) as [[ch [H1 [H2 _]]]|[H1 H2]].
  - now rewrite H1, H2.
  - unfold lineEndAt in H1, H2.
    destruct (nth_error s (endIndex x)) as [c1|];
      destruct (nth_error s' (endIndex x')) as [c2|];
      rewrite ?(lineTerminator_not_word _ H1), ?(lineTerminator_not_word _ H2);
      reflexivity.
Qed.

Lemma related_wordBefore x x' :
  related a a' n x x' -> wordBefore s (endIndex x) = wordBefore s' (endIndex x').
Proof.
  intros [j [Hj [Hx Hx']]]. rewrite Hx, Hx'.
  destruct j as [|j].
  - rewrite !Nat.add_0_r. exact window_word.
  - rewrite <- !plus_n_Sm. simpl. unfold charIs.
    destruct (window j) as [ch [H1 H2]]; [lia|]. now rewrite H1, H2.
Qed.

Lemma below_later c c' x y :
  below a a' n c c' x -> endIndex x <= endIndex y -> below a a' n c c' y.
Proof. intros H Hle z z' Hr Hz. apply H; [exact Hr|lia]. Qed.

Lemma simulation_repeat (m m' : cont -> state -> option state) gs gs' greedy :
  (forall c c' x x', related a a' n x x' -> below a a' n c c' x ->
                     succeeds (m c x) = true -> succeeds (m' c' x') = true) ->
  forall fuel fuel' c c' min max x x',
    related a a' n x x' -> below a a' n c c' x ->
    min + (List.length s' - endIndex x') < fuel' ->
    succeeds (repeatMatcher m gs greedy c fuel min max x) = true ->
    succeeds (repeatMatcher m' gs' greedy c' fuel' min max x') = true.
Proof.
  intros Hm. induction fuel as [|fuel IH];
    intros fuel' c c' min max x x' Hr Hb Hf H; [discriminate|].
  destruct fuel' as [|fuel']; [lia|].
  rewrite repeatMatcher_S in *.
  assert (Hstop : succeeds (c x) = true -> succeeds (c' x') = true).
  { intros Hc. apply (Hb x x' Hr); [lia|exact Hc]. }
  assert (Hiter :
            succeeds (m (repeatCont m gs greedy c fuel min max x) (clear gs x)) = true ->
            succeeds (m' (repeatCont m' gs' greedy c' fuel' min max x') (clear gs' x'))
            = true).
  { apply Hm.
    - destruct Hr as [j Hj]. exists j. exact Hj.
    - intros y y' Hry Hle Hd. simpl in Hle. unfold repeatCont in Hd |- *.
      clear H Hstop.
      destruct Hr as [j [Hj [Hx Hx']]]. destruct Hry as [k [Hk [Hy Hy']]].
      destruct (Nat.eqb min 0) eqn:Emin; cbn [andb] in Hd |- *.
      + destruct (Nat.eqb (endIndex y) (endIndex x)) eqn:Ey; [discriminate Hd|].
        apply Nat.eqb_neq in Ey. apply Nat.eqb_eq in Emin. subst min.
        assert (Ey' : Nat.eqb (endIndex y') (endIndex x') = false)
          by (apply Nat.eqb_neq; lia).
        rewrite Ey'. revert Hd. apply IH.
        * exists k. auto.
        * eapply below_later; [exact Hb|exact Hle].
        * simpl. lia.
      + apply Nat.eqb_neq in Emin. revert Hd. apply IH.
        * exists k. auto.
        * eapply below_later; [exact Hb|exact Hle].
        * lia. }
  destruct max as [[|mx]|].
  - now apply Hstop.
  - destruct (negb (Nat.eqb min 0)); [now apply Hiter|]. destruct greedy.
    + destruct (m (repeatCont m gs true c fuel min (Some (S mx)) x) (clear gs x)) eqn:E.
      * apply succeeds_orelse_l. now apply Hiter.
      * apply succeeds_orelse_r. now apply Hstop.
    + destruct (c x) eqn:E.
      * apply succeeds_orelse_l. now apply Hstop.
      * apply succeeds_orelse_r. now apply Hiter.
  - destruct (negb (Nat.eqb min 0)); [now apply Hiter|]. destruct greedy.
    + destruct (m (repeatCont m gs true c fuel min None x) (clear gs x)) eqn:E.
      * apply succeeds_orelse_l. now apply Hiter.
      * apply succeeds_orelse_r. now apply Hstop.
    + destruct (c x) eqn:E.
      * apply succeeds_orelse_l. now apply Hstop.
      * apply succeeds_orelse_r. now apply Hiter.
Qed.

(** The matcher succeeds on the second text when it does on the first. *)
Lemma simulation r r' :
  shape ic r r' ->
  forall c c' x x',
    related a a' n x x' -> below a a' n c c' x ->
    succeeds (rmatch ic true s r c x) = true ->
    succeeds (rmatch ic true s' r' c' x') = true.
Proof.
  induction 1 as [|p Hp|p Hp| | |r1 r1' r2 r2' _ IH1 _ IH2|r1 r1' r2 r2' _ IH1 _ IH2
                  |g mn mx r r' _ IH|k r r' _ IH|k r r' _ IH];
    intros c c' x x' Hr Hb H; cbn [rmatch] in *.
  - apply (Hb x x' Hr); [lia|exact H].
  - destruct (related_char x x' Hr) as [[ch [H1 [H2 Hn]]]|[H1 _]].
    + rewrite H1 in H. rewrite H2.
      destruct (N.eqb (canonicalize ic ch) (canonicalize ic p)); [|discriminate].
      revert H. apply Hb; [now apply related_next|simpl; lia].
    + unfold lineEndAt in H1.
      destruct (nth_error s (endIndex x)) as [ch|]; [|discriminate].
      rewrite (canonicalize_lineTerminator ic ch p H1 Hp) in H. discriminate.
  - destruct (related_char x x' Hr) as [[ch [H1 [H2 Hn]]]|[H1 _]].
    + rewrite H1 in H. rewrite H2.
      destruct (classHolds ic p ch); [|discriminate].
      revert H. apply Hb; [now apply related_next|simpl; lia].
    + unfold lineEndAt in H1.
      destruct (nth_error s (endIndex x)) as [ch|]; [|discriminate].
      rewrite (Hp ch H1) in H. discriminate.
  - rewrite <- (related_atLineEnd x x' Hr).
    destruct (atLineEnd true s (endIndex x)); [|discriminate].
    apply (Hb x x' Hr); [lia|exact H].
  - rewrite <- (related_wordBefore x x' Hr), <- (related_wordAt x x' Hr).
    destruct (xorb _ _); [|discriminate].
    apply (Hb x x' Hr); [lia|exact H].
  - revert H. apply IH1; [exact Hr|].
    intros y y' Hry Hle. apply IH2; [exact Hry|].
    eapply below_later; [exact Hb|exact Hle].
  - destruct (rmatch ic true s r1 c x) eqn:E.
    + apply succeeds_orelse_l. apply (IH1 c c' x x' Hr Hb). now rewrite E.
    + apply succeeds_orelse_r. now apply (IH2 c c' x x' Hr Hb).
  - revert H. apply simulation_repeat; [exact IH|exact Hr|exact Hb|].
    destruct Hr as [j [Hj [Hx Hx']]]. lia.
  - revert H. apply IH; [exact Hr|].
    intros y y' Hry Hle. apply Hb; [|simpl; exact Hle].
    destruct Hry as [j Hj]. exists j. exact Hj.
  - revert H. apply IH; [exact Hr|].
    intros y y' Hry Hle. apply Hb; [|exact Hle].
    destruct Hry as [j Hj]. exists j. exact Hj.
Qed.

End Window.

(** ** Texts as lines *)

Lemma lines_of s : exists l0 rest, s = join l0 rest /\ areLines l0 rest.
Proof.
  induction s as [|c s IH].
  - exists [], []. split; [reflexivity|]. split; constructor.
  - destruct IH as [l0 [rest [Hs [Hl0 Hrest]]]].
    destruct (isLineTerminator c) eqn:E.
    + exists [], ((c, l0) :: rest). split; [simpl; now rewrite Hs|].
      split; [constructor|]. constructor; [now split|exact Hrest].
    + exists (c :: l0), rest. split.
      * destruct rest as [|[t l] rest]; simpl in *; now rewrite Hs.
      * split; [now constructor|exact Hrest].
Qed.

Lemma join_app l0 rest :
  join l0 rest = l0 ++ match rest with
                       | [] => []
                       | (t, l) :: rest' => t :: join l rest'
                       end.
Proof. destruct rest as [|[t l] rest]; simpl; [now rewrite app_nil_r|reflexivity]. Qed.

Lemma isLine_nth l j ch :
  isLine l -> nth_error l j = Some ch -> isLineTerminator ch = false.
Proof.
  intros Hl Hn. apply nth_error_In in Hn.
  unfold isLine in Hl. rewrite Forall_forall in Hl. now apply Hl.
Qed.

(** ** Searching line by line *)

Lemma substring_split s p q r :
  p <= q -> q <= r -> substring p r s = substring p q s ++ substring q r s.
Proof.
  intros Hpq Hqr. unfold substring.
  replace (skipn q s) with (skipn (q - p) (skipn p s))
    by (rewrite skipn_skipn; f_equal; lia).
  replace (r - p) with ((q - p) + (r - q)) by lia.
  generalize (skipn p s). intros u. generalize (q - p). intros k.
  revert u. induction k as [|k IH]; intros u; simpl; [reflexivity|].
  destruct u as [|c u]; simpl.
  - now rewrite firstn_nil.
  - now rewrite IH.
Qed.

Lemma skipn_substring s p q :
  p <= q -> skipn p s = substring p q s ++ skipn q s.
Proof.
  intros Hpq. unfold substring.
  replace (skipn q s) with (skipn (q - p) (skipn p s))
    by (rewrite skipn_skipn; f_equal; lia).
  now rewrite firstn_skipn.
Qed.

Lemma splice_skip s f p q ms :
  p <= q ->
  match ms with
  | [] => True
  | m :: _ => q <= index m
  end ->
  splice s f p ms = substring p q s ++ splice s f q ms.
Proof.
  intros Hpq Hms. destruct ms as [|m ms]; simpl.
  - now apply skipn_substring.
  - rewrite (substring_split s p q (index m) Hpq Hms). now rewrite <- app_assoc.
Qed.

Lemma exec_skip re s li :
  matchAt (flagI re) (flagM re) s (pattern re) li = None ->
  exec re s li = exec re s (S li).
Proof.
  intros Hm. unfold exec.
  destruct (Nat.le_gt_cases li (List.length s)) as [Hle|Hgt].
  - replace (S (List.length s) - li) with (S (S (List.length s) - S li)) by lia.
    simpl seq. cbn [firstMatch]. now rewrite Hm.
  - replace (S (List.length s) - li) with 0 by lia.
    replace (S (List.length s) - S li) with 0 by lia. reflexivity.
Qed.

Lemma exec_skip_many re s :
  forall k li,
    (forall p, li <= p < li + k ->
               matchAt (flagI re) (flagM re) s (pattern re) p = None) ->
    exec re s li = exec re s (li + k).
Proof.
  induction k as [|k IH]; intros li H.
  - now rewrite Nat.add_0_r.
  - rewrite exec_skip by (apply H; lia).
    rewrite <- Nat.add_succ_comm. apply IH. intros p Hp. apply H. lia.
Qed.

Lemma exec_here re s li y :
  li <= List.length s ->
  matchAt (flagI re) (flagM re) s (pattern re) li = Some y ->
  exec re s li = Some (mkResult li y).
Proof.
  intros Hle Hm. unfold exec.
  replace (S (List.length s) - li) with (S (List.length s - li)) by lia.
  simpl. now rewrite Hm.
Qed.

Lemma exec_past_end re s li :
  List.length s < li -> exec re s li = None.
Proof.
  intros H. unfold exec. now replace (S (List.length s) - li) with 0 by lia.
Qed.

Lemma execAll_same re s fuel li li' :
  exec re s li = exec re s li' ->
  execAll fuel re s li = execAll fuel re s li'.
Proof. intros H. destruct fuel; simpl; [reflexivity|now rewrite H]. Qed.

Lemma execAll_first re s fuel li :
  match execAll fuel re s li with
  | [] => True
  | m :: _ => li <= index m
  end.
Proof.
  destruct fuel; simpl; [exact I|].
  destruct (exec re s li) as [m|] eqn:E; [|exact I].
  apply exec_some in E. lia.
Qed.

(** The pattern cannot start where the line does not. *)
Lemma matchAt_not_lineStart ic s r i :
  atLineStart true s i = false -> matchAt ic true s (Seq Bol r) i = None.
Proof. intros H. unfold matchAt. cbn [rmatch endIndex]. now rewrite H. Qed.

Section LineByLine.

Variable re : regexp.
Variable body : regex.
Variable template : list piece.
Variable change : jsstring -> jsstring.

Hypothesis re_pattern : pattern re = Seq Bol body.
Hypothesis re_multiline : flagM re = true.
Hypothesis re_global : flagG re = true.

(** A match at the start of a line is the whole line, which is not empty,
    and its replacement is [change] of the line. *)
Hypothesis match_line :
  forall pre l tail y,
    isLine l ->
    lineEndAt (pre ++ l ++ tail) (List.length pre + List.length l) ->
    matchAt (flagI re) true (pre ++ l ++ tail) (Seq Bol body) (List.length pre)
    = Some y ->
    endIndex y = List.length pre + List.length l
    /\ 0 < List.length l
    /\ expand (pre ++ l ++ tail) (mkResult (List.length pre) y) template
       = change l.

(** Whether a line matches does not depend on the other lines. *)
Hypothesis match_alone :
  forall pre l tail,
    isLine l ->
    lineEndAt (pre ++ l ++ tail) (List.length pre + List.length l) ->
    atLineStart true (pre ++ l ++ tail) (List.length pre) = true ->
    succeeds (matchAt (flagI re) true (pre ++ l ++ tail) (Seq Bol body)
                      (List.length pre))
    = succeeds (matchAt (flagI re) true l (Seq Bol body) 0).

Lemma inside_line_fails pre l tail p :
  isLine l ->
  List.length pre < p <= List.length pre + List.length l ->
  matchAt (flagI re) (flagM re) (pre ++ l ++ tail) (pattern re) p = None.
Proof.
  intros Hl Hp. rewrite re_pattern, re_multiline.
  apply matchAt_not_lineStart.
  destruct p as [|p]; [lia|]. cbn [atLineStart andb]. unfold charIs.
  rewrite nth_error_app2 by lia. rewrite nth_error_app1 by lia.
  destruct (nth_error l (p - List.length pre)) as [ch|] eqn:E; [|reflexivity].
  apply (isLine_nth l _ ch Hl E).
Qed.

Lemma scan_lines :
  forall rest l0 pre fuel,
    areLines l0 rest ->
    atLineStart true (pre ++ join l0 rest) (List.length pre) = true ->
    S (List.length (pre ++ join l0 rest)) - List.length pre < fuel ->
    splice (pre ++ join l0 rest)
           (fun m => expand (pre ++ join l0 rest) m template)
           (List.length pre)
           (execAll fuel re (pre ++ join l0 rest) (List.length pre))
    = join (perLine (flagI re) body change l0)
           (onLines (perLine (flagI re) body change) rest).
Proof.
  induction rest as [|[t l] rest IH]; intros l0 pre fuel [Hl0 Hrest] Hstart Hfuel.
  - (* the last line *)
    cbn [join onLines map].
    assert (Hs : pre ++ l0 = pre ++ l0 ++ []) by now rewrite app_nil_r.
    assert (Hend : lineEndAt (pre ++ l0 ++ []) (List.length pre + List.length l0)).
    { unfold lineEndAt. rewrite app_nil_r.
      replace (nth_error (pre ++ l0) (List.length pre + List.length l0)) with (@None N);
        [exact I|].
      symmetry. apply nth_error_None. rewrite length_app. lia. }
    pose proof (match_alone pre l0 [] Hl0 Hend) as Halone.
    rewrite <- Hs in Halone. cbn [join] in Hstart. specialize (Halone Hstart).
    unfold perLine. rewrite <- Halone.
    destruct fuel as [|fuel]; [lia|].
    destruct (matchAt (flagI re) true (pre ++ l0) (Seq Bol body) (List.length pre))
      as [y|] eqn:E.
    + pose proof (match_line pre l0 [] y Hl0 Hend) as Hline.
      rewrite <- Hs in Hline. destruct (Hline E) as [Hy [Hpos Hexp]].
      cbn [succeeds execAll].
      rewrite (exec_here re (pre ++ l0) (List.length pre) y);
        [|rewrite length_app; lia|now rewrite re_pattern, re_multiline].
      cbn [splice]. unfold lastOf. cbn [final index]. rewrite Hy.
      replace (Nat.eqb (List.length pre + List.length l0) (List.length pre))
        with false by (symmetry; apply Nat.eqb_neq; lia).
      rewrite Hexp.
      assert (Hnone : exec re (pre ++ l0) (List.length pre + List.length l0) = None).
      { rewrite exec_skip.
        - apply exec_past_end. rewrite length_app. lia.
        - rewrite Hs. apply inside_line_fails; [exact Hl0|lia]. }
      rewrite (execAll_same re (pre ++ l0) fuel _ (S (List.length (pre ++ l0)))).
      * assert (Hnil : execAll fuel re (pre ++ l0) (S (List.length (pre ++ l0))) = []).
        { destruct fuel; [reflexivity|]. cbn [execAll].
          now rewrite exec_past_end by lia. }
        rewrite Hnil. cbn [splice]. unfold substring. rewrite Nat.sub_diag.
        replace (skipn (List.length pre + List.length l0) (pre ++ l0)) with (@nil N)
          by (symmetry; apply skipn_all2; rewrite length_app; lia).
        simpl. now rewrite app_nil_r.
      * rewrite Hnone. symmetry. apply exec_past_end. lia.
    + cbn [succeeds execAll].
      assert (Hnone : exec re (pre ++ l0) (List.length pre) = None).
      { rewrite (exec_skip_many re (pre ++ l0) (S (List.length l0))).
        - apply exec_past_end. rewrite length_app. lia.
        - intros p Hp. destruct (Nat.eq_dec p (List.length pre)) as [->|Hne].
          + now rewrite re_pattern, re_multiline.
          + rewrite Hs. apply inside_line_fails; [exact Hl0|lia]. }
      rewrite Hnone. cbn [splice]. now rewrite skipn_app, skipn_all, Nat.sub_diag.
  - (* a line and its terminator *)
    inversion Hrest as [|? ? [Ht Hl] Hrest']; subst. cbn [fst snd] in Ht, Hl.
    cbn [join onLines map fst snd]. fold (onLines (perLine (flagI re) body change) rest).
    cbn [join] in Hstart, Hfuel.
    set (s := pre ++ l0 ++ t :: join l rest) in *.
    assert (Hlen : List.length s = List.length pre + List.length l0
                                   + S (List.length (join l rest))).
    { unfold s. rewrite !length_app. simpl. lia. }
    assert (Ht_at : nth_error s (List.length pre + List.length l0) = Some t).
    { unfold s. rewrite nth_error_app2 by lia. rewrite nth_error_app2 by lia.
      replace (List.length pre + List.length l0 - List.length pre - List.length l0)
        with 0 by lia. reflexivity. }
    assert (Hend : lineEndAt s (List.length pre + List.length l0)).
    { unfold lineEndAt. now rewrite Ht_at. }
    pose proof (match_alone pre l0 (t :: join l rest) Hl0 Hend Hstart) as Halone.
    fold s in Halone.
    (* the rest of the text, from the line after this one *)
    assert (Hs' : s = (pre ++ l0 ++ [t]) ++ join l rest).
    { unfold s. now rewrite <- !app_assoc. }
    assert (Hpre' : List.length (pre ++ l0 ++ [t])
                    = S (List.length pre + List.length l0)).
    { rewrite !length_app. simpl. lia. }
    assert (Hnext : forall fuel',
               S (List.length s) - S (List.length pre + List.length l0) < fuel' ->
               splice s (fun m => expand s m template)
                      (S (List.length pre + List.length l0))
                      (execAll fuel' re s (S (List.length pre + List.length l0)))
               = join (perLine (flagI re) body change l)
                      (onLines (perLine (flagI re) body change) rest)).
    { intros fuel' Hfuel'.
      pose proof (IH l (pre ++ l0 ++ [t]) fuel') as IH'.
      rewrite <- Hs', Hpre' in IH'. apply IH'.
      - now split.
      - cbn [atLineStart andb]. unfold charIs. now rewrite Ht_at.
      - exact Hfuel'. }
    assert (Hstep : forall fuel' li,
               List.length pre <= li <= List.length pre + List.length l0 ->
               S (List.length s) - S (List.length pre + List.length l0) < fuel' ->
               exec re s li = exec re s (S (List.length pre + List.length l0)) ->
               splice s (fun m => expand s m template) li (execAll fuel' re s li)
               = substring li (List.length pre + List.length l0) s
                 ++ t :: join (perLine (flagI re) body change l)
                              (onLines (perLine (flagI re) body change) rest)).
    { intros fuel' li Hli Hfuel' Hexec.
      rewrite (execAll_same re s fuel' li _ Hexec).
      rewrite (splice_skip s _ li (S (List.length pre + List.length l0)));
        [|lia|apply execAll_first].
      rewrite (Hnext fuel' Hfuel').
      rewrite (substring_split s li (List.length pre + List.length l0)) by lia.
      rewrite <- app_assoc. f_equal.
      unfold substring.
      replace (S (List.length pre + List.length l0)
               - (List.length pre + List.length l0)) with 1 by lia.
      apply nth_error_split in Ht_at. destruct Ht_at as [u [v [Huv Hu]]].
      rewrite Huv, <- Hu. rewrite skipn_app, skipn_all, Nat.sub_diag. reflexivity. }
    assert (Hline0 : substring (List.length pre) (List.length pre + List.length l0) s
                     = l0).
    { unfold substring, s. rewrite skipn_app, skipn_all, Nat.sub_diag. simpl.
      replace (List.length pre + List.length l0 - List.length pre)
        with (List.length l0) by lia.
      rewrite firstn_app, firstn_all, Nat.sub_diag. simpl. now rewrite app_nil_r. }
    unfold perLine at 1. rewrite <- Halone.
    destruct (matchAt (flagI re) true s (Seq Bol body) (List.length pre))
      as [y|] eqn:E.
    + destruct (match_line pre l0 (t :: join l rest) y Hl0 Hend E)
        as [Hy [Hpos Hexp]].
      destruct fuel as [|fuel]; [lia|].
      cbn [succeeds execAll].
      rewrite (exec_here re s (List.length pre) y);
        [|lia|now rewrite re_pattern, re_multiline].
      cbn [splice]. unfold lastOf. cbn [final index]. rewrite Hy.
      replace (Nat.eqb (List.length pre + List.length l0) (List.length pre))
        with false by (symmetry; apply Nat.eqb_neq; lia).
      fold s in Hexp. rewrite Hexp.
      rewrite (Hstep fuel (List.length pre + List.length l0)); [|lia|lia|].
      * unfold substring at 1 2. rewrite !Nat.sub_diag. reflexivity.
      * apply exec_skip. apply inside_line_fails; [exact Hl0|lia].
    + cbn [succeeds].
      rewrite (Hstep fuel (List.length pre)); [|lia|lia|].
      * now rewrite Hline0.
      * replace (S (List.length pre + List.length l0))
          with (List.length pre + S (List.length l0)) by lia.
        apply exec_skip_many. intros p Hp.
        destruct (Nat.eq_dec p (List.length pre)) as [->|Hne].
        -- now rewrite re_pattern, re_multiline.
        -- apply inside_line_fails; [exact Hl0|lia].
Qed.

(** A global replacement by a pattern anchored to the lines changes the
    text line by line. *)
Theorem replace_lines l0 rest :
  areLines l0 rest ->
  replace re template (join l0 rest)
  = join (perLine (flagI re) body change l0)
         (onLines (perLine (flagI re) body change) rest).
Proof.
  intros Hl. unfold replace, matches. rewrite re_global.
  apply (scan_lines rest l0 [] (S (S (List.length (join l0 rest)))) Hl).
  - reflexivity.
  - simpl. lia.
Qed.

End LineByLine.

(** ** One line, in its text and alone *)

Lemma bool_same (b1 b2 : bool) :
  (b1 = true -> b2 = true) -> (b2 = true -> b1 = true) -> b1 = b2.
Proof.
  destruct b1, b2; intros H1 H2; try reflexivity;
    [discriminate (H1 eq_refl)|discriminate (H2 eq_refl)].
Qed.

Lemma lineStart_wordBefore (s : jsstring) i :
  atLineStart true s i = true -> wordBefore s i = false.
Proof.
  destruct i as [|i]; [reflexivity|]. cbn [atLineStart wordBefore andb].
  unfold charIs. destruct (nth_error s i) as [ch|]; [|reflexivity].
  apply lineTerminator_not_word.
Qed.

Lemma line_in_text (pre l tail : jsstring) j :
  j < List.length l ->
  exists ch, nth_error (pre ++ l ++ tail) (List.length pre + j) = Some ch
             /\ nth_error l (0 + j) = Some ch.
Proof.
  intros Hj. destruct (nth_error l j) as [ch|] eqn:E.
  - exists ch. split; [|exact E].
    rewrite nth_error_app2 by lia.
    replace (List.length pre + j - List.length pre) with j by lia.
    now rewrite nth_error_app1 by lia.
  - apply nth_error_None in E. lia.
Qed.

Lemma line_alone_end (l : jsstring) : lineEndAt l (0 + List.length l).
Proof.
  unfold lineEndAt. simpl.
  replace (nth_error l (List.length l)) with (@None N); [exact I|].
  symmetry. now apply nth_error_None.
Qed.

Lemma substring_line (pre l tail : jsstring) k :
  k <= List.length l ->
  substring (List.length pre + k) (List.length pre + List.length l)
            (pre ++ l ++ tail)
  = skipn k l.
Proof.
  intros Hk. unfold substring.
  rewrite skipn_app.
  rewrite skipn_all2 by lia.
  replace (List.length pre + k - List.length pre) with k by lia.
  rewrite skipn_app. simpl.
  replace (List.length pre + List.length l - (List.length pre + k))
    with (List.length l - k) by lia.
  rewrite firstn_app, length_skipn.
  replace (List.length l - k - (List.length l - k)) with 0 by lia.
  rewrite firstn_all2 by (rewrite length_skipn; lia).
  simpl. now rewrite app_nil_r.
Qed.

Section LineAlone.

Variables (ic : bool) (body : regex).
Hypothesis body_shape : shape ic body body.

Variables (pre l tail : jsstring).
Hypothesis l_line : isLine l.
Hypothesis l_end :
  lineEndAt (pre ++ l ++ tail) (List.length pre + List.length l).

Let s := pre ++ l ++ tail.
Let i := List.length pre.

Lemma text_len : i + List.length l <= List.length s.
Proof. unfold s, i. rewrite !length_app. lia. Qed.

(** From the text to the line alone. *)
Lemma to_line c c' x x' :
  wordBefore s i = false ->
  related i 0 (List.length l) x x' ->
  below i 0 (List.length l) c c' x ->
  succeeds (rmatch ic true s body c x) = true ->
  succeeds (rmatch ic true l body c' x') = true.
Proof.
  intros Hw. apply (simulation ic s l i 0 (List.length l)).
  - apply line_in_text.
  - exact l_end.
  - apply line_alone_end.
  - now rewrite Hw.
  - simpl. lia.
  - exact body_shape.
Qed.

(** And back. *)
Lemma from_line c c' x x' :
  wordBefore s i = false ->
  related 0 i (List.length l) x x' ->
  below 0 i (List.length l) c c' x ->
  succeeds (rmatch ic true l body c x) = true ->
  succeeds (rmatch ic true s body c' x') = true.
Proof.
  intros Hw. apply (simulation ic l s 0 i (List.length l)).
  - intros j Hj. destruct (line_in_text pre l tail j Hj) as [ch [H1 H2]].
    exists ch. now split.
  - apply line_alone_end.
  - exact l_end.
  - now rewrite Hw.
  - apply text_len.
  - exact body_shape.
Qed.

Lemma match_alone_shape :
  atLineStart true s i = true ->
  succeeds (matchAt ic true s (Seq Bol body) i)
  = succeeds (matchAt ic true l (Seq Bol body) 0).
Proof.
  intros Hstart. pose proof (lineStart_wordBefore s i Hstart) as Hw.
  unfold matchAt. cbn [rmatch endIndex]. rewrite Hstart. cbn [atLineStart].
  apply bool_same.
  - apply to_line; [exact Hw| |].
    + exists 0. simpl. lia.
    + intros y y' _ _ _. reflexivity.
  - apply from_line; [exact Hw| |].
    + exists 0. simpl. lia.
    + intros y y' _ _ _. reflexivity.
Qed.

(** A match that ends at an end of line ends at the end of this line. *)
Lemma match_line_end y :
  atLineEnd true s (endIndex y) = true ->
  matchAt ic true s (Seq Bol body) i = Some y ->
  endIndex y = i + List.length l.
Proof.
  intros Hend Hm. unfold matchAt in Hm. cbn [rmatch endIndex] in Hm.
  destruct (atLineStart true s i) eqn:Hstart; [|discriminate].
  pose proof (lineStart_wordBefore s i Hstart) as Hw.
  pose proof (rmatch_replays ic true s body _ _ _ Hm) as [y0 [Hy0 [[Hle _] Hre]]].
  inversion Hy0; subst y0. simpl in Hle.
  destruct (Nat.lt_trichotomy (endIndex y) (i + List.length l)) as [Hlt|[Heq|Hgt]];
    [exfalso|exact Heq|exfalso].
  - destruct (line_in_text pre l tail (endIndex y - i)) as [ch [H1 H2]]; [lia|].
    replace (List.length pre + (endIndex y - i)) with (endIndex y) in H1
      by (unfold i; lia).
    unfold atLineEnd, charIs in Hend. fold s in H1. rewrite H1 in Hend.
    rewrite (isLine_nth l _ ch l_line H2) in Hend.
    assert (E : (List.length s <=? endIndex y) = false).
    { apply Nat.leb_gt. apply nth_error_Some. congruence. }
    rewrite E in Hend. discriminate.
  - specialize (Hre (fun z => if i + List.length l <? endIndex z
                              then Some z else None)).
    cbv beta in Hre.
    assert (Hy : (i + List.length l <? endIndex y) = true) by now apply Nat.ltb_lt.
    rewrite Hy in Hre. specialize (Hre eq_refl).
    assert (Hno : succeeds (rmatch ic true l body (fun _ => None) (mkState 0 []))
                  = true).
    { revert Hre. apply to_line; [exact Hw| |].
      - exists 0. simpl. lia.
      - intros z z' [j [Hj [Hz _]]] _ Hz2.
        assert (E : (i + List.length l <? endIndex z) = false)
          by (apply Nat.ltb_ge; lia).
        rewrite E in Hz2. discriminate. }
    rewrite rmatch_fail in Hno. discriminate.
Qed.

End LineAlone.

Lemma rmatch_Seq_Eol_end ic s r x w :
  rmatch ic true s (Seq r Eol) (fun y => Some y) x = Some w ->
  atLineEnd true s (endIndex w) = true.
Proof.
  intros H. apply rmatch_Seq_inv in H. destruct H as [y [H _]].
  cbn [rmatch] in H. destruct (atLineEnd true s (endIndex y)) eqn:E; [|discriminate].
  inversion H; subst. exact E.
Qed.

(** The side conditions of [shape] for the classes of this file. *)
Lemma blank_no_lineTerminator ic ch :
  isLineTerminator ch = true -> classHolds ic blank ch = false.
Proof.
  intros H. destruct (lineTerminator_cases ch H) as [->|[->|[->| ->]]];
    destruct ic; reflexivity.
Qed.

Lemma dot_no_lineTerminator ic ch :
  isLineTerminator ch = true -> classHolds ic dot ch = false.
Proof.
  intros H. destruct (lineTerminator_cases ch H) as [->|[->|[->| ->]]];
    destruct ic; reflexivity.
Qed.

Ltac shape_tac :=
  repeat first
    [ apply ShGrpL; apply ShGrpR
    | apply ShSeq | apply ShAlt | apply ShRep | apply ShEol | apply ShWb
    | apply ShEps
    | apply ShChr; reflexivity
    | apply ShCls; first [apply blank_no_lineTerminator|apply dot_no_lineTerminator]
    | apply ShGrpL | apply ShGrpR ].

Ltac shape_of :=
  unfold keyword, word, Star, Opt;
  cbn [seqs map lit list_ascii_of_string N_of_ascii N_of_digits];
  shape_tac.

Lemma maskBody_shape : shape true maskBody maskBody.
Proof. unfold maskBody. shape_of. Qed.

Lemma unmaskBody_shape : shape true unmaskBody unmaskBody.
Proof. unfold unmaskBody. shape_of. Qed.

Lemma reImportLine_pattern : pattern reImportLine = Seq Bol maskBody.
Proof. reflexivity. Qed.

Lemma reMaskedImportLine_pattern : pattern reMaskedImportLine = Seq Bol unmaskBody.
Proof. reflexivity. Qed.

(** ** The two patterns of the sanitizer, line by line *)

Lemma rmatch_Grp_Eol_inv ic s n r x w :
  rmatch ic true s (Seq (Grp n r) Eol) (fun y => Some y) x = Some w ->
  getCapture n w = Some (endIndex x, endIndex w)
  /\ endIndex x <= endIndex w
  /\ atLineEnd true s (endIndex w) = true.
Proof.
  intros H.
  change (rmatch ic true s (Grp n r)
            (fun y => rmatch ic true s Eol (fun y => Some y) y) x = Some w) in H.
  apply rmatch_Grp_inv in H. destruct H as [y [H Hle]].
  cbn [rmatch] in H.
  destruct (atLineEnd true s (endIndex (setCapture n (endIndex x) (endIndex y) y)))
    eqn:E; [|discriminate].
  inversion H; subst w. split; [apply getCapture_set_same|].
  split; [simpl; lia|exact E].
Qed.

Lemma rmatch_Chr_inv ic ml s a r c x w :
  rmatch ic ml s (Seq (Chr a) r) c x = Some w ->
  rmatch ic ml s r c (mkState (S (endIndex x)) (captures x)) = Some w.
Proof.
  intros H. cbn [rmatch] in H.
  destruct (nth_error s (endIndex x)) as [ch|]; [|discriminate].
  destruct (N.eqb _ _); [exact H|discriminate].
Qed.

Lemma maskLine_match pre l tail y :
  isLine l ->
  lineEndAt (pre ++ l ++ tail) (List.length pre + List.length l) ->
  matchAt (flagI reImportLine) true (pre ++ l ++ tail) (Seq Bol maskBody)
          (List.length pre) = Some y ->
  endIndex y = List.length pre + List.length l
  /\ 0 < List.length l
  /\ expand (pre ++ l ++ tail) (mkResult (List.length pre) y)
            [Text (lit "//"); Ref 1]
     = lit "//" ++ l.
Proof.
  intros Hl Hend Hm. cbn [flagI reImportLine] in Hm.
  pose proof (matchAt_advances _ _ _ _ _ Hm) as Hadv.
  change (step (consumes (Seq Bol maskBody))) with 1 in Hadv.
  assert (Hinner : rmatch true true (pre ++ l ++ tail) maskBody (fun y => Some y)
                          (mkState (List.length pre) []) = Some y).
  { unfold matchAt in Hm. cbn [rmatch endIndex] in Hm.
    destruct (atLineStart true (pre ++ l ++ tail) (List.length pre));
      [exact Hm|discriminate]. }
  apply rmatch_Grp_Eol_inv in Hinner. destruct Hinner as [Hcap [_ Hat]].
  cbn [endIndex] in Hcap.
  pose proof (match_line_end true maskBody maskBody_shape pre l tail Hl Hend y Hat Hm)
    as Hy.
  split; [exact Hy|]. split; [lia|].
  unfold expand. cbn [flat_map group final index]. rewrite Hcap, Hy.
  replace (List.length pre) with (List.length pre + 0) at 1 by lia.
  rewrite substring_line by lia. simpl skipn. now rewrite app_nil_r.
Qed.

Lemma unmaskLine_match pre l tail y :
  isLine l ->
  lineEndAt (pre ++ l ++ tail) (List.length pre + List.length l) ->
  matchAt (flagI reMaskedImportLine) true (pre ++ l ++ tail) (Seq Bol unmaskBody)
          (List.length pre) = Some y ->
  endIndex y = List.length pre + List.length l
  /\ 0 < List.length l
  /\ expand (pre ++ l ++ tail) (mkResult (List.length pre) y) [Ref 1]
     = skipn 2 l.
Proof.
  intros Hl Hend Hm. cbn [flagI reMaskedImportLine] in Hm.
  assert (Hinner : rmatch true true (pre ++ l ++ tail)
                          (Seq (Grp 1 (seqs [Star (Cls blank); Grp 2 keyword; Wb;
                                             Star (Cls dot)])) Eol)
                          (fun y => Some y)
                          (mkState (S (S (List.length pre))) []) = Some y).
  { unfold matchAt in Hm. cbn [rmatch endIndex] in Hm.
    destruct (atLineStart true (pre ++ l ++ tail) (List.length pre));
      [|discriminate].
    change (rmatch true true (pre ++ l ++ tail)
              (Seq (Chr 47) (Seq (Chr 47)
                 (Seq (Grp 1 (seqs [Star (Cls blank); Grp 2 keyword; Wb;
                                    Star (Cls dot)])) Eol)))
              (fun y => Some y) (mkState (List.length pre) []) = Some y) in Hm.
    apply rmatch_Chr_inv in Hm. apply rmatch_Chr_inv in Hm. exact Hm. }
  apply rmatch_Grp_Eol_inv in Hinner. destruct Hinner as [Hcap [Hle Hat]].
  cbn [endIndex] in Hcap, Hle.
  pose proof (match_line_end true unmaskBody unmaskBody_shape pre l tail Hl Hend y
                Hat Hm) as Hy.
  split; [exact Hy|]. split; [lia|].
  unfold expand. cbn [flat_map group final index]. rewrite Hcap, Hy.
  replace (S (S (List.length pre))) with (List.length pre + 2) by lia.
  rewrite substring_line by lia. now rewrite app_nil_r.
Qed.

(** [sanitizeCode], after the directive, masks line by line. *)
Theorem mask_lines l0 rest :
  areLines l0 rest ->
  replace reImportLine [Text (lit "//"); Ref 1] (join l0 rest)
  = join (maskLine l0) (onLines maskLine rest).
Proof.
  intros Hl.
  apply (replace_lines reImportLine maskBody [Text (lit "//"); Ref 1]
           (fun l => lit "//" ++ l)); try reflexivity; [| |exact Hl].
  - apply maskLine_match.
  - intros pre l tail Hline Hend Hstart.
    apply (match_alone_shape true maskBody maskBody_shape pre l tail Hend Hstart).
Qed.

(** [unsanitizeCode], after the directive, unmasks line by line. *)
Theorem unmask_lines l0 rest :
  areLines l0 rest ->
  replace reMaskedImportLine [Ref 1] (join l0 rest)
  = join (unmaskLine l0) (onLines unmaskLine rest).
Proof.
  intros Hl.
  apply (replace_lines reMaskedImportLine unmaskBody [Ref 1] (skipn 2));
    try reflexivity; [| |exact Hl].
  - apply unmaskLine_match.
  - intros pre l tail Hline Hend Hstart.
    apply (match_alone_shape true unmaskBody unmaskBody_shape pre l tail Hend Hstart).
Qed.

(** ** One line, masked and unmasked *)

(** Two patterns of the same shape succeed together on the same text. *)
Lemma same_text ic s r r' c c' x x' :
  shape ic r r' ->
  endIndex x = endIndex x' -> endIndex x <= List.length s ->
  (forall y y', endIndex y = endIndex y' -> endIndex y <= List.length s ->
                endIndex x <= endIndex y ->
                succeeds (c y) = true -> succeeds (c' y') = true) ->
  succeeds (rmatch ic true s r c x) = true ->
  succeeds (rmatch ic true s r' c' x') = true.
Proof.
  intros Hsh Hx Hlen Hc.
  assert (Hend : lineEndAt s (0 + List.length s)).
  { unfold lineEndAt.
    replace (nth_error s (0 + List.length s)) with (@None N); [exact I|].
    symmetry. apply nth_error_None. simpl. lia. }
  apply (simulation ic s s 0 0 (List.length s)).
  - intros j Hj. destruct (nth_error s j) as [ch|] eqn:E.
    + exists ch. now split.
    + apply nth_error_None in E. lia.
  - exact Hend.
  - exact Hend.
  - reflexivity.
  - simpl. lia.
  - exact Hsh.
  - exists (endIndex x). simpl. lia.
  - intros y y' [j [Hj [Hy Hy']]] Hle. simpl in Hy, Hy'. apply Hc; lia.
Qed.

(** A line that [reImportLine] matches holds a commented import or a plain
    one. *)
Lemma mask_cases l :
  succeeds (rmatch true true l maskBody (fun y => Some y) (mkState 0 [])) = true ->
  succeeds (rmatch true true l commentedBody (fun y => Some y) (mkState 0 [])) = true
  \/ succeeds (rmatch true true l plainBody (fun y => Some y) (mkState 0 [])) = true.
Proof.
  intros H.
  set (x0 := mkState 0 []) in *.
  set (c1 := fun y : state =>
               rmatch true true l Eol (fun y => Some y)
                      (setCapture 1 (endIndex x0) (endIndex y) y)).
  set (kc := fun y : state =>
               rmatch true true l
                      (Seq (Grp 3 keyword) (Seq Wb (Star (Cls dot)))) c1 y).
  set (slashes := Grp 2 (word "//")).
  change (succeeds
            (rmatch true true l (Star (Cls blank))
                    (fun z => repeatMatcher (rmatch true true l slashes)
                                (groups slashes) true kc
                                (S (0 + (List.length l - endIndex z))) 0 (Some 1) z)
                    x0) = true) in H.
  match type of H with
  | succeeds ?t = true => destruct t as [w|] eqn:E; [|discriminate H]
  end.
  apply rmatch_replays in E. destruct E as [z [Hz [[_ Hin] Hre]]].
  specialize (Hin (Nat.le_0_l _)).
  rewrite repeatMatcher_S in Hz. cbn [Nat.eqb negb] in Hz.
  match type of Hz with
  | match ?t with Some _ => _ | None => _ end = _ =>
      destruct t as [w'|] eqn:E1
  end.
  - left.
    change (succeeds
              (rmatch true true l (Star (Cls blank))
                      (fun z => rmatch true true l (word "//")
                                  (fun y => rmatch true true l (Seq keyword Wb)
                                              (fun y => Some y) y) z)
                      x0) = true).
    apply Hre.
    apply (same_text true l slashes (word "//")
             (repeatCont (rmatch true true l slashes) (groups slashes) true kc
                         (0 + (List.length l - endIndex z)) 0 (Some 1) z)
             (fun y => rmatch true true l (Seq keyword Wb) (fun y => Some y) y)
             (clear (groups slashes) z) z).
    + unfold slashes. shape_of.
    + reflexivity.
    + exact Hin.
    + intros y y' Hy Hyl _ Hs. unfold repeatCont in Hs.
      destruct (Nat.eqb 0 0 && Nat.eqb (endIndex y) (endIndex z));
        [discriminate Hs|].
      destruct (0 + (List.length l - endIndex z)) as [|fuel];
        [discriminate Hs|].
      rewrite repeatMatcher_S in Hs. cbn [pred_max Nat.pred] in Hs.
      change (succeeds
                (rmatch true true l (Grp 3 keyword)
                        (fun u => rmatch true true l Wb
                                    (fun v => rmatch true true l (Star (Cls dot)) c1 v)
                                    u)
                        y) = true) in Hs.
      change (succeeds
                (rmatch true true l keyword
                        (fun u => rmatch true true l Wb (fun y => Some y) u) y')
              = true).
      revert Hs. apply same_text; [shape_of|exact Hy|exact Hyl|].
      intros u u' Hu Hul _. apply same_text; [shape_of|exact Hu|exact Hul|].
      intros; reflexivity.
    + now rewrite E1.
  - right.
    change (succeeds (rmatch true true l (Star (Cls blank)) kc x0) = true).
    apply Hre. now rewrite Hz.
Qed.

(** A plain import, once masked, is matched by [reMaskedImportLine]. *)
Lemma plain_masked l :
  succeeds (rmatch true true l plainBody (fun y => Some y) (mkState 0 [])) = true ->
  succeeds (matchAt true true (lit "//" ++ l) (Seq Bol unmaskBody) 0) = true.
Proof.
  change (lit "//" ++ l) with (47%N :: 47%N :: l).
  change (matchAt true true (47%N :: 47%N :: l) (Seq Bol unmaskBody) 0)
    with (rmatch true true (47%N :: 47%N :: l)
                 (Seq (Grp 1 (seqs [Star (Cls blank); Grp 2 keyword; Wb;
                                    Star (Cls dot)])) Eol)
                 (fun y => Some y) (mkState 2 [])).
  apply (simulation true l (47%N :: 47%N :: l) 0 2 (List.length l)).
  - intros j Hj. destruct (nth_error l j) as [ch|] eqn:E.
    + exists ch. now split.
    + apply nth_error_None in E. lia.
  - unfold lineEndAt.
    replace (nth_error l (0 + List.length l)) with (@None N); [exact I|].
    symmetry. apply nth_error_None. simpl. lia.
  - unfold lineEndAt. simpl.
    replace (nth_error l (List.length l)) with (@None N); [exact I|].
    symmetry. apply nth_error_None. lia.
  - reflexivity.
  - simpl. lia.
  - unfold plainBody. shape_of.
  - exists 0. simpl. lia.
  - intros y y' _ _ _. reflexivity.
Qed.

(** Masking and then unmasking gives the line back, unless the line is a
    masked import already or holds a commented import. *)
Lemma unmask_mask_line l :
  succeeds (matchAt true true l (pattern reMaskedImportLine) 0) = false ->
  succeeds (matchAt true true l (pattern reCommentedImport) 0) = false ->
  unmaskLine (maskLine l) = l.
Proof.
  intros HU HC. unfold maskLine.
  destruct (succeeds (matchAt true true l (pattern reImportLine) 0)) eqn:EL.
  - destruct (mask_cases l EL) as [Hc|Hp].
    + change (succeeds (matchAt true true l (pattern reCommentedImport) 0) = true)
        in Hc.
      rewrite HC in Hc. discriminate Hc.
    + apply plain_masked in Hp. unfold unmaskLine.
      change (pattern reMaskedImportLine) with (Seq Bol unmaskBody).
      now rewrite Hp.
  - unfold unmaskLine. now rewrite HU.
Qed.

(** ** The directive on the first line *)

Lemma replace_reHash s : replace reHash [Text (lit "//#")] s = maskHash s.
Proof.
  unfold replace, matches. cbn [flagG reHash].
  rewrite (@exec_anchored reHash s (word "#")) by reflexivity.
  unfold maskHash. destruct s as [|c s]; [reflexivity|].
  unfold matchAt. cbn. destruct (N.eqb c 35) eqn:E; [|reflexivity].
  apply N.eqb_eq in E. subst c. reflexivity.
Qed.

Lemma test_reMaskedHash s : test reMaskedHash s = isMaskedHash s.
Proof.
  unfold test. rewrite (@exec_anchored reMaskedHash s (word "//#")) by reflexivity.
  destruct s as [|a [|b [|c s]]]; unfold matchAt; cbn; try reflexivity.
  - now destruct (N.eqb a 47).
  - destruct (N.eqb a 47); [|reflexivity]. now destruct (N.eqb b 47).
  - destruct (N.eqb a 47); [|reflexivity]. destruct (N.eqb b 47); [|reflexivity].
    now destruct (N.eqb c 35).
Qed.

Lemma replace_reMaskedHash s : replace reMaskedHash [Text (lit "#")] s = unmaskHash s.
Proof.
  unfold replace, matches. cbn [flagG reMaskedHash].
  rewrite (@exec_anchored reMaskedHash s (word "//#")) by reflexivity.
  unfold unmaskHash.
  destruct s as [|a [|b [|c s]]]; unfold matchAt; cbn; try reflexivity.
  - now destruct (N.eqb a 47).
  - destruct (N.eqb a 47); [|reflexivity]. now destruct (N.eqb b 47).
  - destruct (N.eqb a 47) eqn:Ea; [|reflexivity].
    destruct (N.eqb b 47) eqn:Eb; [|reflexivity].
    destruct (N.eqb c 35) eqn:Ec; [|reflexivity].
    apply N.eqb_eq in Ec. subst c. reflexivity.
Qed.

Lemma isHash_join l0 rest : areLines l0 rest -> isHash (join l0 rest) = isHash l0.
Proof.
  intros [_ Hrest]. destruct l0 as [|c l0]; [|now rewrite join_app].
  destruct rest as [|[t l] rest]; [reflexivity|].
  inversion Hrest as [|? ? [Ht _] _]; subst. cbn [fst] in Ht. cbn [join app isHash].
  destruct (lineTerminator_cases t Ht) as [->|[->|[->| ->]]]; reflexivity.
Qed.

Lemma isMaskedHash_join l0 rest :
  areLines l0 rest -> isMaskedHash (join l0 rest) = isMaskedHash l0.
Proof.
  intros [_ Hrest]. rewrite join_app.
  destruct rest as [|[t l] rest]; [now rewrite app_nil_r|].
  inversion Hrest as [|? ? [Ht _] _]; subst. cbn [fst] in Ht.
  destruct l0 as [|a [|b [|c l0]]]; cbn [app isMaskedHash]; try reflexivity.
  - destruct (join l rest) as [|b [|c tl]]; try reflexivity.
    destruct (lineTerminator_cases t Ht) as [->|[->|[->| ->]]]; reflexivity.
  - destruct (join l rest) as [|c tl]; [reflexivity|].
    destruct (N.eqb a 47); [|reflexivity].
    destruct (lineTerminator_cases t Ht) as [->|[->|[->| ->]]]; reflexivity.
  - destruct (N.eqb a 47); [|reflexivity]. destruct (N.eqb b 47); [|reflexivity].
    destruct (lineTerminator_cases t Ht) as [->|[->|[->| ->]]]; reflexivity.
Qed.

Lemma maskHash_join l0 rest :
  areLines l0 rest -> maskHash (join l0 rest) = join (maskHash l0) rest.
Proof.
  intros Hl. unfold maskHash. rewrite (isHash_join l0 rest Hl).
  destruct (isHash l0); [|reflexivity].
  rewrite (join_app l0), (join_app (lit "//" ++ l0)). now rewrite app_assoc.
Qed.

Lemma unmaskHash_join l0 rest :
  areLines l0 rest -> unmaskHash (join l0 rest) = join (unmaskHash l0) rest.
Proof.
  intros Hl. unfold unmaskHash. rewrite (isMaskedHash_join l0 rest Hl).
  destruct (isMaskedHash l0) eqn:E; [|reflexivity].
  destruct l0 as [|a [|b [|c l0]]]; try discriminate E.
  rewrite (join_app (a :: b :: c :: l0)), (join_app (skipn 2 (a :: b :: c :: l0))).
  reflexivity.
Qed.

(** ** Lines stay lines *)

Lemma isLine_slashes l : isLine l -> isLine (lit "//" ++ l).
Proof. intros H. repeat constructor. exact H. Qed.

Lemma isLine_skipn n l : isLine l -> isLine (skipn n l).
Proof.
  revert l. induction n as [|n IH]; intros l H; [exact H|].
  destruct l as [|c l]; [exact H|]. inversion H; subst. now apply IH.
Qed.

Lemma isLine_maskHash l : isLine l -> isLine (maskHash l).
Proof.
  intros H. unfold maskHash.
  destruct (isHash l); [now apply isLine_slashes|exact H].
Qed.

Lemma isLine_unmaskHash l : isLine l -> isLine (unmaskHash l).
Proof.
  intros H. unfold unmaskHash.
  destruct (isMaskedHash l); [now apply isLine_skipn|exact H].
Qed.

Lemma isLine_maskLine l : isLine l -> isLine (maskLine l).
Proof.
  intros H. unfold maskLine.
  destruct (succeeds _); [now apply isLine_slashes|exact H].
Qed.

Lemma areLines_onLines f l0 rest :
  (forall l, isLine l -> isLine (f l)) ->
  areLines l0 rest -> areLines l0 (onLines f rest).
Proof.
  intros Hf [Hl0 Hrest]. split; [exact Hl0|].
  unfold onLines. apply Forall_map.
  eapply Forall_impl; [|exact Hrest].
  intros [t l] [Ht Hl]. cbn [fst snd] in *. split; [exact Ht|now apply Hf].
Qed.

Lemma areLines_first f l0 rest :
  (forall l, isLine l -> isLine (f l)) ->
  areLines l0 rest -> areLines (f l0) rest.
Proof. intros Hf [Hl0 Hrest]. split; [now apply Hf|exact Hrest]. Qed.

(** ** A search that finds nothing *)

Lemma firstMatch_fails re s cands :
  firstMatch re s cands = None ->
  forall i, In i cands -> matchAt (flagI re) (flagM re) s (pattern re) i = None.
Proof.
  induction cands as [|j cands IH]; simpl; intros H i Hi; [contradiction|].
  destruct (matchAt (flagI re) (flagM re) s (pattern re) j) eqn:E;
    [discriminate H|].
  destruct Hi as [->|Hi]; [exact E|now apply IH].
Qed.

Lemma test_fails re s :
  test re s = false ->
  forall p, p <= List.length s ->
            matchAt (flagI re) (flagM re) s (pattern re) p = None.
Proof.
  unfold test, exec. intros H p Hp.
  destruct (firstMatch re s (seq 0 (S (List.length s) - 0))) eqn:E;
    [discriminate H|].
  apply (firstMatch_fails _ _ _ E). apply in_seq. lia.
Qed.

Section NoLine.

Variables (ic : bool) (body : regex).
Hypothesis body_shape : shape ic body body.

(** When the pattern matches nowhere in the text, it matches none of its
    lines taken alone. *)
Lemma lines_fail :
  forall rest l0 pre,
    areLines l0 rest ->
    atLineStart true (pre ++ join l0 rest) (List.length pre) = true ->
    (forall p, p <= List.length (pre ++ join l0 rest) ->
               matchAt ic true (pre ++ join l0 rest) (Seq Bol body) p = None) ->
    succeeds (matchAt ic true l0 (Seq Bol body) 0) = false
    /\ Forall (fun tl => succeeds (matchAt ic true (snd tl) (Seq Bol body) 0) = false)
              rest.
Proof.
  induction rest as [|[t l] rest IH]; intros l0 pre [Hl0 Hrest] Hstart Hnone.
  - cbn [join] in Hstart, Hnone. split; [|constructor].
    assert (Hs : pre ++ l0 = pre ++ l0 ++ []) by now rewrite app_nil_r.
    assert (Hend : lineEndAt (pre ++ l0 ++ []) (List.length pre + List.length l0)).
    { unfold lineEndAt. rewrite app_nil_r.
      replace (nth_error (pre ++ l0) (List.length pre + List.length l0))
        with (@None N); [exact I|].
      symmetry. apply nth_error_None. rewrite length_app. lia. }
    pose proof (match_alone_shape ic body body_shape pre l0 [] Hend) as Halone.
    rewrite <- Hs in Halone. rewrite <- (Halone Hstart).
    rewrite Hnone; [reflexivity|]. rewrite length_app. lia.
  - inversion Hrest as [|? ? [Ht Hl] Hrest']; subst. cbn [fst snd] in Ht, Hl.
    cbn [join] in Hstart, Hnone.
    set (s := pre ++ l0 ++ t :: join l rest) in *.
    assert (Hlen : List.length s = List.length pre + List.length l0
                                   + S (List.length (join l rest))).
    { unfold s. rewrite !length_app. simpl. lia. }
    assert (Ht_at : nth_error s (List.length pre + List.length l0) = Some t).
    { unfold s. rewrite nth_error_app2 by lia. rewrite nth_error_app2 by lia.
      replace (List.length pre + List.length l0 - List.length pre - List.length l0)
        with 0 by lia. reflexivity. }
    assert (Hend : lineEndAt s (List.length pre + List.length l0)).
    { unfold lineEndAt. now rewrite Ht_at. }
    pose proof (match_alone_shape ic body body_shape pre l0 (t :: join l rest)
                  Hend Hstart) as Halone.
    fold s in Halone.
    assert (Hs' : s = (pre ++ l0 ++ [t]) ++ join l rest).
    { unfold s. now rewrite <- !app_assoc. }
    assert (Hpre' : List.length (pre ++ l0 ++ [t])
                    = S (List.length pre + List.length l0)).
    { rewrite !length_app. simpl. lia. }
    pose proof (IH l (pre ++ l0 ++ [t])) as IH'.
    rewrite <- Hs', Hpre' in IH'.
    destruct IH' as [Hl_fails Hrest_fail].
    + now split.
    + cbn [atLineStart andb]. unfold charIs. now rewrite Ht_at.
    + exact Hnone.
    + split.
      * rewrite <- Halone. rewrite Hnone; [reflexivity|lia].
      * constructor; [exact Hl_fails|exact Hrest_fail].
Qed.

End NoLine.

Lemma test_lines re body l0 rest :
  pattern re = Seq Bol body -> flagM re = true ->
  shape (flagI re) body body ->
  areLines l0 rest ->
  test re (join l0 rest) = false ->
  succeeds (matchAt (flagI re) true l0 (Seq Bol body) 0) = false
  /\ Forall (fun tl => succeeds (matchAt (flagI re) true (snd tl) (Seq Bol body) 0)
                       = false) rest.
Proof.
  intros Hp Hm Hsh Hl Ht.
  apply (lines_fail (flagI re) body Hsh rest l0 [] Hl); [reflexivity|].
  intros p Hle. pose proof (test_fails re _ Ht p Hle) as H.
  now rewrite Hp, Hm in H.
Qed.

(** ** The round trip *)

Lemma commentedBody_shape : shape true commentedBody commentedBody.
Proof. unfold commentedBody. shape_of. Qed.

Lemma onLines_round_trip rest :
  Forall (fun tl => succeeds (matchAt true true (snd tl)
                                      (pattern reMaskedImportLine) 0) = false) rest ->
  Forall (fun tl => succeeds (matchAt true true (snd tl)
                                      (pattern reCommentedImport) 0) = false) rest ->
  onLines unmaskLine (onLines maskLine rest) = rest.
Proof.
  induction rest as [|[t l] rest IH]; intros HU HC; [reflexivity|].
  inversion HU; subst. inversion HC; subst. cbn [snd] in *.
  cbn [onLines map fst snd]. fold (onLines maskLine rest).
  fold (onLines unmaskLine (onLines maskLine rest)).
  rewrite IH by assumption. now rewrite unmask_mask_line.
Qed.

Lemma first_line_round_trip l :
  isMaskedHash l = false ->
  succeeds (matchAt true true l (pattern reMaskedImportLine) 0) = false ->
  succeeds (matchAt true true l (pattern reCommentedImport) 0) = false ->
  unmaskLine (unmaskHash (maskLine (maskHash l))) = l.
Proof.
  intros HM HU HC. unfold maskHash.
  destruct (isHash l) eqn:EH.
  - destruct l as [|c l]; [discriminate EH|]. cbn [isHash] in EH.
    apply N.eqb_eq in EH. subst c.
    change (lit "//" ++ 35%N :: l) with (47%N :: 47%N :: 35%N :: l).
    assert (H1 : maskLine (47%N :: 47%N :: 35%N :: l) = 47%N :: 47%N :: 35%N :: l).
    { unfold maskLine.
      replace (matchAt true true (47%N :: 47%N :: 35%N :: l)
                       (pattern reImportLine) 0) with (@None state);
        [reflexivity|].
      vm_compute. reflexivity. }
    rewrite H1.
    change (unmaskHash (47%N :: 47%N :: 35%N :: l)) with (35%N :: l).
    unfold unmaskLine.
    replace (matchAt true true (35%N :: l) (pattern reMaskedImportLine) 0)
      with (@None state); [reflexivity|].
    vm_compute. reflexivity.
  - assert (H1 : unmaskHash (maskLine l) = maskLine l).
    { unfold maskLine.
      destruct (succeeds (matchAt true true l (pattern reImportLine) 0)).
      - unfold unmaskHash.
        change (lit "//" ++ l) with (47%N :: 47%N :: l).
        destruct l as [|c l]; [reflexivity|]. cbn [isHash] in EH.
        cbn [isMaskedHash]. rewrite EH. reflexivity.
      - unfold unmaskHash. now rewrite HM. }
    rewrite H1. now apply unmask_mask_line.
Qed.

Set Implicit Arguments.

(** ** The sanitizer *)

(** C1 fails on the code as it is stated, for every text.  A commented
    import, [//import x;], is masked with a second [//] that
    [unsanitizeCode] leaves in place, with or without blanks before it; a
    line that looks masked, [// import x;], and a text that starts with
    [//#] lose slashes that [sanitizeCode] did not write. *)
Lemma sanitize_round_trip_fails :
  (unsanitizeCode (sanitizeCode (lit "//import x;")) = lit "////import x;"
   /\ unsanitizeCode (sanitizeCode (lit "//import x;")) <> lit "//import x;")
  /\ (unsanitizeCode (sanitizeCode (lit "  //import x;")) = lit "//  //import x;"
      /\ unsanitizeCode (sanitizeCode (lit "  //import x;")) <> lit "  //import x;")
  /\ (unsanitizeCode (sanitizeCode (lit "// import x;")) = lit " import x;"
      /\ unsanitizeCode (sanitizeCode (lit "// import x;")) <> lit "// import x;")
  /\ (unsanitizeCode (sanitizeCode (lit "//#x")) = lit "#x"
      /\ unsanitizeCode (sanitizeCode (lit "//#x")) <> lit "//#x").
Proof.
  split; [|split; [|split]]; split; vm_compute;
    first [reflexivity|discriminate].
Qed.

(** C1, amended: [unsanitizeCode (sanitizeCode T)] is [T], character for
    character, for every text [T] that does not start with [//#], has no
    line made of [//], optional blanks and the word [import] or [from]
    (such a text looks masked already) and no line of optional blanks, [//]
    and at once the word [import] or [from] (a commented import).  Texts
    that start with [#] and lines of optional blanks and the word [import]
    or [from] are among them. *)
Theorem sanitize_round_trip code :
  test reMaskedHash code = false ->
  test reMaskedImportLine code = false ->
  test reCommentedImport code = false ->
  unsanitizeCode (sanitizeCode code) = code.
Proof.
  intros HM HU HC.
  destruct (lines_of code) as [l0 [rest [-> Hl]]].
  rewrite test_reMaskedHash, (isMaskedHash_join l0 rest Hl) in HM.
  destruct (test_lines reMaskedImportLine unmaskBody l0 rest
              eq_refl eq_refl unmaskBody_shape Hl HU) as [HU0 HUrest].
  destruct (test_lines reCommentedImport commentedBody l0 rest
              eq_refl eq_refl commentedBody_shape Hl HC) as [HC0 HCrest].
  unfold sanitizeCode, unsanitizeCode.
  rewrite replace_reHash, (maskHash_join l0 rest Hl).
  rewrite mask_lines by (apply areLines_first; [exact isLine_maskHash|exact Hl]).
  rewrite replace_reMaskedHash.
  assert (Hl1 : areLines (maskLine (maskHash l0)) (onLines maskLine rest)).
  { apply areLines_onLines; [exact isLine_maskLine|].
    apply areLines_first; [exact isLine_maskLine|].
    apply areLines_first; [exact isLine_maskHash|exact Hl]. }
  rewrite (unmaskHash_join _ _ Hl1).
  rewrite unmask_lines by (apply areLines_first; [exact isLine_unmaskHash|exact Hl1]).
  rewrite (first_line_round_trip l0 HM HU0 HC0).
  now rewrite (onLines_round_trip rest HUrest HCrest).
Qed.

Lemma sanitize_round_trip_witness :
  test reMaskedHash sampleText = false
  /\ test reMaskedImportLine sampleText = false
  /\ test reCommentedImport sampleText = false
  /\ unsanitizeCode (sanitizeCode sampleText) = sampleText.
Proof.
  split; [reflexivity|]. split; [reflexivity|]. split; [reflexivity|].
  apply (sanitize_round_trip sampleText); reflexivity.
Defined.

(** What the sanitizer gives on the sample. *)
Example sanitize_sample :
  sanitizeCode sampleText
  = lit "//#define A" ++ [LF] ++ lit "//import a.b;" ++ [LF]
    ++ lit "var x = 1;" ++ [LF] ++ lit "//  From x import y;".
Proof. vm_compute. reflexivity. Qed.

(** ** Scripts *)

Section ScriptFacts.

Variable node : Type.
Variable falafel : jsstring -> falafelResult node.

(** When the engine throws, the ['end'] event carries [unsanitizeCode] of
    the text that was read, not the text itself. *)
Lemma walkScript_fallback src visited :
  falafel (sanitizeCode src) = Threw visited ->
  walkScript falafel (Some src)
  = Returns (map (@NodeEvent node) visited ++ [EndEvent (unsanitizeCode src)]).
Proof. intros H. unfold walkScript. now rewrite H. Qed.

(** A text that does not start with a masked directive and in which the
    pattern of [unsanitizeCode] matches nowhere is left as it is. *)
Lemma unsanitizeCode_unmasked code :
  test reMaskedHash code = false ->
  exec reMaskedImportLine code 0 = None ->
  unsanitizeCode code = code.
Proof.
  intros Hhash Himport. unfold unsanitizeCode.
  assert (H1 : replace reMaskedHash [Text (lit "#")] code = code).
  { unfold replace, matches, test in *. cbn [flagG reMaskedHash].
    destruct (exec _ code 0); [discriminate Hhash|reflexivity]. }
  rewrite H1. unfold replace, matches. cbn [flagG reMaskedImportLine execAll].
  rewrite Himport. reflexivity.
Qed.

(** On such a text the fallback does pass the original on. *)
Lemma walkScript_fallback_unmasked src visited :
  falafel (sanitizeCode src) = Threw visited ->
  test reMaskedHash src = false ->
  exec reMaskedImportLine src 0 = None ->
  walkScript falafel (Some src)
  = Returns (map (@NodeEvent node) visited ++ [EndEvent src]).
Proof.
  intros Hf Hhash Himport. rewrite (walkScript_fallback _ Hf).
  now rewrite unsanitizeCode_unmasked.
Qed.

End ScriptFacts.

(** C9 fails on the code: the fallback sets [out = code] and still passes
    it through [unsanitizeCode], which strips the [//] of a commented import
    line although nothing had masked it.  With an engine that throws, the
    file [//import foo;] is delivered, and written back, as [import foo;]. *)
Theorem walkScript_fallback_changes_commented_import :
  let falafel := fun _ : jsstring => Threw (@nil unit) in
  walkScript falafel (Some (lit "//import foo;"))
  = Returns [EndEvent (lit "import foo;")]
  /\ rewriteScript falafel (Some (lit "//import foo;"))
     = Returns (Some (lit "import foo;"))
  /\ lit "import foo;" <> lit "//import foo;".
Proof. split; [|split]; vm_compute; [reflexivity|reflexivity|discriminate]. Qed.

(** ** Listing files *)

Section ListingFacts.

Variable existsSync : jsstring -> bool.
Variable findit : jsstring -> list (jsstring * stat).
Variable extname : jsstring -> jsstring.
Variable basename : jsstring -> jsstring -> jsstring.

(** C10: when the base directory does not exist, no listing throws: the
    synchronous one returns the empty list; the asynchronous one calls the
    callback at once with the empty list, or without a callback emits
    ['end'] on the next tick and no ['file'] event. *)
Theorem listing_missing_directory base exts :
  existsSync base = false ->
  listFilesSync existsSync findit extname basename base exts = Returns []
  /\ listFiles existsSync findit extname basename base exts true
     = Returns (mkListing false [Call []] [])
  /\ listFiles existsSync findit extname basename base exts false
     = Returns (mkListing false [] [Emit EndSignal]).
Proof.
  intros H. unfold listFilesSync, listFiles. rewrite H. simpl. auto.
Qed.

End ListingFacts.

Lemma listing_missing_directory_witness :
  let existsSync := fun _ : jsstring => false in
  let findit := fun _ : jsstring => @nil (jsstring * stat) in
  let extname := fun _ : jsstring => @nil N in
  let basename := fun (p _ : jsstring) => p in
  existsSync (lit "resources") = false
  /\ listFilesSync existsSync findit extname basename (lit "resources")
                   (Some [lit "png"]) = Returns []
  /\ listFiles existsSync findit extname basename (lit "resources")
               (Some [lit "png"]) true
     = Returns (mkListing false [Call []] [])
  /\ listFiles existsSync findit extname basename (lit "resources")
               (Some [lit "png"]) false
     = Returns (mkListing false [] [Emit EndSignal]).
Proof.
  intros existsSync findit extname basename.
  split; [reflexivity|].
  apply (@listing_missing_directory existsSync findit extname basename
           (lit "resources") (Some [lit "png"])).
  reflexivity.
Defined.

(** ** createUUID *)

Lemma spliceWith_length s (f : result -> nat -> outcome (jsstring * nat)) :
  forall ms pos k,
    chain (List.length s) pos ms = true ->
    (forall m k', In m ms ->
       exists u, f m k' = Returns (u, S k')
                 /\ List.length u = lastOf m - index m) ->
    exists u, spliceWith s f pos ms k = Returns (u, k + List.length ms)
              /\ List.length u = List.length s - pos.
Proof.
  induction ms as [|m ms IH]; intros pos k Hch Hf; simpl.
  - eexists. split; [now rewrite Nat.add_0_r|]. apply length_skipn.
  - simpl in Hch. apply andb_prop in Hch. destruct Hch as [Hch Hrest].
    apply andb_prop in Hch. destruct Hch as [Hch H3].
    apply andb_prop in Hch. destruct Hch as [H1 H2].
    apply Nat.leb_le in H1, H2, H3.
    destruct (Hf m k) as [u1 [Hu1 Hl1]]; [now left|].
    rewrite Hu1. cbn [bind snd fst].
    destruct (IH (lastOf m) (S k) Hrest) as [u2 [Hu2 Hl2]].
    { intros m' k' Hin. apply Hf. now right. }
    rewrite Hu2. cbn [bind snd fst]. eexists. split.
    + f_equal. f_equal. lia.
    + rewrite !length_app. unfold substring.
      rewrite length_firstn, length_skipn. lia.
Qed.

Section UuidFacts.

Variable random16 : nat -> N.
Hypothesis random16_range : forall k, (random16 k < 16)%N.

Lemma uuidDigit_length a k :
  isUuidDigit (Some a) = true -> List.length (uuidDigit random16 a k) = 1.
Proof.
  intros Ha. unfold uuidDigit. generalize (random16_range k).
  generalize (random16 k). intros t Ht.
  assert (Hin : In t (map N.of_nat (seq 0 16))).
  { rewrite <- (N2Nat.id t). apply in_map. apply in_seq. lia. }
  destruct a as [|c [|? ?]]; try discriminate. simpl in Ha.
  assert (Hc : c = 48%N \/ c = 49%N \/ c = 56%N).
  { destruct (N.eqb_spec c 48); [auto|]. destruct (N.eqb_spec c 49); [auto|].
    destruct (N.eqb_spec c 56); [auto|discriminate]. }
  simpl in Hin.
  destruct Hc as [->|[->| ->]];
    repeat (destruct Hin as [<-|Hin]; [vm_compute; reflexivity|]);
    contradiction.
Qed.

Lemma createUUID_digit depth a k :
  truthy_str a = true ->
  createUUID random16 depth a k = Returns (uuidDigit random16 (toStr a) k, S k).
Proof.
  destruct a as [[|c a]|]; try discriminate. intros _.
  destruct depth; reflexivity.
Qed.

Lemma createUUID_unfold k :
  createUUID random16 2 None k
  = spliceWith uuidTemplate
      (fun m k' => createUUID random16 1 (group uuidTemplate m 0) k')
      0 (matches reUuidDigit uuidTemplate) k.
Proof. reflexivity. Qed.

(** [createUUID()] returns 32 code units after 31 calls of [Math.random]. *)
Lemma createUUID_length k :
  exists id, createUUID random16 2 None k = Returns (id, k + 31)
             /\ List.length id = 32.
Proof.
  rewrite createUUID_unfold.
  assert (Hall : forallb (fun m => isUuidDigit (group uuidTemplate m 0)
                                   && (lastOf m - index m =? 1))
                         (matches reUuidDigit uuidTemplate) = true)
    by (vm_compute; reflexivity).
  rewrite forallb_forall in Hall.
  assert (Hlen : List.length (matches reUuidDigit uuidTemplate) = 31)
    by (vm_compute; reflexivity).
  assert (Hsize : List.length uuidTemplate - 0 = 32) by reflexivity.
  assert (Hch : chain (List.length uuidTemplate) 0
                      (matches reUuidDigit uuidTemplate) = true)
    by (vm_compute; reflexivity).
  pose proof (@spliceWith_length uuidTemplate
                (fun m k' => createUUID random16 1 (group uuidTemplate m 0) k')
                (matches reUuidDigit uuidTemplate) 0 k Hch) as HH.
  rewrite Hlen, Hsize in HH. apply HH.
  intros m k' Hin. apply Hall in Hin. apply andb_prop in Hin.
  destruct Hin as [Hd Hone]. apply Nat.eqb_eq in Hone.
  cbv beta. destruct (group uuidTemplate m 0) as [a|]; [|discriminate Hd].
  assert (Ht : truthy_str (Some a) = true).
  { destruct a as [|c [|? ?]]; try discriminate Hd. reflexivity. }
  rewrite (createUUID_digit 1 (Some a) k' Ht). eexists. split; [reflexivity|].
  rewrite Hone. cbn [toStr]. now apply uuidDigit_length.
Qed.

End UuidFacts.

(** ** Objects *)

Lemma str_eqb_eq a : forall b, str_eqb a b = true <-> a = b.
Proof.
  induction a as [|x a IH]; intros [|y b]; simpl; split; intros H;
    try reflexivity; try discriminate H.
  - apply andb_prop in H. destruct H as [Hxy Hab].
    apply N.eqb_eq in Hxy. apply IH in Hab. congruence.
  - inversion H; subst. rewrite N.eqb_refl. simpl. now apply IH.
Qed.

Lemma str_eqb_refl a : str_eqb a a = true.
Proof. now apply str_eqb_eq. Qed.

Lemma lookup_setProp_same kvs k v : lookup k (setProp kvs k v) = Some v.
Proof.
  induction kvs as [|[k' v'] kvs IH]; simpl.
  - now rewrite str_eqb_refl.
  - destruct (str_eqb k k') eqn:E; simpl.
    + now rewrite str_eqb_refl.
    + now rewrite E.
Qed.

Lemma lookup_setProp_other kvs k k' v :
  k <> k' -> lookup k (setProp kvs k' v) = lookup k kvs.
Proof.
  intros Hne.
  assert (Hf : str_eqb k k' = false).
  { destruct (str_eqb k k') eqn:E; [|reflexivity].
    apply str_eqb_eq in E. contradiction. }
  induction kvs as [|[k1 v1] kvs IH]; simpl.
  - now rewrite Hf.
  - destruct (str_eqb k' k1) eqn:E; simpl.
    + apply str_eqb_eq in E. subst k1. now rewrite Hf.
    + destruct (str_eqb k k1); [reflexivity|exact IH].
Qed.

Lemma lookup_in_keys k v kvs : lookup k kvs = Some v -> In k (map fst kvs).
Proof.
  induction kvs as [|[k' v'] kvs IH]; simpl; [discriminate|].
  destruct (str_eqb k k') eqn:E.
  - apply str_eqb_eq in E. now left.
  - intros H. right. now apply IH.
Qed.

(** ** The manifest *)

Lemma appIDInvalid_spec (appID : value) :
  appIDInvalid appID = true <->
  (appID = None
   \/ (exists j, appID = Some j /\ forall s, j <> JStr s)
   \/ appID = Some (JStr [])).
Proof.
  unfold appIDInvalid. split.
  - destruct appID as [[| | |[|c s]| |]|]; simpl; intros H;
      try discriminate H;
      try (right; left; eexists; split; [reflexivity|intros s0; discriminate]);
      auto.
  - intros [->|[[j [-> Hj]]| ->]]; [reflexivity| |reflexivity].
    destruct j as [|b|z|s|l|o]; simpl; rewrite ?orb_false_r, ?orb_true_r;
      try reflexivity.
    exfalso. now apply (Hj s).
Qed.

Section ManifestFacts.

Variable contents : Type.
Variable JSON_parse : contents -> option json.
Variable JSON_stringify : bool -> json -> contents.
Variable random16 : nat -> N.

(** [JSON.parse] reads back what [JSON.stringify] wrote, and
    [Math.random()] is below 1. *)
Hypothesis parse_stringify : forall b j, JSON_parse (JSON_stringify b j) = Some j.
Hypothesis random16_range : forall k, (random16 k < 16)%N.

Let readManifest := readManifest JSON_parse JSON_stringify random16.
Let populateManifest := populateManifest JSON_parse JSON_stringify random16.
Let serializeConfig := serializeConfig JSON_stringify.

(** A manifest with a valid [appID] is passed on as it was read. *)
Lemma readManifest_valid cb w text kvs :
  file w = Some text ->
  JSON_parse text = Some (JObj kvs) ->
  appIDInvalid (lookup (lit "appID") kvs) = false ->
  readManifest cb w
  = Returns (call cb (mkWorld (file w) (Some (JObj kvs)) (randomCalls w) (trace w))
                  (CbManifest (Some (JObj kvs)))).
Proof.
  intros Hfile Hparse Hok. unfold readManifest, PackageManager.readManifest.
  rewrite Hfile, Hparse. cbn [manifest getProp bind]. rewrite Hok. reflexivity.
Qed.

(** Otherwise [appID] is generated and the manifest is written first. *)
Lemma readManifest_invalid cb w text kvs id :
  file w = Some text ->
  JSON_parse text = Some (JObj kvs) ->
  appIDInvalid (lookup (lit "appID") kvs) = true ->
  createUUID random16 2 None (randomCalls w) = Returns (id, randomCalls w + 31) ->
  readManifest cb w
  = Returns
      (call cb
         (mkWorld
            (Some (serializeConfig (JObj (setProp kvs (lit "appID") (JStr id)))))
            (Some (JObj (setProp kvs (lit "appID") (JStr id))))
            (randomCalls w + 31)
            (trace w
             ++ [WriteFileSync
                   (serializeConfig (JObj (setProp kvs (lit "appID") (JStr id))))]))
         (CbManifest (Some (JObj (setProp kvs (lit "appID") (JStr id)))))).
Proof.
  intros Hfile Hparse Hinv Hid. unfold readManifest, PackageManager.readManifest.
  rewrite Hfile, Hparse. cbn [manifest getProp bind randomCalls].
  rewrite Hinv, Hid. reflexivity.
Qed.

(** C7, amended: when [readManifest] reads a JSON object whose [appID] is
    absent, not a string, or empty, it sets [appID] to a generated string of
    32 code units (the template of [createUUID] has no hyphens), writes the
    manifest with [writeFileSync] before it calls the callback, and a second
    [readManifest] finds that [appID], writes nothing and passes the same
    manifest on. *)
Theorem readManifest_heals_appID cb w text kvs :
  file w = Some text ->
  JSON_parse text = Some (JObj kvs) ->
  (lookup (lit "appID") kvs = None
   \/ (exists j, lookup (lit "appID") kvs = Some j /\ forall s, j <> JStr s)
   \/ lookup (lit "appID") kvs = Some (JStr [])) ->
  exists id w1 w2,
    List.length id = 32
    /\ readManifest cb w = Returns w1
    /\ manifest w1 = Some (JObj (setProp kvs (lit "appID") (JStr id)))
    /\ file w1 = Some (serializeConfig (JObj (setProp kvs (lit "appID") (JStr id))))
    /\ trace w1
       = trace w
         ++ WriteFileSync (serializeConfig (JObj (setProp kvs (lit "appID") (JStr id))))
         :: (if cb then [Callback (CbManifest (manifest w1))] else [])
    /\ readManifest cb w1 = Returns w2
    /\ manifest w2 = manifest w1
    /\ file w2 = file w1
    /\ trace w2
       = trace w1 ++ (if cb then [Callback (CbManifest (manifest w1))] else [])
    /\ getProp (manifest w2) (lit "appID") = Returns (Some (JStr id)).
Proof.
  intros Hfile Hparse Hinv. apply appIDInvalid_spec in Hinv.
  destruct (@createUUID_length random16 random16_range (randomCalls w))
    as [id [Hid Hlen]].
  pose proof (@readManifest_invalid cb w text kvs id Hfile Hparse Hinv Hid) as Hw1.
  remember (setProp kvs (lit "appID") (JStr id)) as kvs1 eqn:Hkvs1.
  assert (Hlook : lookup (lit "appID") kvs1 = Some (JStr id))
    by (subst kvs1; apply lookup_setProp_same).
  assert (Hvalid : appIDInvalid (lookup (lit "appID") kvs1) = false).
  { rewrite Hlook. unfold appIDInvalid. simpl. rewrite Hlen. reflexivity. }
  match type of Hw1 with _ = Returns ?x => remember x as w1 eqn:Hw1def end.
  assert (Hfields : manifest w1 = Some (JObj kvs1)
                    /\ file w1 = Some (serializeConfig (JObj kvs1))
                    /\ trace w1
                       = (trace w ++ [WriteFileSync (serializeConfig (JObj kvs1))])
                         ++ (if cb then [Callback (CbManifest (Some (JObj kvs1)))]
                             else [])).
  { subst w1. unfold call. destruct cb; simpl; repeat split; now rewrite ?app_nil_r. }
  destruct Hfields as [Hm1 [Hf1 Ht1]].
  pose proof (@readManifest_valid cb w1 _ kvs1 Hf1 (parse_stringify true _) Hvalid)
    as Hw2.
  match type of Hw2 with _ = Returns ?x => remember x as w2 eqn:Hw2def end.
  assert (Hfields2 : manifest w2 = Some (JObj kvs1)
                     /\ file w2 = file w1
                     /\ trace w2
                        = trace w1
                          ++ (if cb then [Callback (CbManifest (Some (JObj kvs1)))]
                              else [])).
  { subst w2. unfold call. destruct cb; simpl; repeat split; now rewrite ?app_nil_r. }
  destruct Hfields2 as [Hm2 [Hf2 Ht2]].
  exists id, w1, w2. rewrite <- Hkvs1.
  split; [exact Hlen|]. split; [exact Hw1|]. split; [exact Hm1|].
  split; [exact Hf1|].
  split; [rewrite Ht1, Hm1, <- app_assoc; reflexivity|].
  split; [exact Hw2|]. split; [congruence|]. split; [exact Hf2|].
  split; [rewrite Ht2, Hm1; reflexivity|].
  rewrite Hm2. cbn [getProp]. now rewrite Hlook.
Qed.

End ManifestFacts.

(** C7, as stated, fails: the identifier has 32 code units, not 36. *)
Lemma readManifest_appID_has_32_units :
  readManifest parseValue stringifyValue randomZero true
               (mkWorld (Some (JObj [])) None 0 [])
  = Returns
      (mkWorld
         (Some (JObj [(lit "appID", JStr (lit "10000000100040008000100000000000"))]))
         (Some (JObj [(lit "appID", JStr (lit "10000000100040008000100000000000"))]))
         31
         [WriteFileSync
            (JObj [(lit "appID", JStr (lit "10000000100040008000100000000000"))]);
          Callback
            (CbManifest
               (Some (JObj [(lit "appID",
                             JStr (lit "10000000100040008000100000000000"))])))])
  /\ List.length (lit "10000000100040008000100000000000") <> 36.
Proof. split; vm_compute; [reflexivity|discriminate]. Qed.

Lemma readManifest_heals_appID_witness :
  (forall b j, parseValue (stringifyValue b j) = Some j)
  /\ (forall k, (randomZero k < 16)%N)
  /\ file (mkWorld (Some (JObj [])) None 0 []) = Some (JObj [])
  /\ parseValue (JObj []) = Some (JObj [])
  /\ lookup (lit "appID") [] = None
  /\ exists id w1 w2,
       List.length id = 32
       /\ readManifest parseValue stringifyValue randomZero true
                       (mkWorld (Some (JObj [])) None 0 []) = Returns w1
       /\ manifest w1 = Some (JObj (setProp [] (lit "appID") (JStr id)))
       /\ file w1
          = Some (serializeConfig stringifyValue
                    (JObj (setProp [] (lit "appID") (JStr id))))
       /\ trace w1
          = [] ++ WriteFileSync
                    (serializeConfig stringifyValue
                       (JObj (setProp [] (lit "appID") (JStr id))))
               :: [Callback (CbManifest (manifest w1))]
       /\ readManifest parseValue stringifyValue randomZero true w1 = Returns w2
       /\ manifest w2 = manifest w1
       /\ file w2 = file w1
       /\ trace w2 = trace w1 ++ [Callback (CbManifest (manifest w1))]
       /\ getProp (manifest w2) (lit "appID") = Returns (Some (JStr id)).
Proof.
  split; [reflexivity|]. split; [reflexivity|]. split; [reflexivity|].
  split; [reflexivity|]. split; [reflexivity|].
  apply (@readManifest_heals_appID json parseValue stringifyValue randomZero
           (fun b j => eq_refl) (fun k => eq_refl) true
           (mkWorld (Some (JObj [])) None 0 []) (JObj []) []);
    [reflexivity|reflexivity|left; reflexivity].
Defined.

(** C8 fails on the code for an existing key [__proto__]: [augment] copies
    by assignment, [a[k] = b[k]], and on the skeleton, which has no own
    property of that name, the assignment runs the setter of
    [Object.prototype] and adds no property.  The manifest that is saved has
    the defaults of the skeleton under the title of the existing manifest,
    which wins over the option, but not the key [__proto__] of the existing
    manifest. *)
Theorem populateManifest_drops_proto_key :
  let existing := [(lit "__proto__", JNum 5); (lit "title", JStr (lit "X"))] in
  let saved :=
    [ (lit "appID", JStr (lit "10000000100040008000100000000000"));
      (lit "shortName", JStr []);
      (lit "title", JStr (lit "X"));
      (lit "studio",
       JObj [ (lit "name", JStr (lit "Your Studio Name"));
              (lit "domain", JStr (lit "studio.example.com"));
              (lit "stagingDomain", JStr (lit "staging.example.com")) ]);
      (lit "supportedOrientations",
       JArr [ JStr (lit "portrait"); JStr (lit "landscape") ]) ] in
  populateManifest parseValue stringifyValue randomZero
                   (Some (JObj [(lit "title", JStr (lit "Y"))]))
                   (mkWorld (@None json) (Some (JObj existing)) 0 [])
  = Returns (mkWorld None (Some (JObj saved)) 31 [WriteFile (JObj saved)])
  /\ lookup (lit "title") saved = lookup (lit "title") existing
  /\ lookup (lit "__proto__") existing = Some (JNum 5)
  /\ lookup (lit "__proto__") saved = None.
Proof. repeat split; vm_compute; reflexivity. Qed.

(** * Further properties *)

Unset Implicit Arguments.

(** ** The sanitizer, line by line *)

Lemma test_reHash s : test reHash s = isHash s.
Proof.
  unfold test. rewrite (@exec_anchored reHash s (word "#")) by reflexivity.
  destruct s as [|c s]; [reflexivity|].
  unfold matchAt. cbn. destruct (N.eqb c 35); reflexivity.
Qed.

Lemma canonicalize_slash a :
  N.eqb (canonicalize true a) (canonicalize true 47) = N.eqb a 47.
Proof.
  change (canonicalize true 47) with 47%N. unfold canonicalize, toUpper.
  destruct (N.leb 97 a && N.leb a 122) eqn:E; [|reflexivity].
  apply andb_prop in E. destruct E as [E1 E2]. apply N.leb_le in E1, E2.
  destruct (N.eqb_spec (a - 32) 47) as [H|H];
    destruct (N.eqb_spec a 47) as [H'|H']; try reflexivity; lia.
Qed.

(** A line that [reMaskedImportLine] matches begins with the mask. *)
Lemma unmask_match_slashes l :
  succeeds (matchAt true true l (pattern reMaskedImportLine) 0) = true ->
  exists l', l = 47%N :: 47%N :: l'.
Proof.
  intros H.
  destruct l as [|a [|b l']].
  - vm_compute in H. discriminate H.
  - exfalso. unfold matchAt in H. cbn [pattern reMaskedImportLine seqs] in H.
    cbn [rmatch endIndex atLineStart] in H.
    change (word "//") with (Seq (Chr 47) (Chr 47)) in H. cbn [rmatch] in H.
    cbn [nth_error endIndex] in H. rewrite canonicalize_slash in H.
    destruct (N.eqb a 47); [|discriminate H].
    cbn [nth_error endIndex] in H. discriminate H.
  - unfold matchAt in H. cbn [pattern reMaskedImportLine seqs] in H.
    cbn [rmatch endIndex atLineStart] in H.
    change (word "//") with (Seq (Chr 47) (Chr 47)) in H. cbn [rmatch] in H.
    cbn [nth_error endIndex] in H. rewrite canonicalize_slash in H.
    destruct (N.eqb_spec a 47) as [->|]; [|discriminate H].
    cbn [nth_error endIndex] in H. rewrite canonicalize_slash in H.
    destruct (N.eqb_spec b 47) as [->|]; [|discriminate H].
    now exists l'.
Qed.

Lemma maskLine_maskedOf l : maskedOf l (maskLine l).
Proof.
  unfold maskLine, maskedOf. destruct (succeeds _); [now right|now left].
Qed.

Lemma unmaskLine_maskedOf l : maskedOf (unmaskLine l) l.
Proof.
  unfold unmaskLine, maskedOf.
  destruct (succeeds (matchAt true true l (pattern reMaskedImportLine) 0)) eqn:E;
    [|now left].
  destruct (unmask_match_slashes l E) as [l' ->]. now right.
Qed.

Lemma maskLine_masked_hash l :
  maskLine (47%N :: 47%N :: 35%N :: l) = 47%N :: 47%N :: 35%N :: l.
Proof.
  unfold maskLine.
  replace (matchAt true true (47%N :: 47%N :: 35%N :: l) (pattern reImportLine) 0)
    with (@None state); [reflexivity|].
  vm_compute. reflexivity.
Qed.

Lemma unmaskLine_hash l : unmaskLine (35%N :: l) = 35%N :: l.
Proof.
  unfold unmaskLine.
  replace (matchAt true true (35%N :: l) (pattern reMaskedImportLine) 0)
    with (@None state); [reflexivity|].
  vm_compute. reflexivity.
Qed.

Lemma first_line_masked l : maskedOf l (maskLine (maskHash l)).
Proof.
  unfold maskHash. destruct (isHash l) eqn:E; [|apply maskLine_maskedOf].
  destruct l as [|c l]; [discriminate E|]. cbn [isHash] in E.
  apply N.eqb_eq in E. subst c.
  change (lit "//" ++ 35%N :: l) with (47%N :: 47%N :: 35%N :: l).
  rewrite maskLine_masked_hash. now right.
Qed.

Lemma first_line_unmasked l : maskedOf (unmaskLine (unmaskHash l)) l.
Proof.
  unfold unmaskHash. destruct (isMaskedHash l) eqn:E; [|apply unmaskLine_maskedOf].
  destruct l as [|a [|b [|c l]]]; try discriminate E. cbn [isMaskedHash] in E.
  apply andb_prop in E. destruct E as [E Ec].
  apply andb_prop in E. destruct E as [Ea Eb].
  apply N.eqb_eq in Ea, Eb, Ec. subst a b c.
  cbn [skipn]. rewrite unmaskLine_hash. now right.
Qed.

Lemma isLine_unmaskLine l : isLine l -> isLine (unmaskLine l).
Proof.
  intros H. unfold unmaskLine.
  destruct (succeeds _); [now apply isLine_skipn|exact H].
Qed.

Lemma sanitizeCode_join l0 rest :
  areLines l0 rest ->
  sanitizeCode (join l0 rest)
  = join (maskLine (maskHash l0)) (onLines maskLine rest).
Proof.
  intros Hl. unfold sanitizeCode.
  rewrite replace_reHash, (maskHash_join l0 rest Hl).
  apply mask_lines. apply areLines_first; [exact isLine_maskHash|exact Hl].
Qed.

Lemma unsanitizeCode_join l0 rest :
  areLines l0 rest ->
  unsanitizeCode (join l0 rest)
  = join (unmaskLine (unmaskHash l0)) (onLines unmaskLine rest).
Proof.
  intros Hl. unfold unsanitizeCode.
  rewrite replace_reMaskedHash, (unmaskHash_join l0 rest Hl).
  apply unmask_lines. apply areLines_first; [exact isLine_unmaskHash|exact Hl].
Qed.

Lemma areLines_sanitized l0 rest :
  areLines l0 rest ->
  areLines (maskLine (maskHash l0)) (onLines maskLine rest).
Proof.
  intros Hl. apply areLines_onLines; [exact isLine_maskLine|].
  apply areLines_first; [exact isLine_maskLine|].
  apply areLines_first; [exact isLine_maskHash|exact Hl].
Qed.

Lemma areLines_unsanitized l0 rest :
  areLines l0 rest ->
  areLines (unmaskLine (unmaskHash l0)) (onLines unmaskLine rest).
Proof.
  intros Hl. apply areLines_onLines; [exact isLine_unmaskLine|].
  apply areLines_first; [exact isLine_unmaskLine|].
  apply areLines_first; [exact isLine_unmaskHash|exact Hl].
Qed.

(** X1: [sanitizeCode] works line by line: the text keeps its line terminators
    and the number of its lines, and every line comes back as it is or
    behind one [//]. *)
Theorem sanitizeCode_line_by_line l0 rest :
  areLines l0 rest ->
  sanitizeCode (join l0 rest)
  = join (maskLine (maskHash l0)) (onLines maskLine rest)
  /\ areLines (maskLine (maskHash l0)) (onLines maskLine rest)
  /\ maskedOf l0 (maskLine (maskHash l0))
  /\ Forall (fun tl => maskedOf (snd tl) (maskLine (snd tl))) rest.
Proof.
  intros Hl. split; [now apply sanitizeCode_join|].
  split; [now apply areLines_sanitized|].
  split; [apply first_line_masked|].
  apply Forall_forall. intros tl _. apply maskLine_maskedOf.
Qed.

Lemma sanitizeCode_line_by_line_witness :
  areLines (lit "#define A") [(LF, lit "import a.b;"); (LF, lit "x = 1;")]
  /\ sanitizeCode (join (lit "#define A")
                        [(LF, lit "import a.b;"); (LF, lit "x = 1;")])
     = join (maskLine (maskHash (lit "#define A")))
            (onLines maskLine [(LF, lit "import a.b;"); (LF, lit "x = 1;")])
  /\ areLines (maskLine (maskHash (lit "#define A")))
              (onLines maskLine [(LF, lit "import a.b;"); (LF, lit "x = 1;")])
  /\ maskedOf (lit "#define A") (maskLine (maskHash (lit "#define A")))
  /\ Forall (fun tl => maskedOf (snd tl) (maskLine (snd tl)))
            [(LF, lit "import a.b;"); (LF, lit "x = 1;")].
Proof.
  assert (H : areLines (lit "#define A")
                       [(LF, lit "import a.b;"); (LF, lit "x = 1;")]).
  { split; repeat constructor. }
  split; [exact H|].
  exact (sanitizeCode_line_by_line (lit "#define A")
           [(LF, lit "import a.b;"); (LF, lit "x = 1;")] H).
Defined.

(** X2: [unsanitizeCode] works line by line too: every line comes back as it
    is or without the [//] it began with. *)
Theorem unsanitizeCode_line_by_line l0 rest :
  areLines l0 rest ->
  unsanitizeCode (join l0 rest)
  = join (unmaskLine (unmaskHash l0)) (onLines unmaskLine rest)
  /\ areLines (unmaskLine (unmaskHash l0)) (onLines unmaskLine rest)
  /\ maskedOf (unmaskLine (unmaskHash l0)) l0
  /\ Forall (fun tl => maskedOf (unmaskLine (snd tl)) (snd tl)) rest.
Proof.
  intros Hl. split; [now apply unsanitizeCode_join|].
  split; [now apply areLines_unsanitized|].
  split; [apply first_line_unmasked|].
  apply Forall_forall. intros tl _. apply unmaskLine_maskedOf.
Qed.

Lemma unsanitizeCode_line_by_line_witness :
  areLines (lit "//#define A") [(LF, lit "//import a.b;"); (LF, lit "x = 1;")]
  /\ unsanitizeCode (join (lit "//#define A")
                          [(LF, lit "//import a.b;"); (LF, lit "x = 1;")])
     = join (unmaskLine (unmaskHash (lit "//#define A")))
            (onLines unmaskLine [(LF, lit "//import a.b;"); (LF, lit "x = 1;")])
  /\ areLines (unmaskLine (unmaskHash (lit "//#define A")))
              (onLines unmaskLine [(LF, lit "//import a.b;"); (LF, lit "x = 1;")])
  /\ maskedOf (unmaskLine (unmaskHash (lit "//#define A"))) (lit "//#define A")
  /\ Forall (fun tl => maskedOf (unmaskLine (snd tl)) (snd tl))
            [(LF, lit "//import a.b;"); (LF, lit "x = 1;")].
Proof.
  assert (H : areLines (lit "//#define A")
                       [(LF, lit "//import a.b;"); (LF, lit "x = 1;")]).
  { split; repeat constructor. }
  split; [exact H|].
  exact (unsanitizeCode_line_by_line (lit "//#define A")
           [(LF, lit "//import a.b;"); (LF, lit "x = 1;")] H).
Defined.

(** ** What the sanitizer leaves *)

Section AllLines.

Variables (ic : bool) (body : regex).
Hypothesis body_shape : shape ic body body.

(** When the pattern matches none of the lines taken alone, it matches
    nowhere in the text. *)
Lemma lines_fail_everywhere :
  forall rest l0 pre,
    areLines l0 rest ->
    atLineStart true (pre ++ join l0 rest) (List.length pre) = true ->
    succeeds (matchAt ic true l0 (Seq Bol body) 0) = false ->
    Forall (fun tl => succeeds (matchAt ic true (snd tl) (Seq Bol body) 0) = false)
           rest ->
    forall p, List.length pre <= p ->
              matchAt ic true (pre ++ join l0 rest) (Seq Bol body) p = None.
Proof.
  induction rest as [|[t l] rest IH];
    intros l0 pre [Hl0 Hrest] Hstart Hfail0 Hfail p Hp.
  - cbn [join] in *.
    assert (Hs : pre ++ l0 = pre ++ l0 ++ []) by now rewrite app_nil_r.
    assert (Hend : lineEndAt (pre ++ l0 ++ []) (List.length pre + List.length l0)).
    { unfold lineEndAt. rewrite app_nil_r.
      replace (nth_error (pre ++ l0) (List.length pre + List.length l0))
        with (@None N); [exact I|].
      symmetry. apply nth_error_None. rewrite length_app. lia. }
    destruct (Nat.eq_dec p (List.length pre)) as [->|Hne].
    + pose proof (match_alone_shape ic body body_shape pre l0 [] Hend) as Halone.
      rewrite <- Hs in Halone. specialize (Halone Hstart).
      rewrite Hfail0 in Halone.
      destruct (matchAt ic true (pre ++ l0) (Seq Bol body) (List.length pre));
        [discriminate Halone|reflexivity].
    + destruct (Nat.le_gt_cases p (List.length pre + List.length l0)) as [Hin|Hout].
      * rewrite Hs.
        apply (inside_line_fails (mkRegExp (Seq Bol body) ic true false) body
                 eq_refl eq_refl pre l0 [] p Hl0). lia.
      * apply matchAt_not_lineStart. destruct p as [|p]; [lia|].
        cbn [atLineStart andb]. unfold charIs.
        replace (nth_error (pre ++ l0) p) with (@None N); [reflexivity|].
        symmetry. apply nth_error_None. rewrite length_app. lia.
  - inversion Hrest as [|? ? [Ht Hl] Hrest']; subst. cbn [fst snd] in Ht, Hl.
    inversion Hfail as [|? ? Hfail1 Hfail']; subst. cbn [snd] in Hfail1.
    cbn [join] in *.
    set (s := pre ++ l0 ++ t :: join l rest) in *.
    assert (Ht_at : nth_error s (List.length pre + List.length l0) = Some t).
    { unfold s. rewrite nth_error_app2 by lia. rewrite nth_error_app2 by lia.
      replace (List.length pre + List.length l0 - List.length pre - List.length l0)
        with 0 by lia. reflexivity. }
    assert (Hend : lineEndAt s (List.length pre + List.length l0)).
    { unfold lineEndAt. now rewrite Ht_at. }
    destruct (Nat.eq_dec p (List.length pre)) as [->|Hne].
    + pose proof (match_alone_shape ic body body_shape pre l0 (t :: join l rest)
                    Hend Hstart) as Halone.
      fold s in Halone. rewrite Hfail0 in Halone.
      destruct (matchAt ic true s (Seq Bol body) (List.length pre));
        [discriminate Halone|reflexivity].
    + destruct (Nat.le_gt_cases p (List.length pre + List.length l0)) as [Hin|Hout].
      * apply (inside_line_fails (mkRegExp (Seq Bol body) ic true false) body
                 eq_refl eq_refl pre l0 (t :: join l rest) p Hl0). lia.
      * assert (Hs' : s = (pre ++ l0 ++ [t]) ++ join l rest).
        { unfold s. now rewrite <- !app_assoc. }
        assert (Hpre' : List.length (pre ++ l0 ++ [t])
                        = S (List.length pre + List.length l0)).
        { rewrite !length_app. simpl. lia. }
        pose proof (IH l (pre ++ l0 ++ [t])) as IH'.
        rewrite <- Hs', Hpre' in IH'. apply IH'.
        -- now split.
        -- cbn [atLineStart andb]. unfold charIs. now rewrite Ht_at.
        -- exact Hfail1.
        -- exact Hfail'.
        -- lia.
Qed.

End AllLines.

Lemma test_of_lines re body l0 rest :
  pattern re = Seq Bol body -> flagM re = true ->
  shape (flagI re) body body ->
  areLines l0 rest ->
  succeeds (matchAt (flagI re) true l0 (Seq Bol body) 0) = false ->
  Forall (fun tl => succeeds (matchAt (flagI re) true (snd tl) (Seq Bol body) 0)
                    = false) rest ->
  test re (join l0 rest) = false.
Proof.
  intros Hp Hm Hsh Hl H0 Hrest. unfold test, exec.
  rewrite (@firstMatch_none re (join l0 rest)); [reflexivity|].
  intros i _. rewrite Hp, Hm.
  apply (lines_fail_everywhere (flagI re) body Hsh rest l0 [] Hl);
    [reflexivity|exact H0|exact Hrest|simpl; lia].
Qed.

(** [.*] followed by [$] succeeds from every place of a line. *)
Lemma dotstar_to_end ic l c :
  isLine l ->
  (forall y, endIndex y = List.length l -> succeeds (c y) = true) ->
  forall n x, List.length l - endIndex x = n -> endIndex x <= List.length l ->
              succeeds (rmatch ic true l (Star (Cls dot)) c x) = true.
Proof.
  intros Hl Hc. induction n as [|n IH]; intros x Hn Hle.
  - apply rmatch_Rep_skip. apply Hc. lia.
  - unfold Star. cbn [rmatch]. rewrite repeatMatcher_S. cbn [Nat.eqb negb].
    apply succeeds_orelse_l. cbn [rmatch groups clear endIndex].
    destruct (nth_error l (endIndex x)) as [ch|] eqn:E.
    2:{ apply nth_error_None in E. lia. }
    assert (Hdot : classHolds ic dot ch = true).
    { unfold classHolds, dot. rewrite (isLine_nth l _ ch Hl E).
      destruct ic; reflexivity. }
    rewrite Hdot. unfold repeatCont. cbn [endIndex].
    replace (Nat.eqb (S (endIndex x)) (endIndex x)) with false
      by (symmetry; apply Nat.eqb_neq; lia).
    rewrite andb_false_r. cbn [pred_max Nat.pred]. rewrite Hn.
    change (0 + S n) with (S n).
    specialize (IH (mkState (S (endIndex x)) (captures (clear [] x)))).
    unfold Star in IH. cbn [rmatch groups endIndex] in IH.
    replace (0 + (List.length l - S (endIndex x))) with n in IH by lia.
    apply IH; lia.
Qed.

Lemma importBody_shape : shape true importBody importBody.
Proof. unfold importBody. shape_of. Qed.

(** A line that begins with an import is a line [reImportLine] matches. *)
Lemma import_start_masked l :
  isLine l ->
  succeeds (matchAt true true l (Seq Bol importBody) 0) = true ->
  succeeds (matchAt true true l (pattern reImportLine) 0) = true.
Proof.
  intros Hl H.
  set (x0 := mkState 0 []).
  set (c1 := fun y : state =>
               rmatch true true l Eol (fun y => Some y)
                      (setCapture 1 (endIndex x0) (endIndex y) y)).
  set (kc := fun y : state =>
               rmatch true true l
                      (Seq (Grp 3 keyword) (Seq Wb (Star (Cls dot)))) c1 y).
  change (succeeds
            (rmatch true true l (Star (Cls blank))
                    (fun z => rmatch true true l keyword
                                (fun u => rmatch true true l Wb (fun y => Some y) u)
                                z)
                    x0) = true) in H.
  match type of H with
  | succeeds ?t = true => destruct t as [w|] eqn:E; [|discriminate H]
  end.
  apply rmatch_replays in E. destruct E as [z [Hz [[_ Hin] Hre]]].
  specialize (Hin (Nat.le_0_l _)).
  change (succeeds
            (rmatch true true l (Star (Cls blank))
                    (fun z => rmatch true true l (Opt (Grp 2 (word "//"))) kc z)
                    x0) = true).
  apply Hre. apply rmatch_Rep_skip.
  change (succeeds
            (rmatch true true l (Grp 3 keyword)
                    (fun u => rmatch true true l Wb
                                (fun v => rmatch true true l (Star (Cls dot)) c1 v)
                                u)
                    z) = true).
  apply (same_text true l keyword (Grp 3 keyword)
           (fun u => rmatch true true l Wb (fun y => Some y) u) _ z z);
    [shape_of|reflexivity|exact Hin| |now rewrite Hz].
  intros y y' Hy Hyl _.
  apply same_text; [shape_of|exact Hy|exact Hyl|].
  intros v v' Hv Hvl _ _.
  apply (dotstar_to_end true l c1 Hl) with (n := List.length l - endIndex v');
    [|reflexivity|lia].
  intros u Hu. unfold c1. cbn [rmatch]. unfold atLineEnd.
  replace (List.length l <=? endIndex (setCapture 1 (endIndex x0) (endIndex u) u))
    with true; [reflexivity|].
  symmetry. apply Nat.leb_le. simpl. lia.
Qed.

Lemma slashes_no_import l :
  succeeds (matchAt true true (47%N :: 47%N :: l) (Seq Bol importBody) 0) = false.
Proof.
  replace (matchAt true true (47%N :: 47%N :: l) (Seq Bol importBody) 0)
    with (@None state); [reflexivity|].
  vm_compute. reflexivity.
Qed.

Lemma maskLine_no_import l :
  isLine l ->
  succeeds (matchAt true true (maskLine l) (Seq Bol importBody) 0) = false.
Proof.
  intros Hl. unfold maskLine.
  destruct (succeeds (matchAt true true l (pattern reImportLine) 0)) eqn:E.
  - apply slashes_no_import.
  - destruct (succeeds (matchAt true true l (Seq Bol importBody) 0)) eqn:E';
      [|reflexivity].
    rewrite (import_start_masked l Hl E') in E. discriminate E.
Qed.

Lemma isHash_first_line l : isHash (maskLine (maskHash l)) = false.
Proof.
  unfold maskHash. destruct (isHash l) eqn:E.
  - destruct l as [|c l]; [discriminate E|]. cbn [isHash] in E.
    apply N.eqb_eq in E. subst c.
    change (lit "//" ++ 35%N :: l) with (47%N :: 47%N :: 35%N :: l).
    now rewrite maskLine_masked_hash.
  - unfold maskLine. destruct (succeeds _); [reflexivity|exact E].
Qed.

(** X3: What [sanitizeCode] is for: the text it returns does not start with
    [#], and none of its lines begins, after blanks, with the word
    [import] or [from], in any case of the letters. *)
Theorem sanitizeCode_masks_all code :
  test reHash (sanitizeCode code) = false
  /\ test reImportStart (sanitizeCode code) = false.
Proof.
  destruct (lines_of code) as [l0 [rest [-> Hl]]].
  rewrite (sanitizeCode_join l0 rest Hl).
  pose proof (areLines_sanitized l0 rest Hl) as Hl'.
  split.
  - rewrite test_reHash, (isHash_join _ _ Hl'). apply isHash_first_line.
  - apply (test_of_lines reImportStart importBody _ _ eq_refl eq_refl
             importBody_shape Hl').
    + apply maskLine_no_import. apply isLine_maskHash. exact (proj1 Hl).
    + unfold onLines. apply Forall_map. destruct Hl as [_ Hrest].
      eapply Forall_impl; [|exact Hrest].
      intros [t l] [_ Hline]. cbn [fst snd] in *. now apply maskLine_no_import.
Qed.

(** ** What walking a script leaves of it *)

Section ScriptFiles.

Variable node : Type.
Variable falafel : jsstring -> falafelResult node.

Lemma fold_node_events (evs : list node) (f : jsval) :
  fold_left (fun f e =>
               match e with
               | EndEvent c => Some c
               | _ => f
               end) (map (@NodeEvent node) evs) f = f.
Proof. revert f. induction evs as [|e evs IH]; intros f; [reflexivity|apply IH]. Qed.

(** X4: [rewriteScript] leaves the file as it was.  When the engine parses
    the file it returns its output object, [unsanitizeCode(out)] throws a
    TypeError outside of the [try], and after the events of the nodes
    ['end'] is never emitted: nothing is written.  When the engine throws,
    what is written is [unsanitizeCode] of the text that was read, which is
    that text when it does not start with [//#] and none of its lines looks
    masked. *)
Theorem rewriteScript_leaves_file src :
  (forall visited out,
      falafel (sanitizeCode src) = Output visited out ->
      walkScript falafel (Some src)
      = Returns (map (@NodeEvent node) visited ++ [Uncaught TypeError])
      /\ rewriteScript falafel (Some src) = Returns (Some src))
  /\ (test reMaskedHash src = false ->
      test reMaskedImportLine src = false ->
      rewriteScript falafel (Some src) = Returns (Some src)).
Proof.
  assert (Hparsed : forall visited out,
             falafel (sanitizeCode src) = Output visited out ->
             walkScript falafel (Some src)
             = Returns (map (@NodeEvent node) visited ++ [Uncaught TypeError])
             /\ rewriteScript falafel (Some src) = Returns (Some src)).
  { intros visited out Hf.
    assert (Hw : walkScript falafel (Some src)
                 = Returns (map (@NodeEvent node) visited
                            ++ [Uncaught TypeError])).
    { unfold walkScript. now rewrite Hf. }
    split; [exact Hw|].
    unfold rewriteScript. rewrite Hw. cbn [bind].
    rewrite fold_left_app, fold_node_events. reflexivity. }
  split; [exact Hparsed|].
  intros HM HU.
  destruct (falafel (sanitizeCode src)) as [visited|visited out] eqn:Hf.
  - unfold rewriteScript. rewrite (@walkScript_fallback node falafel src visited Hf). cbn [bind].
    rewrite fold_left_app, fold_node_events. cbn [fold_left].
    rewrite unsanitizeCode_unmasked; [reflexivity|exact HM|].
    unfold test in HU.
    destruct (exec reMaskedImportLine src 0); [discriminate HU|reflexivity].
  - now apply (Hparsed visited out).
Qed.

End ScriptFiles.

Lemma rewriteScript_leaves_file_witness :
  (fun s : jsstring => Output [tt] s) (sanitizeCode (lit "//import foo;"))
  = Output [tt] (sanitizeCode (lit "//import foo;"))
  /\ walkScript (fun s : jsstring => Output [tt] s) (Some (lit "//import foo;"))
     = Returns (map (@NodeEvent unit) [tt] ++ [Uncaught TypeError])
  /\ rewriteScript (fun s : jsstring => Output [tt] s)
                   (Some (lit "//import foo;"))
     = Returns (Some (lit "//import foo;"))
  /\ test reMaskedHash sampleText = false
  /\ test reMaskedImportLine sampleText = false
  /\ rewriteScript (fun _ : jsstring => Threw (@nil unit)) (Some sampleText)
     = Returns (Some sampleText).
Proof.
  pose proof (rewriteScript_leaves_file unit (fun s : jsstring => Output [tt] s)
                (lit "//import foo;")) as [Hparsed _].
  pose proof (rewriteScript_leaves_file unit
                (fun _ : jsstring => Threw (@nil unit)) sampleText)
    as [_ Hkept].
  split; [reflexivity|].
  destruct (Hparsed [tt] (sanitizeCode (lit "//import foo;")) eq_refl)
    as [Hw Hr].
  split; [exact Hw|]. split; [exact Hr|].
  split; [reflexivity|]. split; [reflexivity|].
  apply Hkept; reflexivity.
Defined.

(** ** The shape of the identifiers *)

Section UuidShape.

Variable random16 : nat -> N.
Hypothesis random16_range : forall k, (random16 k < 16)%N.

(** The global replacement of [createUUID] goes through the template
    digit by digit. *)
Lemma createUUID_fill depth k :
  createUUID random16 (S depth) None k
  = Returns (uuidFill random16 uuidTemplate k, 31 + k).
Proof.
  destruct depth as [|depth]; vm_compute; reflexivity.
Qed.

(** The digit made of 0, 1 or 8 is one hexadecimal digit; the one made of
    8 is 8, 9, a or b. *)
Lemma uuidDigit_hex c k :
  isUuidDigit (Some [c]) = true ->
  exists d, uuidDigit random16 [c] k = [d]
            /\ isLowerHex d = true
            /\ (c = 56%N -> d = 56%N \/ d = 57%N \/ d = 97%N \/ d = 98%N).
Proof.
  intros Ha. unfold uuidDigit. generalize (random16_range k).
  generalize (random16 k). intros t Ht.
  assert (Hin : In t (map N.of_nat (seq 0 16))).
  { rewrite <- (N2Nat.id t). apply in_map. apply in_seq. lia. }
  simpl in Ha.
  assert (Hc : c = 48%N \/ c = 49%N \/ c = 56%N).
  { destruct (N.eqb_spec c 48); [auto|]. destruct (N.eqb_spec c 49); [auto|].
    destruct (N.eqb_spec c 56); [auto|discriminate Ha]. }
  simpl in Hin.
  destruct Hc as [->|[->| ->]];
    repeat (destruct Hin as [<-|Hin];
            [eexists; split; [vm_compute; reflexivity|];
             split; [reflexivity|]; intros H56;
             first [discriminate H56|vm_compute; tauto]|]);
    contradiction.
Qed.

Lemma uuidFill_length t : forall k, List.length (uuidFill random16 t k) = List.length t.
Proof.
  induction t as [|c t IH]; intros k; [reflexivity|]. cbn [uuidFill].
  destruct (isUuidDigit (Some [c])) eqn:E.
  - destruct (uuidDigit_hex c k E) as [d [-> _]]. simpl. now rewrite IH.
  - simpl. now rewrite IH.
Qed.

Lemma uuidFill_nth t :
  forall k i c,
    nth_error t i = Some c ->
    exists d, nth_error (uuidFill random16 t k) i = Some d
              /\ (isUuidDigit (Some [c]) = false -> d = c)
              /\ (c = 56%N -> d = 56%N \/ d = 57%N \/ d = 97%N \/ d = 98%N).
Proof.
  induction t as [|c0 t IH]; intros k i c Hi; [destruct i; discriminate Hi|].
  cbn [uuidFill]. destruct i as [|i].
  - cbn [nth_error] in Hi. inversion Hi; subst c0.
    destruct (isUuidDigit (Some [c])) eqn:E.
    + destruct (uuidDigit_hex c k E) as [d [-> [_ H8]]].
      exists d. split; [reflexivity|]. split; [discriminate|exact H8].
    + exists c. split; [reflexivity|]. split; [reflexivity|].
      intros ->. discriminate E.
  - cbn [nth_error] in Hi.
    destruct (isUuidDigit (Some [c0])) eqn:E.
    + destruct (uuidDigit_hex c0 k E) as [d [-> _]]. apply (IH (S k) i c Hi).
    + apply (IH k i c Hi).
Qed.

Lemma uuidFill_hex t :
  Forall (fun c => isLowerHex c = true) t ->
  forall k, Forall (fun d => isLowerHex d = true) (uuidFill random16 t k).
Proof.
  induction 1 as [|c t Hc _ IH]; intros k; [constructor|]. cbn [uuidFill].
  destruct (isUuidDigit (Some [c])) eqn:E.
  - destruct (uuidDigit_hex c k E) as [d [-> [Hd _]]]. constructor; [exact Hd|apply IH].
  - constructor; [exact Hc|apply IH].
Qed.

(** X5: [createUUID()] returns 32 hexadecimal digits in lower case, the digit
    at index 12 is 4 and the digit at index 16 is 8, 9, a or b: a version 4
    UUID written without its hyphens.  It draws 31 random numbers. *)
Theorem createUUID_shape depth k :
  exists id,
    createUUID random16 (S depth) None k = Returns (id, 31 + k)
    /\ List.length id = 32
    /\ Forall (fun d => isLowerHex d = true) id
    /\ nth_error id 12 = Some 52%N
    /\ exists d, nth_error id 16 = Some d
                 /\ (d = 56%N \/ d = 57%N \/ d = 97%N \/ d = 98%N).
Proof.
  exists (uuidFill random16 uuidTemplate k).
  split; [apply createUUID_fill|].
  split; [now rewrite uuidFill_length|].
  split.
  { apply uuidFill_hex. apply Forall_forall. intros c Hc.
    vm_compute in Hc. intuition (subst; reflexivity). }
  split.
  - destruct (uuidFill_nth uuidTemplate k 12 52%N eq_refl) as [d [Hd [Hsame _]]].
    rewrite Hd. now rewrite (Hsame eq_refl).
  - destruct (uuidFill_nth uuidTemplate k 16 56%N eq_refl) as [d [Hd [_ H8]]].
    exists d. split; [exact Hd|now apply H8].
Qed.

End UuidShape.

Lemma createUUID_shape_witness :
  (forall k, (randomZero k < 16)%N)
  /\ exists id,
       createUUID randomZero 1 None 0 = Returns (id, 31 + 0)
       /\ List.length id = 32
       /\ Forall (fun d => isLowerHex d = true) id
       /\ nth_error id 12 = Some 52%N
       /\ exists d, nth_error id 16 = Some d
                    /\ (d = 56%N \/ d = 57%N \/ d = 97%N \/ d = 98%N).
Proof.
  split; [reflexivity|].
  exact (createUUID_shape randomZero (fun k => eq_refl) 0 0).
Defined.

(** ** The manifest, read and kept *)

Lemma str_eqb_neq a b : a <> b -> str_eqb a b = false.
Proof.
  intros H. destruct (str_eqb a b) eqn:E; [|reflexivity].
  apply str_eqb_eq in E. contradiction.
Qed.

Lemma lookup_assign_same kvs k v :
  lookup k (assign kvs k v)
  = match lookup k kvs with
    | Some _ => Some v
    | None => if str_eqb k (lit "__proto__") then None else Some v
    end.
Proof.
  unfold assign. destruct (lookup k kvs) as [x|] eqn:E.
  - apply lookup_setProp_same.
  - destruct (str_eqb k (lit "__proto__")); [exact E|].
    apply lookup_setProp_same.
Qed.

Lemma lookup_assign_other kvs k k' v :
  k <> k' -> lookup k (assign kvs k' v) = lookup k kvs.
Proof.
  intros H. unfold assign.
  destruct (lookup k' kvs); [now apply lookup_setProp_other|].
  destruct (str_eqb k' (lit "__proto__")); [reflexivity|].
  now apply lookup_setProp_other.
Qed.

(** [augment(a, b)] is [a] with the own properties of [b] laid over it, but
    for a key [__proto__] of [b] that [a] does not have. *)
Lemma lookup_augment a b k :
  lookup k (augment a b)
  = match lookup k (ownProps b), lookup k a with
    | Some v, Some _ => Some v
    | Some v, None => if str_eqb k (lit "__proto__") then None else Some v
    | None, x => x
    end.
Proof.
  unfold augment.
  assert (Hgen : forall ks acc,
             lookup k (fold_left
                         (fun acc k0 =>
                            match lookup k0 (ownProps b) with
                            | Some v0 => assign acc k0 v0
                            | None => acc
                            end) ks acc)
             = if existsb (str_eqb k) ks
               then match lookup k (ownProps b), lookup k acc with
                    | Some v, Some _ => Some v
                    | Some v, None =>
                        if str_eqb k (lit "__proto__") then None else Some v
                    | None, x => x
                    end
               else lookup k acc).
  { induction ks as [|k1 ks IH]; intros acc; [reflexivity|].
    cbn [fold_left existsb]. rewrite IH.
    destruct (str_eqb k k1) eqn:E.
    - apply str_eqb_eq in E. subst k1. cbn [orb].
      destruct (lookup k (ownProps b)) as [v|] eqn:Hb.
      + rewrite lookup_assign_same.
        destruct (lookup k acc) as [x|];
          destruct (str_eqb k (lit "__proto__"));
          now destruct (existsb (str_eqb k) ks).
      + now destruct (existsb (str_eqb k) ks).
    - cbn [orb].
      assert (Hacc : lookup k (match lookup k1 (ownProps b) with
                               | Some v0 => assign acc k1 v0
                               | None => acc
                               end) = lookup k acc).
      { destruct (lookup k1 (ownProps b)); [|reflexivity].
        apply lookup_assign_other. intros ->. rewrite str_eqb_refl in E.
        discriminate E. }
      now rewrite Hacc. }
  rewrite Hgen.
  destruct (existsb (str_eqb k) (map fst (ownProps b))) eqn:E; [reflexivity|].
  destruct (lookup k (ownProps b)) as [v|] eqn:Hb; [|reflexivity].
  apply lookup_in_keys in Hb.
  assert (Hex : existsb (str_eqb k) (map fst (ownProps b)) = true).
  { apply existsb_exists. exists k. split; [exact Hb|apply str_eqb_refl]. }
  rewrite Hex in E. discriminate E.
Qed.

Section PackageFacts.

Variable contents : Type.
Variable JSON_parse : contents -> option json.
Variable JSON_stringify : bool -> json -> contents.
Variable random16 : nat -> N.

(** [JSON.parse] reads back what [JSON.stringify] wrote, and
    [Math.random()] is below 1. *)
Hypothesis parse_stringify : forall b j, JSON_parse (JSON_stringify b j) = Some j.
Hypothesis random16_range : forall k, (random16 k < 16)%N.

Let readManifest := readManifest JSON_parse JSON_stringify random16.
Let populateManifest := populateManifest JSON_parse JSON_stringify random16.
Let serializeConfig := serializeConfig JSON_stringify.
Let saveManifestSync := saveManifestSync JSON_stringify.

Lemma manifest_call cb (w : world contents) a : manifest (call cb w a) = manifest w.
Proof. now destruct cb. Qed.

Lemma file_call cb (w : world contents) a : file (call cb w a) = file w.
Proof. now destruct cb. Qed.

(** What [readManifest] makes of a manifest that is a JSON object. *)
Lemma readManifest_of_object cb w text kvs :
  file w = Some text ->
  JSON_parse text = Some (JObj kvs) ->
  exists w0 kvs1 text1 id,
    readManifest cb w = Returns (call cb w0 (CbManifest (Some (JObj kvs1))))
    /\ manifest w0 = Some (JObj kvs1)
    /\ file w0 = Some text1
    /\ JSON_parse text1 = Some (JObj kvs1)
    /\ lookup (lit "appID") kvs1 = Some (JStr id)
    /\ id <> []
    /\ (forall k, k <> lit "appID" -> lookup k kvs1 = lookup k kvs)
    /\ (appIDInvalid (lookup (lit "appID") kvs) = false ->
        kvs1 = kvs /\ text1 = text /\ trace w0 = trace w).
Proof.
  intros Hfile Hparse.
  destruct (appIDInvalid (lookup (lit "appID") kvs)) eqn:Hinv.
  - destruct (@createUUID_length random16 random16_range (randomCalls w))
      as [id [Hid Hlen]].
    eexists _, (setProp kvs (lit "appID") (JStr id)), _, id.
    split; [exact (@readManifest_invalid contents JSON_parse JSON_stringify
                     random16 cb w text kvs id Hfile Hparse Hinv Hid)|].
    split; [reflexivity|]. split; [reflexivity|].
    split; [apply parse_stringify|].
    split; [apply lookup_setProp_same|].
    split; [intros ->; discriminate Hlen|].
    split; [intros k Hk; now apply lookup_setProp_other|discriminate].
  - assert (Hid : exists id, lookup (lit "appID") kvs = Some (JStr id) /\ id <> []).
    { destruct (lookup (lit "appID") kvs) as [[|b|z|[|c s]|l|o]|];
        unfold appIDInvalid in Hinv; simpl in Hinv;
        rewrite ?orb_true_r in Hinv; try discriminate Hinv.
      exists (c :: s). split; [reflexivity|discriminate]. }
    destruct Hid as [id [Hid Hne]].
    eexists _, kvs, text, id.
    split; [exact (@readManifest_valid contents JSON_parse JSON_stringify random16
                     cb w text kvs Hfile Hparse Hinv)|].
    split; [reflexivity|]. split; [exact Hfile|].
    split; [exact Hparse|]. split; [exact Hid|]. split; [exact Hne|].
    split; [reflexivity|]. intros _. now split.
Qed.



(** X8: What [getManifestKey] answers for a key other than [appID] is the
    same after [saveManifestSync] and after the manifest was read again
    from the file; when the [appID] that was saved is a string that is not
    empty, the manifest read is the one that was saved and nothing is
    written. *)
Theorem saveManifestSync_then_read cb w kvs :
  exists w2,
    readManifest cb (saveManifestSync (JObj kvs) w) = Returns w2
    /\ (forall k def,
          k <> lit "appID" ->
          getManifestKey k def w2
          = getManifestKey k def (saveManifestSync (JObj kvs) w))
    /\ (appIDInvalid (lookup (lit "appID") kvs) = false ->
        manifest w2 = Some (JObj kvs)
        /\ file w2 = Some (serializeConfig (JObj kvs))
        /\ trace w2
           = trace w
             ++ WriteFileSync (serializeConfig (JObj kvs))
             :: (if cb then [Callback (CbManifest (Some (JObj kvs)))] else [])).
Proof.
  set (w1 := saveManifestSync (JObj kvs) w).
  assert (Hfile : file w1 = Some (serializeConfig (JObj kvs))) by reflexivity.
  destruct (readManifest_of_object cb w1 _ kvs Hfile (parse_stringify true _))
    as [w0 [kvs1 [text1 [id [Hr [Hm [Hf [Hp [Hid [Hne [Hk Hsame]]]]]]]]]]].
  exists (call cb w0 (CbManifest (Some (JObj kvs1)))).
  split; [exact Hr|]. split.
  - intros k def Hkey. unfold getManifestKey. rewrite manifest_call, Hm.
    cbn [manifest w1 saveManifestSync PackageManager.saveManifestSync ownProps
         ownValue].
    rewrite (Hk (lit "hasOwnProperty"))
      by (intros H; vm_compute in H; discriminate H).
    assert (Hown : forall o, ownValue (JObj o) k = lookup k o).
    { intros o. unfold ownValue. cbn [ownProps]. now destruct (lookup k o). }
    now rewrite !Hown, (Hk k Hkey).
  - intros Hok. destruct (Hsame Hok) as [-> [-> Ht]].
    rewrite manifest_call, file_call. split; [exact Hm|]. split; [exact Hf|].
    unfold call. destruct cb; cbn [emit trace]; rewrite Ht;
      cbn [trace w1 saveManifestSync PackageManager.saveManifestSync];
      now rewrite <- ?app_assoc.
Qed.

(** X9: [populateManifest] saves the existing manifest laid over the defaults:
    a key of the existing manifest other than [__proto__] keeps its value,
    and a key that it does not have gets the default, which is a new
    identifier of 32 code units for [appID], the option or the empty string
    for [shortName] and [title], and nothing for a key outside of the
    skeleton.  The manifest that is saved never has a key [__proto__]. *)
Theorem populateManifest_defaults opts w kvs :
  manifest w = Some (JObj kvs) ->
  opts <> Some JNull ->
  exists w' kvs' id,
    populateManifest opts w = Returns w'
    /\ manifest w' = Some (JObj kvs')
    /\ trace w' = trace w ++ [WriteFile (serializeConfig (JObj kvs'))]
    /\ List.length id = 32
    /\ lookup (lit "__proto__") kvs' = None
    /\ forall k,
         k <> lit "__proto__" ->
         lookup k kvs'
         = match lookup k kvs with
           | Some v => Some v
           | None =>
               lookup k
                 [ (lit "appID", JStr id);
                   (lit "shortName",
                    match opts with
                    | Some (JObj o) => orEmpty (lookup (lit "shortName") o)
                    | _ => JStr []
                    end);
                   (lit "title",
                    match opts with
                    | Some (JObj o) => orEmpty (lookup (lit "title") o)
                    | _ => JStr []
                    end);
                   (lit "studio",
                    JObj [ (lit "name", JStr (lit "Your Studio Name"));
                           (lit "domain", JStr (lit "studio.example.com"));
                           (lit "stagingDomain",
                            JStr (lit "staging.example.com")) ]);
                   (lit "supportedOrientations",
                    JArr [ JStr (lit "portrait"); JStr (lit "landscape") ]) ]
           end.
Proof.
  intros Hm Hopts.
  destruct (@createUUID_length random16 random16_range (randomCalls w))
    as [id [Hid Hlen]].
  unfold populateManifest, PackageManager.populateManifest.
  rewrite Hid. cbn [bind fst snd].
  assert (Hget : forall key,
             getProp (if jstype_eqb (typeof opts) TObject then opts
                      else Some (JObj [])) key
             = Returns (match opts with
                        | Some (JObj o) => lookup key o
                        | _ => None
                        end)).
  { intros key. destruct opts as [[|b|z|s|l|o]|]; try reflexivity. congruence. }
  rewrite !Hget. cbn [bind]. rewrite Hm. unfold clone.
  rewrite parse_stringify. cbn [bind].
  do 3 eexists. split; [reflexivity|]. split; [reflexivity|].
  split; [reflexivity|]. split; [exact Hlen|]. split.
  - rewrite lookup_augment. cbn [ownProps].
    destruct (lookup (lit "__proto__") kvs); reflexivity.
  - intros k Hk. rewrite lookup_augment. cbn [ownProps].
    rewrite (str_eqb_neq k (lit "__proto__") Hk).
    destruct (lookup k kvs) as [v|].
    + match goal with |- match ?x with _ => _ end = _ => now destruct x end.
    + destruct opts as [[|b|z|s|l|o]|]; reflexivity.
Qed.

End PackageFacts.



Lemma saveManifestSync_then_read_witness :
  (forall b j, parseValue (stringifyValue b j) = Some j)
  /\ (forall k, (randomZero k < 16)%N)
  /\ exists w2,
       readManifest parseValue stringifyValue randomZero true
         (saveManifestSync stringifyValue (JObj [(lit "appID", JStr (lit "a1"))])
            (mkWorld None None 0 []))
       = Returns w2
       /\ (forall k def,
             k <> lit "appID" ->
             getManifestKey k def w2
             = getManifestKey k def
                 (saveManifestSync stringifyValue
                    (JObj [(lit "appID", JStr (lit "a1"))])
                    (mkWorld None None 0 [])))
       /\ (appIDInvalid (lookup (lit "appID") [(lit "appID", JStr (lit "a1"))])
           = false ->
           manifest w2 = Some (JObj [(lit "appID", JStr (lit "a1"))])
           /\ file w2
              = Some (serializeConfig stringifyValue
                        (JObj [(lit "appID", JStr (lit "a1"))]))
           /\ trace w2
              = trace (mkWorld (@None json) None 0 [])
                ++ WriteFileSync
                     (serializeConfig stringifyValue
                        (JObj [(lit "appID", JStr (lit "a1"))]))
                :: [Callback
                      (CbManifest (Some (JObj [(lit "appID", JStr (lit "a1"))])))]).
Proof.
  split; [reflexivity|]. split; [reflexivity|].
  exact (saveManifestSync_then_read json parseValue stringifyValue randomZero
           (fun b j => eq_refl) (fun k => eq_refl) true
           (mkWorld None None 0 []) [(lit "appID", JStr (lit "a1"))]).
Defined.

Lemma populateManifest_defaults_witness :
  (forall b j, parseValue (stringifyValue b j) = Some j)
  /\ (forall k, (randomZero k < 16)%N)
  /\ manifest (mkWorld (@None json) (Some (JObj [(lit "title", JStr (lit "X"))])) 0 [])
     = Some (JObj [(lit "title", JStr (lit "X"))])
  /\ Some (JObj [(lit "title", JStr (lit "Y"))]) <> Some JNull
  /\ exists w' kvs' id,
       populateManifest parseValue stringifyValue randomZero
         (Some (JObj [(lit "title", JStr (lit "Y"))]))
         (mkWorld None (Some (JObj [(lit "title", JStr (lit "X"))])) 0 [])
       = Returns w'
       /\ manifest w' = Some (JObj kvs')
       /\ trace w'
          = trace (mkWorld (@None json)
                           (Some (JObj [(lit "title", JStr (lit "X"))])) 0 [])
            ++ [WriteFile (serializeConfig stringifyValue (JObj kvs'))]
       /\ List.length id = 32
       /\ lookup (lit "__proto__") kvs' = None
       /\ forall k,
            k <> lit "__proto__" ->
            lookup k kvs'
            = match lookup k [(lit "title", JStr (lit "X"))] with
              | Some v => Some v
              | None =>
                  lookup k
                    [ (lit "appID", JStr id);
                      (lit "shortName",
                       orEmpty (lookup (lit "shortName")
                                       [(lit "title", JStr (lit "Y"))]));
                      (lit "title",
                       orEmpty (lookup (lit "title")
                                       [(lit "title", JStr (lit "Y"))]));
                      (lit "studio",
                       JObj [ (lit "name", JStr (lit "Your Studio Name"));
                              (lit "domain", JStr (lit "studio.example.com"));
                              (lit "stagingDomain",
                               JStr (lit "staging.example.com")) ]);
                      (lit "supportedOrientations",
                       JArr [ JStr (lit "portrait"); JStr (lit "landscape") ]) ]
              end.
Proof.
  split; [reflexivity|]. split; [reflexivity|]. split; [reflexivity|].
  split; [discriminate|].
  exact (populateManifest_defaults json parseValue stringifyValue randomZero
           (fun b j => eq_refl) (fun k => eq_refl)
           (Some (JObj [(lit "title", JStr (lit "Y"))]))
           (mkWorld None (Some (JObj [(lit "title", JStr (lit "X"))])) 0 [])
           [(lit "title", JStr (lit "X"))] eq_refl
           ltac:(discriminate)).
Defined.

(** ** Loading a package *)

Section LoadFacts.

Variable contents : Type.
Variable JSON_parse : contents -> option json.
Variable JSON_stringify : bool -> json -> contents.
Variable random16 : nat -> N.
Variable existsSync : jsstring -> bool.
Variable path_join : jsstring -> jsstring -> jsstring.

Hypothesis random16_range : forall k, (random16 k < 16)%N.

Let load := load JSON_parse JSON_stringify random16 existsSync path_join.
Let isPackage := isPackage existsSync path_join.




End LoadFacts.


(** ** Replacement texts and addImport *)

Lemma getSubstitution_plain s m ncap tpl :
  noDollar tpl = true -> getSubstitution s m ncap tpl = tpl.
Proof.
  induction tpl as [|c t IH]; intros H; [reflexivity|].
  cbn [noDollar forallb] in H. apply andb_prop in H. destruct H as [Hc Ht].
  cbn [getSubstitution]. rewrite Hc. now rewrite (IH Ht).
Qed.

Lemma noDollar_importHeader pkg :
  noDollar pkg = true -> noDollar (importHeader pkg) = true.
Proof.
  intros H. unfold importHeader, noDollar. rewrite !forallb_app.
  fold (noDollar pkg). rewrite H. reflexivity.
Qed.

Lemma nth_error_skipn (s : jsstring) i : nth_error s i = hd_error (skipn i s).
Proof.
  revert s. induction i as [|i IH]; intros [|c s]; try reflexivity. apply IH.
Qed.

Lemma skipn_S (s : jsstring) i : skipn (S i) s = tl (skipn i s).
Proof.
  revert s. induction i as [|i IH]; intros [|c s]; try reflexivity. apply IH.
Qed.

Lemma clear_nil x : clear [] x = x.
Proof.
  destruct x as [e caps]. unfold clear. cbn [endIndex captures existsb negb].
  f_equal. induction caps as [|c caps IH]; [reflexivity|]. simpl. now rewrite IH.
Qed.

Section Stepping.

Variables (ml : bool) (s : jsstring).

(** The equations of the matcher, one pattern at a time. *)
Lemma rmatch_Seq_eq ic a b c x :
  rmatch ic ml s (Seq a b) c x
  = rmatch ic ml s a (fun y => rmatch ic ml s b c y) x.
Proof. reflexivity. Qed.

Lemma rmatch_Rep_eq ic g mn mx r c x :
  rmatch ic ml s (Rep g mn mx r) c x
  = repeatMatcher (rmatch ic ml s r) (groups r) g c
                  (S (mn + (List.length s - endIndex x))) mn mx x.
Proof. reflexivity. Qed.

Lemma rmatch_Grp_eq ic n r c x :
  rmatch ic ml s (Grp n r) c x
  = rmatch ic ml s r (fun y => c (setCapture n (endIndex x) (endIndex y) y)) x.
Proof. reflexivity. Qed.

Lemma rmatch_Bol_eq ic c x :
  rmatch ic ml s Bol c x = if atLineStart ml s (endIndex x) then c x else None.
Proof. reflexivity. Qed.

(** A pattern character, without the [i] flag. *)
Lemma rmatch_Chr_at a r c x :
  rmatch false ml s (Seq (Chr a) r) c x
  = match skipn (endIndex x) s with
    | b :: _ =>
        if N.eqb b a
        then rmatch false ml s r c (mkState (S (endIndex x)) (captures x))
        else None
    | [] => None
    end.
Proof.
  cbn [rmatch]. rewrite nth_error_skipn.
  destruct (skipn (endIndex x) s) as [|b t]; reflexivity.
Qed.

Lemma rmatch_Chr_last a c x :
  rmatch false ml s (Chr a) c x
  = match skipn (endIndex x) s with
    | b :: _ =>
        if N.eqb b a then c (mkState (S (endIndex x)) (captures x)) else None
    | [] => None
    end.
Proof.
  cbn [rmatch]. rewrite nth_error_skipn.
  destruct (skipn (endIndex x) s) as [|b t]; reflexivity.
Qed.

Lemma rmatch_Cls_at p c x :
  rmatch false ml s (Cls p) c x
  = match skipn (endIndex x) s with
    | b :: _ =>
        if p b then c (mkState (S (endIndex x)) (captures x)) else None
    | [] => None
    end.
Proof.
  cbn [rmatch]. rewrite nth_error_skipn.
  destruct (skipn (endIndex x) s) as [|b t]; reflexivity.
Qed.

Lemma rmatch_litThen p r c :
  forall x,
    rmatch false ml s (litThen p r) c x
    = if startsWith p (skipn (endIndex x) s)
      then rmatch false ml s r c
                  (mkState (endIndex x + List.length p) (captures x))
      else None.
Proof.
  induction p as [|a p IH]; intros x.
  - cbn [litThen fold_right startsWith List.length]. rewrite Nat.add_0_r.
    now destruct x.
  - cbn [litThen fold_right]. fold (litThen p r). rewrite rmatch_Chr_at.
    destruct (skipn (endIndex x) s) as [|b t] eqn:E; [reflexivity|].
    cbn [startsWith]. destruct (N.eqb b a); [|reflexivity]. cbn [andb].
    rewrite IH. cbn [endIndex captures List.length]. rewrite skipn_S, E.
    cbn [tl]. now rewrite Nat.add_succ_r.
Qed.

(** A greedy star of a class takes the whole run of the class: when the
    continuation accepts the state after the run, that is the answer. *)
Lemma rmatch_Star_run p c w :
  forall run t x,
    skipn (endIndex x) s = run ++ t ->
    forallb p run = true ->
    match t with [] => true | b :: _ => negb (p b) end = true ->
    c (mkState (endIndex x + List.length run) (captures x)) = Some w ->
    rmatch false ml s (Star (Cls p)) c x = Some w.
Proof.
  induction run as [|a run IH]; intros t x Hs Hrun Ht Hc.
  - cbn [List.length] in Hc. rewrite Nat.add_0_r in Hc.
    replace (mkState (endIndex x) (captures x)) with x in Hc by now destruct x.
    unfold Star. cbn [rmatch]. rewrite repeatMatcher_S. cbn [Nat.eqb negb].
    cbn [rmatch groups]. rewrite clear_nil, nth_error_skipn, Hs. cbn [app].
    destruct t as [|b t]; cbn [hd_error]; [exact Hc|].
    change (classHolds false p b) with (p b).
    apply negb_true_iff in Ht. rewrite Ht. exact Hc.
  - cbn [forallb] in Hrun. apply andb_prop in Hrun. destruct Hrun as [Ha Hrun].
    assert (Hlen : endIndex x < List.length s).
    { apply nth_error_Some. rewrite nth_error_skipn, Hs. discriminate. }
    unfold Star. cbn [rmatch]. rewrite repeatMatcher_S. cbn [Nat.eqb negb].
    cbn [rmatch groups]. rewrite clear_nil, nth_error_skipn, Hs.
    cbn [app hd_error]. change (classHolds false p a) with (p a). rewrite Ha.
    unfold repeatCont. cbn [endIndex captures].
    replace (Nat.eqb (S (endIndex x)) (endIndex x)) with false
      by (symmetry; apply Nat.eqb_neq; lia).
    rewrite andb_false_r. cbn [pred_max Nat.pred].
    replace (0 + (List.length s - endIndex x))
      with (S (0 + (List.length s - S (endIndex x)))) by lia.
    specialize (IH t (mkState (S (endIndex x)) (captures x))).
    unfold Star in IH. cbn [rmatch groups endIndex captures] in IH.
    rewrite IH; [reflexivity| |exact Hrun|exact Ht|].
    + rewrite skipn_S, Hs. reflexivity.
    + cbn [List.length] in Hc. now rewrite Nat.add_succ_r in Hc.
Qed.

(** An optional part that fails is left out. *)
Lemma rmatch_Opt_out r c x fuel :
  (forall k, rmatch false ml s r k (clear (groups r) x) = None) ->
  repeatMatcher (rmatch false ml s r) (groups r) true c (S fuel) 0 (Some 1) x
  = c x.
Proof.
  intros H. rewrite repeatMatcher_S. cbn [Nat.eqb negb]. now rewrite H.
Qed.

End Stepping.

Section SteppingMore.

Variables (ml : bool) (s : jsstring).

(** A star of a class stops at once before a code unit outside of the
    class, and at the end of the text. *)
Lemma rmatch_Star_stop p c x :
  match skipn (endIndex x) s with [] => true | b :: _ => negb (p b) end = true ->
  rmatch false ml s (Star (Cls p)) c x = c x.
Proof.
  intros H. unfold Star. cbn [rmatch]. rewrite repeatMatcher_S.
  cbn [Nat.eqb negb rmatch groups]. rewrite clear_nil, nth_error_skipn.
  destruct (skipn (endIndex x) s) as [|b t]; cbn [hd_error]; [reflexivity|].
  change (classHolds false p b) with (p b).
  apply negb_true_iff in H. now rewrite H.
Qed.

(** An optional code unit that is not there is left out. *)
Lemma rmatch_Opt_Chr_out a c x :
  match skipn (endIndex x) s with [] => true | b :: _ => negb (N.eqb b a) end
  = true ->
  rmatch false ml s (Opt (Chr a)) c x = c x.
Proof.
  intros H. unfold Opt. rewrite rmatch_Rep_eq. apply rmatch_Opt_out. intros k.
  rewrite rmatch_Chr_last, clear_nil.
  destruct (skipn (endIndex x) s) as [|b t]; [reflexivity|].
  apply negb_true_iff in H. now rewrite H.
Qed.

End SteppingMore.

(** The pattern of [addImport] always matches at the start of the text,
    and matches nothing when the text does not begin with the quotation
    mark and [use ]. *)
Lemma matchAt_reUseDirective code :
  exists y,
    matchAt false false code (pattern reUseDirective) 0 = Some y
    /\ (startsWith (34%N :: lit "use ") code = false -> endIndex y = 0).
Proof.
  destruct (matchAt false false code (pattern reUseDirective) 0) as [y|] eqn:E.
  2:{ exfalso.
      assert (H : succeeds (matchAt false false code (pattern reUseDirective) 0)
                  = true).
      { unfold matchAt. cbn [pattern reUseDirective seqs].
        rewrite rmatch_Seq_eq, rmatch_Bol_eq. cbn [atLineStart endIndex].
        apply rmatch_Rep_skip. reflexivity. }
      rewrite E in H. discriminate H. }
  exists y. split; [reflexivity|]. intros Hstart.
  unfold matchAt in E. cbn [pattern reUseDirective seqs] in E.
  rewrite rmatch_Seq_eq, rmatch_Bol_eq in E. cbn [atLineStart endIndex] in E.
  unfold Opt at 1 in E. rewrite rmatch_Rep_eq in E.
  rewrite rmatch_Opt_out in E; [now inversion E|].
  intros k. rewrite rmatch_Grp_eq.
  match goal with
  | |- rmatch false false code _ ?k' ?x = None =>
      change (rmatch false false code
                (litThen (34%N :: lit "use ")
                   (seqs [Star (Cls notQuote); Chr 34;
                          Star (Cls blank); word ";"; Star (Cls blank);
                          Opt (Chr CR); Chr LF;
                          Opt (Grp 2 (seqs [Star (Cls blank); Opt (Chr CR);
                                            Chr LF]))]))
                k' x = None)
  end.
  rewrite rmatch_litThen. cbn [clear endIndex skipn]. now rewrite Hstart.
Qed.

Lemma replaceString_reUseDirective code tpl y :
  matchAt false false code (pattern reUseDirective) 0 = Some y ->
  noDollar tpl = true ->
  replaceString reUseDirective tpl code = tpl ++ skipn (endIndex y) code.
Proof.
  intros Hm Htpl. unfold replaceString, matches. cbn [flagG reUseDirective].
  rewrite (@exec_anchored reUseDirective code _ eq_refl eq_refl).
  cbn [flagI reUseDirective]. rewrite Hm. cbn [splice index].
  rewrite getSubstitution_plain by exact Htpl.
  unfold lastOf. cbn [final]. reflexivity.
Qed.

(** X11: [addImport] puts the header in front of the text, in the place of what
    its pattern matches there; on a text that does not begin with the
    quotation mark and [use ] that is nothing, and the text follows the
    header as it is.  The package name holds no dollar sign. *)
Theorem addImport_prepends code pkg :
  noDollar pkg = true ->
  exists n,
    addImport code pkg = importHeader pkg ++ skipn n code
    /\ (startsWith (34%N :: lit "use ") code = false -> n = 0).
Proof.
  intros Hpkg. destruct (matchAt_reUseDirective code) as [y [Hy H0]].
  exists (endIndex y). split; [|exact H0].
  apply replaceString_reUseDirective; [exact Hy|].
  now apply noDollar_importHeader.
Qed.

Lemma addImport_prepends_witness :
  noDollar (lit "a.b") = true
  /\ exists n,
       addImport (lit "var x;") (lit "a.b")
       = importHeader (lit "a.b") ++ skipn n (lit "var x;")
       /\ (startsWith (34%N :: lit "use ") (lit "var x;") = false -> n = 0).
Proof.
  split; [reflexivity|].
  exact (addImport_prepends (lit "var x;") (lit "a.b") eq_refl).
Defined.

(** On a text that begins with the header the pattern takes the directive
    and the empty line after it. *)
Lemma matchAt_header tail :
  exists y,
    matchAt false false
            ([34%N] ++ lit "use import" ++ [34%N] ++ lit ";" ++ [LF; LF] ++ tail)
            (pattern reUseDirective) 0 = Some y
    /\ endIndex y = 15.
Proof.
  eexists. split; [vm_compute; reflexivity|reflexivity].
Qed.

(** X12: A second [addImport] takes the directive of the first and leaves its
    import: the imports pile up under one directive, the last one first. *)
Theorem addImport_twice code p q :
  noDollar p = true ->
  noDollar q = true ->
  exists n,
    addImport code p = importHeader p ++ skipn n code
    /\ addImport (addImport code p) q
       = importHeader q ++ lit "import " ++ p ++ lit ";" ++ [LF] ++ skipn n code.
Proof.
  intros Hp Hq. destruct (matchAt_reUseDirective code) as [y [Hy _]].
  exists (endIndex y).
  assert (H1 : addImport code p = importHeader p ++ skipn (endIndex y) code).
  { apply replaceString_reUseDirective; [exact Hy|].
    now apply noDollar_importHeader. }
  split; [exact H1|]. rewrite H1.
  destruct (matchAt_header (lit "import " ++ p ++ lit ";" ++ [LF]
                            ++ skipn (endIndex y) code)) as [y2 [Hy2 He2]].
  unfold addImport at 1.
  replace (importHeader p ++ skipn (endIndex y) code)
    with ([34%N] ++ lit "use import" ++ [34%N] ++ lit ";" ++ [LF; LF]
          ++ lit "import " ++ p ++ lit ";" ++ [LF] ++ skipn (endIndex y) code)
    by (unfold importHeader; now rewrite <- !app_assoc).
  rewrite (replaceString_reUseDirective _ _ y2 Hy2 (noDollar_importHeader q Hq)).
  rewrite He2. reflexivity.
Qed.

Lemma addImport_twice_witness :
  noDollar (lit "a.b") = true
  /\ noDollar (lit "c.d") = true
  /\ exists n,
       addImport (lit "var x;") (lit "a.b")
       = importHeader (lit "a.b") ++ skipn n (lit "var x;")
       /\ addImport (addImport (lit "var x;") (lit "a.b")) (lit "c.d")
          = importHeader (lit "c.d") ++ lit "import " ++ lit "a.b" ++ lit ";"
            ++ [LF] ++ skipn n (lit "var x;").
Proof.
  split; [reflexivity|]. split; [reflexivity|].
  exact (addImport_twice (lit "var x;") (lit "a.b") (lit "c.d") eq_refl eq_refl).
Defined.

Lemma skipn_app_length (a b : jsstring) : skipn (List.length a) (a ++ b) = b.
Proof. now rewrite skipn_app, skipn_all, Nat.sub_diag. Qed.

Lemma clear_empty gs n : clear gs (mkState n []) = mkState n [].
Proof. reflexivity. Qed.

(** On a directive, its semicolon and its line feed, with nothing blank
    after them, the pattern of [addImport] takes just these. *)
Lemma matchAt_directive d rest :
  forallb notQuote d = true ->
  noBlankAhead rest = true ->
  exists y,
    matchAt false false
            (34%N :: lit "use " ++ d ++ 34%N :: 59%N :: LF :: rest)
            (pattern reUseDirective) 0 = Some y
    /\ endIndex y = 8 + List.length d.
Proof.
  intros Hd Hrest.
  set (s := 34%N :: lit "use " ++ d ++ 34%N :: 59%N :: LF :: rest).
  assert (Hlen : List.length s = 8 + List.length d + List.length rest).
  { unfold s. cbn [List.length lit map list_ascii_of_string app].
    rewrite length_app. cbn [List.length]. lia. }
  assert (H5 : skipn 5 s = d ++ 34%N :: 59%N :: LF :: rest) by reflexivity.
  assert (H5d : skipn (5 + List.length d) s = 34%N :: 59%N :: LF :: rest).
  { rewrite Nat.add_comm, <- skipn_skipn, H5. apply skipn_app_length. }
  assert (H6 : skipn (S (5 + List.length d)) s = 59%N :: LF :: rest)
    by now rewrite skipn_S, H5d.
  assert (H7 : skipn (S (S (5 + List.length d))) s = LF :: rest)
    by now rewrite skipn_S, H6.
  assert (H8 : skipn (S (S (S (5 + List.length d)))) s = rest)
    by now rewrite skipn_S, H7.
  assert (Hahead : forall P : N -> bool,
             (forall c, P c = true ->
                        (blank c || N.eqb c CR || N.eqb c LF) = true) ->
             match rest with [] => true | b :: _ => negb (P b) end = true).
  { intros P HP. destruct rest as [|b rest']; [reflexivity|].
    cbn [noBlankAhead] in Hrest. destruct (P b) eqn:E; [|reflexivity].
    apply HP in E. rewrite <- !negb_orb in Hrest. rewrite E in Hrest.
    discriminate Hrest. }
  exists (setCapture 1 0 (8 + List.length d) (mkState (8 + List.length d) [])).
  split; [|reflexivity].
  unfold matchAt. cbn [pattern reUseDirective seqs].
  rewrite rmatch_Seq_eq, rmatch_Bol_eq. cbn [atLineStart endIndex].
  unfold Opt at 1. rewrite rmatch_Rep_eq, repeatMatcher_S.
  cbn [Nat.eqb negb groups app]. rewrite rmatch_Grp_eq.
  match goal with
  | |- match rmatch false false s _ ?k' ?x with _ => _ end = _ =>
      change (match rmatch false false s
                      (litThen (34%N :: lit "use ")
                         (Seq (Star (Cls notQuote))
                              (seqs [Chr 34;
                                     Star (Cls blank); word ";"; Star (Cls blank);
                                     Opt (Chr CR); Chr LF;
                                     Opt (Grp 2 (seqs [Star (Cls blank);
                                                       Opt (Chr CR); Chr LF]))])))
                      k' x
              with Some z => Some z | None => Some (mkState 0 []) end
              = Some (setCapture 1 0 (8 + List.length d)
                                 (mkState (8 + List.length d) [])))
  end.
  rewrite rmatch_litThen.
  cbn [clear endIndex captures filter skipn startsWith lit map
       list_ascii_of_string].
  change (startsWith (34%N :: lit "use ") s) with true. cbv iota.
  rewrite rmatch_Seq_eq.
  rewrite (rmatch_Star_run false s notQuote _
             (setCapture 1 0 (8 + List.length d) (mkState (8 + List.length d) []))
             d (34%N :: 59%N :: LF :: rest)); [reflexivity| | | |].
  - exact H5.
  - exact Hd.
  - reflexivity.
  - cbn [endIndex captures seqs List.length].
    change (0 + 5 + List.length d) with (5 + List.length d).
    rewrite rmatch_Chr_at. cbn [endIndex captures]. rewrite H5d.
    change (N.eqb 34 34) with true. cbv iota.
    rewrite rmatch_Seq_eq, rmatch_Star_stop
      by (cbn [endIndex]; rewrite H6; reflexivity).
    change (word ";") with (Chr 59).
    rewrite rmatch_Chr_at. cbn [endIndex captures]. rewrite H6.
    change (N.eqb 59 59) with true. cbv iota.
    rewrite rmatch_Seq_eq, rmatch_Star_stop
      by (cbn [endIndex]; rewrite H7; reflexivity).
    rewrite rmatch_Seq_eq, rmatch_Opt_Chr_out
      by (cbn [endIndex]; rewrite H7; reflexivity).
    rewrite rmatch_Chr_at. cbn [endIndex captures]. rewrite H7.
    change (N.eqb LF LF) with true. cbv iota.
    unfold Opt. rewrite rmatch_Rep_eq, rmatch_Opt_out.
    + unfold repeatCont. cbn [endIndex setCapture captures Nat.eqb andb].
      rewrite Hlen. cbn [pred_max Nat.pred Nat.sub Nat.add].
      reflexivity.
    + intros k. rewrite rmatch_Grp_eq. rewrite rmatch_Seq_eq.
      rewrite clear_empty.
      rewrite rmatch_Star_stop
        by (cbn [endIndex]; rewrite H8; apply Hahead; intros c Hc; now rewrite Hc).
      rewrite rmatch_Seq_eq. fold (Opt (Chr CR)).
      rewrite rmatch_Opt_Chr_out
        by (cbn [endIndex]; rewrite H8; apply Hahead; intros c Hc;
            rewrite Hc; now rewrite orb_true_r).
      rewrite rmatch_Chr_last. cbn [endIndex]. rewrite H8.
      destruct rest as [|b rest']; [reflexivity|].
      cbn [noBlankAhead] in Hrest. apply andb_prop in Hrest.
      destruct Hrest as [_ Hb]. apply negb_true_iff in Hb. now rewrite Hb.
Qed.

(** X13: A directive at the start of the text, with its semicolon and its line
    feed, is replaced by the header: [addImport] keeps what follows. *)
Theorem addImport_replaces_directive d rest pkg :
  noDollar pkg = true ->
  forallb notQuote d = true ->
  noBlankAhead rest = true ->
  addImport (34%N :: lit "use " ++ d ++ 34%N :: 59%N :: LF :: rest) pkg
  = importHeader pkg ++ rest.
Proof.
  intros Hpkg Hd Hrest.
  destruct (matchAt_directive d rest Hd Hrest) as [y [Hy He]].
  unfold addImport.
  rewrite (replaceString_reUseDirective _ _ y Hy (noDollar_importHeader pkg Hpkg)).
  rewrite He. f_equal.
  change (34%N :: lit "use " ++ d ++ 34%N :: 59%N :: LF :: rest)
    with ((34%N :: lit "use ") ++ d ++ 34%N :: 59%N :: LF :: rest).
  replace (8 + List.length d) with (3 + (List.length d + 5)) by lia.
  rewrite <- skipn_skipn. rewrite <- skipn_skipn.
  change (skipn 5 ((34%N :: lit "use ") ++ d ++ 34%N :: 59%N :: LF :: rest))
    with (d ++ 34%N :: 59%N :: LF :: rest).
  now rewrite skipn_app_length.
Qed.

Lemma addImport_replaces_directive_witness :
  noDollar (lit "a.b") = true
  /\ forallb notQuote (lit "strict") = true
  /\ noBlankAhead (lit "var x;") = true
  /\ addImport (34%N :: lit "use " ++ lit "strict" ++ 34%N :: 59%N :: LF
                :: lit "var x;") (lit "a.b")
     = importHeader (lit "a.b") ++ lit "var x;".
Proof.
  split; [reflexivity|]. split; [reflexivity|]. split; [reflexivity|].
  exact (addImport_replaces_directive (lit "strict") (lit "var x;") (lit "a.b")
           eq_refl eq_refl eq_refl).
Defined.

(** ** Collected events *)

Section CollectorFacts.

Variables (A B : Type).

Lemma collectLoop_no_end event (consumer : A -> B) evs :
  forallb (fun e => negb (str_eqb (fst e) (lit "end"))) evs = true ->
  forall collected,
    collectLoop event consumer evs collected = [].
Proof.
  induction evs as [|[n a] evs IH]; intros H collected; [reflexivity|].
  cbn [forallb fst] in H. apply andb_prop in H. destruct H as [Hn H].
  apply negb_true_iff in Hn. cbn [collectLoop]. rewrite Hn. apply IH. exact H.
Qed.

Lemma collectLoop_app event (consumer : A -> B) evs evs' :
  forallb (fun e => negb (str_eqb (fst e) (lit "end"))) evs = true ->
  forall collected,
    collectLoop event consumer (evs ++ evs') collected
    = collectLoop event consumer evs'
        (collected
         ++ map (fun e => consumer (snd e))
                (filter (fun e => str_eqb (fst e) event) evs)).
Proof.
  induction evs as [|[n a] evs IH]; intros H collected.
  - cbn [app filter map]. now rewrite app_nil_r.
  - cbn [forallb fst] in H. apply andb_prop in H. destruct H as [Hn H].
    apply negb_true_iff in Hn. cbn [app collectLoop filter fst]. rewrite Hn.
    cbn [app]. rewrite (IH H).
    destruct (str_eqb n event); cbn [map snd]; [now rewrite <- app_assoc|reflexivity].
Qed.

(** The loop on events that end with the one ['end']. *)
Lemma collectLoop_end_last event (consumer : A -> B) evs a collected :
  str_eqb event (lit "end") = false ->
  forallb (fun e => negb (str_eqb (fst e) (lit "end"))) evs = true ->
  collectLoop event consumer (evs ++ [(lit "end", a)]) collected
  = [collected
     ++ map (fun e => consumer (snd e))
            (filter (fun e => str_eqb (fst e) event) evs)].
Proof.
  intros Hev Hevs. rewrite (collectLoop_app _ _ _ _ Hevs).
  cbn [collectLoop app]. rewrite str_eqb_refl.
  replace (str_eqb (lit "end") event) with false; [reflexivity|].
  symmetry. destruct (str_eqb (lit "end") event) eqn:E; [|reflexivity].
  apply str_eqb_eq in E. subst event. discriminate Hev.
Qed.

(** X14: When ['end'] is emitted once, after all the other events, the callback
    of a collector of another event is called once, with what the consumer
    made of each of these events, in the order they were emitted. *)
Theorem collector_once event (consumer : A -> B) evs a :
  str_eqb event (lit "end") = false ->
  forallb (fun e => negb (str_eqb (fst e) (lit "end"))) evs = true ->
  collector event consumer (evs ++ [(lit "end", a)])
  = [map (fun e => consumer (snd e))
         (filter (fun e => str_eqb (fst e) event) evs)].
Proof.
  intros Hev Hevs. unfold collector.
  now rewrite (collectLoop_end_last event consumer evs a [] Hev Hevs).
Qed.

End CollectorFacts.

Lemma collector_once_witness :
  str_eqb (lit "file") (lit "end") = false
  /\ forallb (fun e : jsstring * nat => negb (str_eqb (fst e) (lit "end")))
             [(lit "file", 1); (lit "link", 2); (lit "file", 3)] = true
  /\ collector (lit "file") (fun n : nat => n * 10)
               ([(lit "file", 1); (lit "link", 2); (lit "file", 3)]
                ++ [(lit "end", 0)])
     = [map (fun e : jsstring * nat => snd e * 10)
            (filter (fun e : jsstring * nat => str_eqb (fst e) (lit "file"))
                    [(lit "file", 1); (lit "link", 2); (lit "file", 3)])].
Proof.
  split; [reflexivity|]. split; [reflexivity|].
  exact (collector_once nat nat (lit "file") (fun n => n * 10)
           [(lit "file", 1); (lit "link", 2); (lit "file", 3)] 0
           eq_refl eq_refl).
Defined.

Section ScriptCollectFacts.

Variable node : Type.
Variable falafel : jsstring -> falafelResult node.

Lemma emitted_nodes (visited : list node) (last : list (scriptEvent node)) :
  emitted (map (@NodeEvent node) visited ++ last)
  = map (fun n => (lit "node", NodeEvent n)) visited ++ emitted last.
Proof.
  unfold emitted. rewrite flat_map_app. f_equal.
  induction visited as [|n visited IH]; [reflexivity|].
  cbn [map flat_map app]. now rewrite IH.
Qed.

Lemma filter_nodes (visited : list node) :
  map (fun e : jsstring * scriptEvent node => snd e)
      (filter (fun e => str_eqb (fst e) (lit "node"))
              (map (fun n => (lit "node", NodeEvent n)) visited))
  = map (@NodeEvent node) visited.
Proof.
  induction visited as [|n visited IH]; [reflexivity|].
  cbn [map filter fst]. rewrite str_eqb_refl. cbn [map snd]. now rewrite IH.
Qed.

Lemma nodes_no_end (visited : list node) :
  forallb (fun e : jsstring * scriptEvent node =>
             negb (str_eqb (fst e) (lit "end")))
          (map (fun n => (lit "node", NodeEvent n)) visited) = true.
Proof. induction visited as [|n visited IH]; [reflexivity|exact IH]. Qed.

(** X15: The callback of [walkScript] is called only when the engine throws:
    then once, with the nodes the engine visited before it threw, in order.
    When the engine parses the file, the callback of [fs.readFile] throws
    before ['end'] is emitted, and the callback of [walkScript] is never
    called, and neither is it after a failed read. *)
Theorem walkScript_calls_back_after_throw src :
  walkScriptCollect falafel (Some src)
  = Returns (match falafel (sanitizeCode src) with
             | Threw visited => [map (@NodeEvent node) visited]
             | Output _ _ => []
             end)
  /\ walkScriptCollect falafel None = Returns [].
Proof.
  split; [|reflexivity].
  unfold walkScriptCollect, walkScript.
  destruct (falafel (sanitizeCode src)) as [visited|visited out];
    cbn [bind]; rewrite emitted_nodes; cbn [emitted flat_map app];
    unfold collector.
  - rewrite (collectLoop_end_last _ _ (lit "node") (fun e => e) _ _ []
               eq_refl (nodes_no_end visited)).
    cbn [app]. now rewrite filter_nodes.
  - rewrite app_nil_r.
    now rewrite (collectLoop_no_end _ _ (lit "node") (fun e => e) _
                   (nodes_no_end visited)).
Qed.

End ScriptCollectFacts.

(** ** Listings *)

Section ResourceFacts.

Variable existsSync : jsstring -> bool.
Variable findit : jsstring -> list (jsstring * stat).
Variable extname : jsstring -> jsstring.
Variable basename : jsstring -> jsstring -> jsstring.

Let listFilesSync := listFilesSync existsSync findit extname basename.
Let listFiles := listFiles existsSync findit extname basename.
Let listResources := listResources existsSync findit extname basename.
Let listResourcesSync := listResourcesSync existsSync findit extname basename.

Lemma filter_none (A : Type) (f : A -> bool) l :
  (forall a, f a = false) -> filter f l = [].
Proof.
  intros H. induction l as [|a l IH]; [reflexivity|]. cbn [filter].
  now rewrite H.
Qed.

(** X16: Without a list of extensions no file is wanted: [listResources(cb)],
    called with the callback alone, and [listResourcesSync()] list nothing,
    whatever the directory holds. *)
Theorem listResources_without_extensions resources next :
  listResourcesSync resources ExtsFunction = Returns []
  /\ listResourcesSync resources ExtsNone = Returns []
  /\ (exists l, listResources resources ExtsFunction next = Returns l
                /\ noFileSignal l = true /\ calledWith l = [[]])
  /\ (exists l, listResources resources ExtsNone true = Returns l
                /\ noFileSignal l = true /\ calledWith l = [[]]).
Proof.
  assert (Hnone : filter (fun f : jsstring * stat =>
                            isFile (snd f) && wanted extname None (fst f))
                         (findit resources) = []).
  { apply filter_none. intros a. unfold wanted. cbn [existsb].
    apply andb_false_r. }
  unfold listResourcesSync, PackageManager.listResourcesSync,
    listResources, PackageManager.listResources,
    PackageManager.listFilesSync, PackageManager.listFiles.
  rewrite Hnone. cbn [map].
  split; [now destruct (existsSync resources)|].
  split; [now destruct (existsSync resources)|].
  split; destruct (existsSync resources); cbn [negb];
    eexists; (split; [reflexivity|]); split; reflexivity.
Qed.

(** X17: [listFilesSync] lists, in the order they were found, the files whose
    extension, without its dot, is one of [exts] as it is written; each
    entry has the path that was found and, as its name, the base name
    without the extension. *)
Theorem listFilesSync_entries base exts e :
  existsSync base = true ->
  (exists es, listFilesSync base (Some exts) = Returns es /\ In e es)
  <-> (exists file st,
          In (file, st) (findit base)
          /\ isFile st = true
          /\ In (substr 1 (extname file)) exts
          /\ e = mkEntry (basename file (extname file)) file st).
Proof.
  intros Hex. unfold listFilesSync, PackageManager.listFilesSync. rewrite Hex.
  split.
  - intros [es [Hes Hin]]. inversion Hes; subst es.
    apply in_map_iff in Hin. destruct Hin as [[file st] [He Hf]].
    apply filter_In in Hf. destruct Hf as [Hfound Hcond].
    cbn [fst snd] in Hcond. apply andb_prop in Hcond. destruct Hcond as [Hfile Hw].
    unfold wanted in Hw. apply existsb_exists in Hw. destruct Hw as [x [Hx Heq]].
    apply str_eqb_eq in Heq. subst x.
    exists file, st. repeat split; try assumption. now rewrite <- He.
  - intros [file [st [Hfound [Hfile [Hext ->]]]]].
    eexists. split; [reflexivity|].
    apply in_map_iff. exists (file, st). split; [reflexivity|].
    apply filter_In. split; [exact Hfound|]. cbn [fst snd]. rewrite Hfile.
    unfold wanted. apply existsb_exists.
    exists (substr 1 (extname file)). split; [exact Hext|apply str_eqb_refl].
Qed.

End ResourceFacts.

Lemma listFilesSync_entries_witness :
  (fun _ : jsstring => true) (lit "res") = true
  /\ ((exists es,
          listFilesSync (fun _ => true)
                        (fun _ => [(lit "a.png", mkStat true)])
                        (fun _ => lit ".png") (fun p _ => lit "a")
                        (lit "res") (Some [lit "png"]) = Returns es
          /\ In (mkEntry (lit "a") (lit "a.png") (mkStat true)) es)
      <-> (exists file st,
              In (file, st) [(lit "a.png", mkStat true)]
              /\ isFile st = true
              /\ In (substr 1 (lit ".png")) [lit "png"]
              /\ mkEntry (lit "a") (lit "a.png") (mkStat true)
                 = mkEntry (lit "a") file st)).
Proof.
  split; [reflexivity|].
  exact (listFilesSync_entries (fun _ => true)
           (fun _ => [(lit "a.png", mkStat true)])
           (fun _ => lit ".png") (fun p _ => lit "a")
           (lit "res") [lit "png"]
           (mkEntry (lit "a") (lit "a.png") (mkStat true)) eq_refl).
Defined.

(** ** Translations *)

Section TranslationFacts.

Variable contents : Type.
Variable JSON_parse : contents -> option json.
Variable JSON_stringify : bool -> json -> contents.
Variable path_join : jsstring -> jsstring -> jsstring.
Variable lang : jsstring.

Hypothesis parse_stringify : forall b j, JSON_parse (JSON_stringify b j) = Some j.

Let translationPath := translationPath path_join lang.
Let getTranslationSync := getTranslationSync JSON_parse path_join lang.
Let saveTranslationSync := saveTranslationSync JSON_stringify path_join lang.
Let removeTranslationSync := @removeTranslationSync contents path_join lang.

(** X18: A translation that was saved is the one that is read, and the
    translations kept in other files are as before; once removed it reads
    as [null].  The file system takes the changes. *)
Theorem translation_saved_and_removed code j d :
  writable d = true ->
  exists d1 d2,
    saveTranslationSync code j d = IoReturns (true, d1)
    /\ getTranslationSync code d1 = j
    /\ (forall code', translationPath code' <> translationPath code ->
                      getTranslationSync code' d1 = getTranslationSync code' d)
    /\ removeTranslationSync code d1 = IoReturns (true, d2)
    /\ getTranslationSync code d2 = JNull
    /\ removeTranslationSync code d2 = IoThrows.
Proof.
  intros Hw.
  unfold saveTranslationSync, PackageManager.saveTranslationSync. rewrite Hw.
  eexists _, _. split; [reflexivity|].
  unfold getTranslationSync, PackageManager.getTranslationSync,
    removeTranslationSync, PackageManager.removeTranslationSync.
  cbn [holds writeDisk writable]. fold translationPath.
  rewrite !str_eqb_refl. unfold serializeConfig. rewrite parse_stringify.
  split; [reflexivity|]. split.
  - intros code' Hne. now rewrite (str_eqb_neq _ _ Hne).
  - rewrite Hw. split; [reflexivity|]. cbn [holds writeDisk writable].
    fold translationPath. rewrite !str_eqb_refl. now split.
Qed.

End TranslationFacts.

Lemma translation_saved_and_removed_witness :
  (forall b j, parseValue (stringifyValue b j) = Some j)
  /\ writable (mkDisk (fun _ : jsstring => @None json) true) = true
  /\ exists d1 d2,
       saveTranslationSync stringifyValue (fun a b => a ++ lit "/" ++ b)
                           (lit "lang") (lit "en") (JObj [])
                           (mkDisk (fun _ => None) true)
       = IoReturns (true, d1)
       /\ getTranslationSync parseValue (fun a b => a ++ lit "/" ++ b)
                             (lit "lang") (lit "en") d1 = JObj []
       /\ (forall code',
             translationPath (fun a b => a ++ lit "/" ++ b) (lit "lang") code'
             <> translationPath (fun a b => a ++ lit "/" ++ b) (lit "lang")
                                (lit "en") ->
             getTranslationSync parseValue (fun a b => a ++ lit "/" ++ b)
                                (lit "lang") code' d1
             = getTranslationSync parseValue (fun a b => a ++ lit "/" ++ b)
                                  (lit "lang") code'
                                  (mkDisk (fun _ => None) true))
       /\ removeTranslationSync (fun a b => a ++ lit "/" ++ b) (lit "lang")
                                (lit "en") d1
          = IoReturns (true, d2)
       /\ getTranslationSync parseValue (fun a b => a ++ lit "/" ++ b)
                             (lit "lang") (lit "en") d2 = JNull
       /\ removeTranslationSync (fun a b => a ++ lit "/" ++ b) (lit "lang")
                                (lit "en") d2
          = IoThrows.
Proof.
  split; [reflexivity|]. split; [reflexivity|].
  exact (translation_saved_and_removed json parseValue stringifyValue
           (fun a b => a ++ lit "/" ++ b) (lit "lang") (fun b j => eq_refl)
           (lit "en") (JObj []) (mkDisk (fun _ => None) true) eq_refl).
Defined.

(** ** Relative paths *)

Section ClassRuns.

Variables (ml : bool) (s : jsstring).

(** A repetition of a class only goes over code units of the class. *)
Lemma repeat_class_inv p greedy c :
  forall fuel mn mx x w,
    repeatMatcher (rmatch false ml s (Cls p)) [] greedy c fuel mn mx x = Some w ->
    exists y, c y = Some w
              /\ endIndex x <= endIndex y
              /\ forall i, endIndex x <= i < endIndex y ->
                           exists ch, nth_error s i = Some ch /\ p ch = true.
Proof.
  induction fuel as [|fuel IH]; intros mn mx x w H; [discriminate H|].
  rewrite repeatMatcher_S in H.
  assert (Hstop : c x = Some w ->
                  exists y, c y = Some w
                            /\ endIndex x <= endIndex y
                            /\ forall i, endIndex x <= i < endIndex y ->
                                         exists ch, nth_error s i = Some ch
                                                    /\ p ch = true).
  { intros Hc. exists x. split; [exact Hc|]. split; [lia|]. intros i Hi. lia. }
  assert (Hgo : rmatch false ml s (Cls p)
                       (repeatCont (rmatch false ml s (Cls p)) [] greedy c fuel
                                   mn mx x) (clear [] x) = Some w ->
                exists y, c y = Some w
                          /\ endIndex x <= endIndex y
                          /\ forall i, endIndex x <= i < endIndex y ->
                                       exists ch, nth_error s i = Some ch
                                                  /\ p ch = true).
  { rewrite clear_nil. cbn [rmatch].
    destruct (nth_error s (endIndex x)) as [ch|] eqn:E; [|discriminate].
    change (classHolds false p ch) with (p ch).
    destruct (p ch) eqn:Hp; [|discriminate].
    unfold repeatCont.
    destruct (Nat.eqb mn 0 && Nat.eqb _ _); [discriminate|].
    intros Hr. apply IH in Hr. destruct Hr as [y [Hc [Hle Hall]]].
    cbn [endIndex] in Hle, Hall.
    exists y. split; [exact Hc|]. split; [lia|].
    intros i Hi. destruct (Nat.eq_dec i (endIndex x)) as [->|Hne].
    - exists ch. now split.
    - apply Hall. lia. }
  destruct mx as [[|mx]|].
  - now apply Hstop.
  - destruct (negb (Nat.eqb mn 0)); [now apply Hgo|].
    destruct greedy.
    + destruct (rmatch false ml s (Cls p) _ (clear [] x)) as [z|] eqn:E;
        [|now apply Hstop].
      inversion H; subst z. now apply Hgo.
    + destruct (c x) as [z|] eqn:E; [|now apply Hgo].
      inversion H; subst z. now apply Hstop.
  - destruct (negb (Nat.eqb mn 0)); [now apply Hgo|].
    destruct greedy.
    + destruct (rmatch false ml s (Cls p) _ (clear [] x)) as [z|] eqn:E;
        [|now apply Hstop].
      inversion H; subst z. now apply Hgo.
    + destruct (c x) as [z|] eqn:E; [|now apply Hgo].
      inversion H; subst z. now apply Hstop.
Qed.

(** A greedy [+] of a class takes the whole run of the class. *)
Lemma rmatch_Plus_run p c w a run t x :
  skipn (endIndex x) s = a :: run ++ t ->
  p a = true ->
  forallb p run = true ->
  match t with [] => true | b :: _ => negb (p b) end = true ->
  c (mkState (endIndex x + S (List.length run)) (captures x)) = Some w ->
  rmatch false ml s (Plus (Cls p)) c x = Some w.
Proof.
  intros Hs Ha Hrun Ht Hc.
  assert (Hlen : endIndex x < List.length s).
  { apply nth_error_Some. rewrite nth_error_skipn, Hs. discriminate. }
  unfold Plus. rewrite rmatch_Rep_eq, repeatMatcher_S. cbn [Nat.eqb negb groups].
  rewrite clear_nil, rmatch_Cls_at, Hs, Ha.
  unfold repeatCont. cbn [Nat.eqb andb Nat.pred pred_max endIndex captures].
  pose proof (@repeatMatcher_fuel_enough false ml s (Cls p) true c
                (1 + (List.length s - endIndex x))
                (S (0 + (List.length s - S (endIndex x)))) 0 None
                (mkState (S (endIndex x)) (captures x))) as Hfuel.
  cbn [groups endIndex] in Hfuel. rewrite Hfuel by lia.
  change (rmatch false ml s (Star (Cls p)) c
                 (mkState (S (endIndex x)) (captures x)) = Some w).
  apply (rmatch_Star_run ml s p c w run t); [|exact Hrun|exact Ht|].
  - cbn [endIndex]. now rewrite skipn_S, Hs.
  - cbn [endIndex captures]. now rewrite Nat.add_succ_r in Hc.
Qed.

End ClassRuns.

Lemma isSegment_cons seg :
  isSegment seg = true ->
  exists a run, seg = a :: run /\ noneOf "." a = true
                /\ forallb (noneOf ".") run = true.
Proof.
  unfold isSegment. destruct seg as [|a run]; [discriminate|].
  cbn [List.length Nat.eqb negb andb forallb]. intros H.
  apply andb_prop in H. destruct H as [Ha Hrun]. now exists a, run.
Qed.

(** The match of [reLastSegment] where the last segment starts. *)
Lemma matchAt_last_segment p seg tail :
  isSegment seg = true ->
  tail = [] \/ tail = lit "." ->
  exists y,
    matchAt false false (p ++ seg ++ tail) (pattern reLastSegment) (List.length p)
    = Some y
    /\ endIndex y = List.length (p ++ seg ++ tail).
Proof.
  intros Hseg Htail. destruct (isSegment_cons seg Hseg) as [a [run [-> [Ha Hrun]]]].
  set (s := p ++ (a :: run) ++ tail).
  assert (Hs : skipn (List.length p) s = a :: run ++ tail)
    by (unfold s; now rewrite skipn_app_length).
  assert (Hlen : List.length s = List.length p + S (List.length run)
                                 + List.length tail).
  { unfold s. rewrite !length_app. cbn [List.length]. lia. }
  assert (Hend : skipn (List.length p + S (List.length run)) s = tail).
  { rewrite Nat.add_comm, <- skipn_skipn, Hs.
    change (a :: run ++ tail) with ((a :: run) ++ tail).
    now rewrite <- (skipn_app_length (a :: run) tail) at 2. }
  unfold matchAt. cbn [pattern reLastSegment seqs].
  change (word ".") with (Chr 46). rewrite rmatch_Seq_eq.
  destruct Htail as [Ht|Ht]; subst tail.
  - exists (mkState (List.length p + S (List.length run)) []).
    split; [|cbn [endIndex]; rewrite Hlen; cbn [List.length]; lia].
    apply (rmatch_Plus_run false s (noneOf ".") _ _ a run []);
      [exact Hs|exact Ha|exact Hrun|reflexivity|].
    cbn [endIndex captures]. rewrite rmatch_Seq_eq.
    rewrite rmatch_Opt_Chr_out by (cbn [endIndex]; now rewrite Hend).
    cbn [rmatch endIndex]. unfold atLineEnd.
    replace (List.length s <=? List.length p + S (List.length run)) with true;
      [reflexivity|].
    symmetry. apply Nat.leb_le. rewrite Hlen. cbn [List.length]. lia.
  - exists (mkState (S (List.length p + S (List.length run))) []).
    split; [|cbn [endIndex]; rewrite Hlen; cbn [List.length lit map
                                                list_ascii_of_string]; lia].
    apply (rmatch_Plus_run false s (noneOf ".") _ _ a run (lit "."));
      [exact Hs|exact Ha|exact Hrun|reflexivity|].
    cbn [endIndex captures]. rewrite rmatch_Seq_eq.
    unfold Opt. rewrite rmatch_Rep_eq, repeatMatcher_S.
    cbn [Nat.eqb negb groups]. rewrite clear_nil, rmatch_Chr_last.
    cbn [endIndex captures]. rewrite Hend. change (lit ".") with [46%N].
    change (N.eqb 46 46) with true. cbv iota.
    unfold repeatCont. cbn [endIndex].
    replace (Nat.eqb (S (List.length p + S (List.length run)))
                     (List.length p + S (List.length run))) with false
      by (symmetry; apply Nat.eqb_neq; lia).
    rewrite andb_false_r. cbn [pred_max Nat.pred]. rewrite Hlen.
    change (List.length (lit ".")) with 1.
    replace (0 + (List.length p + S (List.length run) + 1
                  - (List.length p + S (List.length run)))) with 1 by lia.
    rewrite repeatMatcher_S. cbn [rmatch endIndex]. unfold atLineEnd.
    replace (List.length s <=? S (List.length p + S (List.length run))) with true;
      [reflexivity|].
    symmetry. apply Nat.leb_le. rewrite Hlen.
    cbn [List.length lit map list_ascii_of_string]. lia.
Qed.

(** No match of [reLastSegment] starts before a dot that is followed by a
    segment. *)
Lemma matchAt_before_last_segment p' seg tail j :
  isSegment seg = true ->
  j <= List.length p' ->
  matchAt false false ((p' ++ lit ".") ++ seg ++ tail) (pattern reLastSegment) j
  = None.
Proof.
  intros Hseg Hj. destruct (isSegment_cons seg Hseg) as [a [run [-> _]]].
  set (s := (p' ++ lit ".") ++ (a :: run) ++ tail).
  assert (Hdot : nth_error s (List.length p') = Some 46%N).
  { unfold s. rewrite <- app_assoc. rewrite nth_error_app2 by lia.
    now rewrite Nat.sub_diag. }
  assert (Hlen : List.length p' + 2 <= List.length s).
  { unfold s. rewrite !length_app. cbn [List.length lit map list_ascii_of_string].
    lia. }
  destruct (matchAt false false s (pattern reLastSegment) j) as [w|] eqn:E;
    [exfalso|reflexivity].
  unfold matchAt in E. cbn [pattern reLastSegment seqs] in E.
  change (word ".") with (Chr 46) in E.
  rewrite rmatch_Seq_eq in E. unfold Plus in E. rewrite rmatch_Rep_eq in E.
  apply repeat_class_inv in E. destruct E as [y [Hy [Hle Hall]]].
  cbn [endIndex] in Hle, Hall.
  assert (Hy_le : endIndex y <= List.length p').
  { destruct (Nat.le_gt_cases (endIndex y) (List.length p')) as [H|H]; [exact H|].
    destruct (Hall (List.length p')) as [ch [Hch Hnd]]; [lia|].
    rewrite Hdot in Hch. inversion Hch; subst ch. discriminate Hnd. }
  assert (Hend : List.length s <= S (endIndex y)).
  { rewrite rmatch_Seq_eq in Hy. unfold Opt in Hy.
    rewrite rmatch_Rep_eq, repeatMatcher_S in Hy. cbn [Nat.eqb negb groups] in Hy.
    rewrite clear_nil, rmatch_Chr_last in Hy.
    assert (Heol : forall x v, rmatch false false s Eol (fun y => Some y) x = Some v ->
                               List.length s <= endIndex x).
    { intros x v Hx. cbn [rmatch] in Hx. unfold atLineEnd in Hx.
      rewrite andb_false_l, orb_false_r in Hx.
      destruct (List.length s <=? endIndex x) eqn:El; [|discriminate Hx].
      now apply Nat.leb_le. }
    destruct (skipn (endIndex y) s) as [|b t].
    - apply Heol in Hy. lia.
    - destruct (N.eqb b 46).
      + unfold repeatCont in Hy. cbn [endIndex] in Hy.
        replace (Nat.eqb (S (endIndex y)) (endIndex y)) with false in Hy
          by (symmetry; apply Nat.eqb_neq; lia).
        rewrite andb_false_r in Hy. cbn [pred_max Nat.pred] in Hy.
        destruct (0 + (List.length s - endIndex y)) as [|fuel].
        * cbn [repeatMatcher] in Hy. apply Heol in Hy. lia.
        * rewrite repeatMatcher_S in Hy.
          destruct (rmatch false false s Eol (fun y => Some y)
                           (mkState (S (endIndex y)) (captures y))) eqn:E1.
          -- apply Heol in E1. cbn [endIndex] in E1. lia.
          -- apply Heol in Hy. lia.
      + apply Heol in Hy. lia. }
  lia.
Qed.

(** [rel2.replace(/[^.]+\.?$/, '')] drops the last segment, with the dot
    after it when there is one. *)
Lemma replace_reLastSegment_drops p seg tail :
  p = [] \/ (exists p', p = p' ++ lit ".") ->
  isSegment seg = true ->
  tail = [] \/ tail = lit "." ->
  replace reLastSegment [] (p ++ seg ++ tail) = p.
Proof.
  intros Hp Hseg Htail.
  destruct (matchAt_last_segment p seg tail Hseg Htail) as [y [Hy He]].
  assert (Hexec : exec reLastSegment (p ++ seg ++ tail) 0
                  = Some (mkResult (List.length p) y)).
  { rewrite (exec_skip_many reLastSegment (p ++ seg ++ tail) (List.length p) 0).
    - apply exec_here; [rewrite length_app; lia|exact Hy].
    - intros j Hj. destruct Hp as [->|[p' ->]]; [cbn [List.length] in Hj; lia|].
      apply matchAt_before_last_segment; [exact Hseg|].
      rewrite length_app in Hj. cbn [List.length lit map list_ascii_of_string] in Hj.
      lia. }
  unfold replace, matches. cbn [flagG reLastSegment]. rewrite Hexec.
  cbn [splice index expand flat_map]. unfold lastOf. cbn [final]. rewrite He.
  rewrite skipn_all. unfold substring. cbn [skipn]. rewrite Nat.sub_0_r.
  rewrite firstn_app, firstn_all, Nat.sub_diag. cbn [firstn].
  now rewrite !app_nil_r.
Qed.

Lemma withDots_snoc init last :
  withDots (init ++ [last]) = withDots init ++ last ++ lit ".".
Proof.
  unfold withDots. rewrite flat_map_app. cbn [flat_map]. now rewrite app_nil_r.
Qed.

Lemma joinDots_snoc init last :
  joinDots (init ++ [last]) = withDots init ++ last.
Proof.
  induction init as [|s init IH]; [reflexivity|].
  cbn [app]. destruct init as [|s' init'].
  - cbn [app joinDots withDots flat_map]. now rewrite app_nil_r, <- app_assoc.
  - change (joinDots (s :: (s' :: init') ++ [last]))
      with (s ++ lit "." ++ joinDots ((s' :: init') ++ [last])).
    rewrite IH. unfold withDots. cbn [flat_map]. now rewrite <- !app_assoc.
Qed.

Lemma withDots_end init :
  withDots init = [] \/ exists p', withDots init = p' ++ lit ".".
Proof.
  destruct init as [|s init]; [now left|].
  right. destruct (@exists_last _ (s :: init)) as [init' [x Hx]]; [discriminate|].
  rewrite Hx, withDots_snoc. exists (withDots init' ++ x).
  now rewrite <- app_assoc.
Qed.

Lemma drop_withDots init last :
  isSegment last = true ->
  replace reLastSegment [] (withDots (init ++ [last])) = withDots init.
Proof.
  intros H. rewrite withDots_snoc.
  apply replace_reLastSegment_drops; [apply withDots_end|exact H|now right].
Qed.

Lemma drop_joinDots init last :
  isSegment last = true ->
  replace reLastSegment [] (joinDots (init ++ [last])) = withDots init.
Proof.
  intros H. rewrite joinDots_snoc.
  rewrite <- (app_nil_r last) at 1.
  apply replace_reLastSegment_drops; [apply withDots_end|exact H|now left].
Qed.

Lemma firstn_snoc (A : Type) (l : list A) k :
  k < List.length l ->
  exists x, firstn (S k) l = firstn k l ++ [x] /\ In x l.
Proof.
  revert k. induction l as [|a l IH]; intros k Hk; [cbn in Hk; lia|].
  destruct k as [|k].
  - exists a. split; [reflexivity|now left].
  - cbn [List.length] in Hk. destruct (IH k) as [x [Hx Hin]]; [lia|].
    exists x. split; [|now right].
    change (firstn (S (S k)) (a :: l)) with (a :: firstn (S k) l).
    now rewrite Hx.
Qed.

Lemma drop_many segs :
  Forall (fun s => isSegment s = true) segs ->
  forall n,
    Nat.iter n (replace reLastSegment []) (withDots segs)
    = withDots (firstn (List.length segs - n) segs).
Proof.
  intros Hsegs. induction n as [|n IH].
  - change (Nat.iter 0 (replace reLastSegment []) (withDots segs))
      with (withDots segs).
    now rewrite Nat.sub_0_r, firstn_all.
  - rewrite Nat.iter_succ, IH.
    destruct (Nat.le_gt_cases (List.length segs) n) as [Hle|Hgt].
    + replace (List.length segs - n) with 0 by lia.
      replace (List.length segs - S n) with 0 by lia. reflexivity.
    + replace (List.length segs - n) with (S (List.length segs - S n)) by lia.
      destruct (firstn_snoc _ segs (List.length segs - S n)) as [x [Hx Hin]];
        [lia|].
      rewrite Hx. apply drop_withDots.
      rewrite Forall_forall in Hsegs. now apply Hsegs.
Qed.

Lemma resolveLoop_dots n :
  forall rel2 name,
    startsWithDot name = false ->
    resolveLoop rel2 (repeat 46%N n ++ name)
    = Nat.iter n (replace reLastSegment []) rel2 ++ name.
Proof.
  induction n as [|n IH]; intros rel2 name Hname.
  - change (Nat.iter 0 (replace reLastSegment []) rel2) with rel2.
    cbn [repeat app]. destruct name as [|c name]; cbn [resolveLoop];
      rewrite test_reLeadingDot, ?Hname; reflexivity.
  - cbn [repeat app resolveLoop]. rewrite test_reLeadingDot.
    cbn [startsWithDot]. change (N.eqb 46 46) with true. cbv iota.
    rewrite (IH _ name Hname). now rewrite Nat.iter_succ_r.
Qed.

Lemma joinDots_truthy segs :
  segs <> [] ->
  Forall (fun s => isSegment s = true) segs ->
  truthy_str (Some (joinDots segs)) = true.
Proof.
  intros Hne Hsegs. destruct (@exists_last _ segs Hne) as [init [last ->]].
  assert (Hlast : isSegment last = true).
  { rewrite Forall_forall in Hsegs. apply Hsegs. apply in_or_app. right. now left. }
  rewrite joinDots_snoc. destruct (isSegment_cons last Hlast) as [a [run [-> _]]].
  now destruct (withDots init).
Qed.

(** A path that begins with a dot is resolved by the loop, when there is a
    base. *)
Lemma resolve_dotted rel cls :
  truthy_str rel = true ->
  resolve rel (Some (46%N :: cls))
  = Returns (Some (resolveLoop (toStr rel) (46%N :: cls))).
Proof. intros H. rewrite resolve_some, H. reflexivity. Qed.

(** The loop of [resolve] on a base of segments and a path of dots and a
    name. *)
Lemma resolveLoop_relative segs n name :
  segs <> [] ->
  Forall (fun s => isSegment s = true) segs ->
  startsWithDot name = false ->
  resolveLoop (joinDots segs) (repeat 46%N (S n) ++ name)
  = withDots (firstn (List.length segs - S n) segs) ++ name.
Proof.
  intros Hne Hsegs Hname.
  destruct (@exists_last _ segs Hne) as [init [last ->]].
  assert (Hlast : isSegment last = true).
  { rewrite Forall_forall in Hsegs. apply Hsegs. apply in_or_app. right. now left. }
  assert (Hinit : Forall (fun s => isSegment s = true) init).
  { apply Forall_app in Hsegs. now destruct Hsegs. }
  rewrite (resolveLoop_dots (S n) _ name Hname).
  rewrite Nat.iter_succ_r, (drop_joinDots init last Hlast), (drop_many init Hinit).
  rewrite length_app. cbn [List.length].
  replace (List.length init + 1 - S n) with (List.length init - n) by lia.
  rewrite firstn_app.
  replace (List.length init - n - List.length init) with 0 by lia.
  cbn [firstn]. now rewrite app_nil_r.
Qed.

(** X19: Every leading dot of a relative path drops one trailing segment of
    the base; what is left of the base, with a dot after each segment, comes
    before the rest of the path.  With at least as many dots as the base
    has segments nothing is left of it. *)
Theorem resolve_relative segs n name :
  segs <> [] ->
  Forall (fun s => isSegment s = true) segs ->
  startsWithDot name = false ->
  resolve (Some (joinDots segs)) (Some (repeat 46%N (S n) ++ name))
  = Returns (Some (withDots (firstn (List.length segs - S n) segs) ++ name)).
Proof.
  intros Hne Hsegs Hname.
  change (repeat 46%N (S n) ++ name) with (46%N :: repeat 46%N n ++ name).
  rewrite resolve_dotted by now apply joinDots_truthy.
  cbn [toStr].
  change (46%N :: repeat 46%N n ++ name) with (repeat 46%N (S n) ++ name).
  now rewrite resolveLoop_relative.
Qed.

Lemma resolve_relative_witness :
  [lit "a"; lit "b"; lit "c"] <> []
  /\ Forall (fun s => isSegment s = true) [lit "a"; lit "b"; lit "c"]
  /\ startsWithDot (lit "Foo") = false
  /\ resolve (Some (joinDots [lit "a"; lit "b"; lit "c"]))
             (Some (repeat 46%N (S 1) ++ lit "Foo"))
     = Returns (Some (withDots (firstn (List.length [lit "a"; lit "b"; lit "c"] - S 1)
                                       [lit "a"; lit "b"; lit "c"])
                      ++ lit "Foo")).
Proof.
  assert (H : Forall (fun s => isSegment s = true) [lit "a"; lit "b"; lit "c"])
    by (repeat constructor).
  split; [discriminate|]. split; [exact H|]. split; [reflexivity|].
  exact (resolve_relative [lit "a"; lit "b"; lit "c"] 1 (lit "Foo")
           ltac:(discriminate) H eq_refl).
Defined.

(** ** Import statements *)

Section LazyRuns.

Variables (ml : bool) (s : jsstring).

Lemma rmatch_Alt_eq ic a b c x :
  rmatch ic ml s (Alt a b) c x
  = match rmatch ic ml s a c x with
    | Some z => Some z
    | None => rmatch ic ml s b c x
    end.
Proof. reflexivity. Qed.

(** A lazy star of a class stops at the first place where the continuation
    accepts. *)
Lemma rmatch_LazyStar_run p c w :
  forall run t x,
    skipn (endIndex x) s = run ++ t ->
    forallb p run = true ->
    (forall k, k < List.length run ->
               c (mkState (endIndex x + k) (captures x)) = None) ->
    c (mkState (endIndex x + List.length run) (captures x)) = Some w ->
    rmatch false ml s (LazyStar (Cls p)) c x = Some w.
Proof.
  induction run as [|a run IH]; intros t x Hs Hrun Hfail Hc.
  - cbn [List.length] in Hc. rewrite Nat.add_0_r in Hc.
    replace (mkState (endIndex x) (captures x)) with x in Hc by now destruct x.
    unfold LazyStar. cbn [rmatch]. rewrite repeatMatcher_S. cbn [Nat.eqb negb].
    now rewrite Hc.
  - cbn [forallb] in Hrun. apply andb_prop in Hrun. destruct Hrun as [Ha Hrun].
    assert (Hlen : endIndex x < List.length s).
    { apply nth_error_Some. rewrite nth_error_skipn, Hs. discriminate. }
    assert (H0 : c x = None).
    { specialize (Hfail 0). rewrite Nat.add_0_r in Hfail.
      replace (mkState (endIndex x) (captures x)) with x in Hfail
        by now destruct x.
      apply Hfail. cbn [List.length]. lia. }
    unfold LazyStar. cbn [rmatch]. rewrite repeatMatcher_S. cbn [Nat.eqb negb].
    rewrite H0. cbn [rmatch groups]. rewrite clear_nil, nth_error_skipn, Hs.
    cbn [app hd_error]. change (classHolds false p a) with (p a). rewrite Ha.
    unfold repeatCont. cbn [endIndex captures].
    replace (Nat.eqb (S (endIndex x)) (endIndex x)) with false
      by (symmetry; apply Nat.eqb_neq; lia).
    rewrite andb_false_r. cbn [pred_max Nat.pred].
    replace (0 + (List.length s - endIndex x))
      with (S (0 + (List.length s - S (endIndex x)))) by lia.
    specialize (IH t (mkState (S (endIndex x)) (captures x))).
    unfold LazyStar in IH. cbn [rmatch groups endIndex captures] in IH.
    apply IH.
    + rewrite skipn_S, Hs. reflexivity.
    + exact Hrun.
    + intros k Hk. specialize (Hfail (S k)).
      rewrite Nat.add_succ_r in Hfail. apply Hfail. cbn [List.length]. lia.
    + cbn [List.length] in Hc. now rewrite Nat.add_succ_r in Hc.
Qed.

End LazyRuns.

Section StatementEnd.

Variable s : jsstring.

(** The end of the import grammar, white space, semicolons and the end of
    a line, does not match before a code unit that is none of them. *)
Lemma statement_end_fails c x i :
  endIndex x <= i ->
  (forall n, endIndex x <= n <= i ->
             exists ch, nth_error s n = Some ch /\ dot ch = true) ->
  (exists ch, nth_error s i = Some ch /\ isPlain ch = true) ->
  rmatch false true s (Seq (Star (Cls isSpace)) (Seq (Star (word ";")) Eol)) c x
  = None.
Proof.
  intros Hxi Hdot [z [Hz Hplain]].
  destruct (rmatch false true s _ c x) as [w|] eqn:E; [exfalso|reflexivity].
  change (word ";") with (Chr 59) in E.
  rewrite rmatch_Seq_eq in E. unfold Star at 1 in E. rewrite rmatch_Rep_eq in E.
  apply repeat_class_inv in E. destruct E as [y1 [H1 [Hle1 Hall1]]].
  rewrite rmatch_Seq_eq in H1.
  change (rmatch false true s (Star (Chr 59)))
    with (rmatch false true s (Star (Cls (fun ch => N.eqb ch 59)))) in H1.
  unfold Star in H1. rewrite rmatch_Rep_eq in H1.
  apply repeat_class_inv in H1. destruct H1 as [y2 [H2 [Hle2 Hall2]]].
  cbn [rmatch] in H2.
  destruct (atLineEnd true s (endIndex y2)) eqn:El; [|discriminate H2].
  unfold isPlain in Hplain. apply andb_prop in Hplain.
  destruct Hplain as [Hns Hnsemi].
  apply negb_true_iff in Hns. apply negb_true_iff in Hnsemi.
  destruct (Nat.le_gt_cases (endIndex y2) i) as [Hin|Hout].
  - unfold atLineEnd in El. apply orb_prop in El. destruct El as [El|El].
    + apply Nat.leb_le in El.
      assert (i < List.length s) by (apply nth_error_Some; now rewrite Hz).
      lia.
    + cbn [andb] in El. unfold charIs in El.
      destruct (Hdot (endIndex y2)) as [ch [Hch Hd]]; [lia|].
      rewrite Hch in El. unfold dot in Hd. rewrite El in Hd. discriminate Hd.
  - destruct (Nat.le_gt_cases (endIndex y1) i) as [Hsemi|Hspace].
    + destruct (Hall2 i) as [ch [Hch Hp]]; [lia|].
      rewrite Hz in Hch. inversion Hch; subst ch. rewrite Hnsemi in Hp.
      discriminate Hp.
    + destruct (Hall1 i) as [ch [Hch Hp]]; [lia|].
      rewrite Hz in Hch. inversion Hch; subst ch. rewrite Hns in Hp.
      discriminate Hp.
Qed.

Lemma semicolons_run n :
  forallb (fun ch => N.eqb ch 59) (repeat 59%N n) = true.
Proof. induction n as [|n IH]; [reflexivity|exact IH]. Qed.

(** The import grammar after the keyword: one space, a text [body] that
    holds no line terminator, begins with no white space and ends with a
    code unit of a word, [n] semicolons, and the end of the line, which is
    the end of the text when there is no semicolon. *)
Lemma rmatch_statement_rest L caps body init z n tail :
  skipn L s = 32%N :: body ++ repeat 59%N n ++ tail ->
  match tail with
  | [] => true
  | b :: _ => isLineTerminator b && negb (Nat.eqb n 0)
  end = true ->
  body = init ++ [z] ->
  isPlain z = true ->
  forallb dot body = true ->
  match body with a :: _ => negb (isSpace a) | [] => false end = true ->
  rmatch false true s
         (Seq (Plus (Cls isSpace))
              (Seq (Grp 3 (LazyStar (Cls dot)))
                   (Seq (Star (Cls isSpace)) (Seq (Star (word ";")) Eol))))
         (fun y => Some y) (mkState L caps)
  = Some (mkState (L + 1 + List.length body + n)
                  ((3, (L + 1, L + 1 + List.length body)) :: caps)).
Proof.
  intros Hs Htail Hbody Hz Hdot Hhd.
  assert (Hnth : forall k, nth_error s (L + 1 + k)
                           = nth_error (body ++ repeat 59%N n ++ tail) k).
  { intros k. rewrite <- Nat.add_assoc, <- List.nth_error_skipn, Hs.
    reflexivity. }
  assert (Hsemi : skipn (L + 1 + List.length body) s = repeat 59%N n ++ tail).
  { replace (L + 1 + List.length body) with (List.length body + (1 + L)) by lia.
    rewrite <- skipn_skipn, <- skipn_skipn, Hs. cbn [skipn].
    apply skipn_app_length. }
  assert (Hend : skipn (L + 1 + List.length body + n) s = tail).
  { replace (L + 1 + List.length body + n)
      with (n + (L + 1 + List.length body)) by lia.
    rewrite <- skipn_skipn, Hsemi.
    rewrite <- (repeat_length 59%N n) at 1. apply skipn_app_length. }
  rewrite rmatch_Seq_eq.
  apply (rmatch_Plus_run true s isSpace _ _ 32%N []
           (body ++ repeat 59%N n ++ tail));
    [exact Hs|reflexivity|reflexivity| |].
  { destruct body as [|a body']; [discriminate Hhd|exact Hhd]. }
  cbn [endIndex captures List.length].
  rewrite rmatch_Seq_eq, rmatch_Grp_eq. cbn [endIndex].
  apply (rmatch_LazyStar_run true s dot _ _ body (repeat 59%N n ++ tail)).
  - cbn [endIndex]. rewrite <- (Nat.add_0_r (L + 1)) at 1.
    replace (L + 1 + 0) with (1 + L) by lia.
    rewrite <- skipn_skipn, Hs. reflexivity.
  - exact Hdot.
  - intros k Hk. cbn [endIndex captures].
    apply (statement_end_fails _ _ (L + 1 + List.length init)).
    + unfold setCapture. cbn [endIndex]. rewrite Hbody, length_app in Hk.
      cbn [List.length] in Hk. lia.
    + unfold setCapture. cbn [endIndex]. intros i Hi.
      assert (Hin : i - (L + 1) < List.length body).
      { rewrite Hbody, length_app. cbn [List.length]. lia. }
      destruct (nth_error body (i - (L + 1))) as [ch|] eqn:Hch.
      * exists ch. split.
        -- replace i with (L + 1 + (i - (L + 1))) by lia.
           rewrite Hnth, nth_error_app1 by exact Hin. exact Hch.
        -- apply nth_error_In in Hch.
           rewrite forallb_forall in Hdot. now apply Hdot.
      * apply nth_error_None in Hch. lia.
    + exists z. split; [|exact Hz].
      rewrite Hnth, nth_error_app1
        by (rewrite Hbody, length_app; cbn [List.length]; lia).
      rewrite Hbody, nth_error_app2 by lia. now rewrite Nat.sub_diag.
  - cbn [endIndex captures]. unfold setCapture. cbn [endIndex captures].
    rewrite rmatch_Seq_eq.
    rewrite rmatch_Star_stop.
    2:{ cbn [endIndex]. rewrite Hsemi. destruct n as [|n']; [|reflexivity].
        destruct tail as [|b tail']; [reflexivity|].
        cbn [Nat.eqb negb] in Htail. rewrite andb_false_r in Htail.
        discriminate Htail. }
    rewrite rmatch_Seq_eq.
    change (word ";") with (Chr 59).
    change (rmatch false true s (Star (Chr 59)))
      with (rmatch false true s (Star (Cls (fun ch => N.eqb ch 59)))).
    apply (rmatch_Star_run true s _ _ _ (repeat 59%N n) tail);
      [exact Hsemi|apply semicolons_run| |].
    + destruct tail as [|b tail']; [reflexivity|].
      apply andb_prop in Htail. destruct Htail as [Hb _].
      destruct (N.eqb_spec b 59) as [->|_]; [discriminate Hb|reflexivity].
    + cbn [endIndex captures rmatch]. rewrite repeat_length.
      unfold atLineEnd, charIs.
      rewrite nth_error_skipn, Hend.
      destruct tail as [|b tail'].
      * apply (f_equal (@List.length N)) in Hend. rewrite length_skipn in Hend.
        cbn [List.length] in Hend.
        replace (List.length s <=? L + 1 + List.length body + n) with true
          by (symmetry; apply Nat.leb_le; lia).
        reflexivity.
      * apply andb_prop in Htail. destruct Htail as [Hb _].
        cbn [hd_error andb]. rewrite Hb. now rewrite orb_true_r.
Qed.

End StatementEnd.

Section Words.

Variables (ml : bool) (s : jsstring).

Lemma rmatch_Alt_l a b c x w :
  rmatch false ml s a c x = Some w -> rmatch false ml s (Alt a b) c x = Some w.
Proof. intros H. rewrite rmatch_Alt_eq. now rewrite H. Qed.

Lemma rmatch_Alt_r a b c x :
  rmatch false ml s a c x = None ->
  rmatch false ml s (Alt a b) c x = rmatch false ml s b c x.
Proof. intros H. rewrite rmatch_Alt_eq. now rewrite H. Qed.

Lemma startsWith_app p t : startsWith p (p ++ t) = true.
Proof.
  induction p as [|a p IH]; [reflexivity|].
  cbn [app startsWith]. now rewrite N.eqb_refl, IH.
Qed.

(** The text goes on with the code units of a pattern word. *)
Lemma rmatch_word_here p a t c x w :
  skipn (endIndex x) s = p ++ a :: t ->
  c (mkState (endIndex x + S (List.length p)) (captures x)) = Some w ->
  rmatch false ml s (litThen p (Chr a)) c x = Some w.
Proof.
  intros Hs Hc. rewrite rmatch_litThen, Hs, startsWith_app.
  rewrite rmatch_Chr_last. cbn [endIndex captures].
  rewrite Nat.add_comm, <- skipn_skipn, Hs, skipn_app_length.
  rewrite N.eqb_refl. rewrite <- Hc. f_equal. f_equal. lia.
Qed.

(** The text goes on with another code unit than the first of a pattern
    word. *)
Lemma rmatch_word_not a p r b t c x :
  skipn (endIndex x) s = b :: t ->
  N.eqb b a = false ->
  rmatch false ml s (litThen (a :: p) r) c x = None.
Proof.
  intros Hs Hb. cbn [litThen fold_right]. rewrite rmatch_Chr_at, Hs.
  now rewrite Hb.
Qed.

End Words.

(** The match of the import grammar on a statement that fills a line: the
    keyword, a space, the body and [n] semicolons.  [pre] is the text
    before the line and [tail] the text after it, which is empty when
    there is no semicolon. *)
Lemma matchAt_statement pre kw body init z n tail :
  match rev pre with [] => true | b :: _ => isLineTerminator b end = true ->
  kw = lit "import" \/ kw = lit "from" ->
  match tail with
  | [] => true
  | b :: _ => isLineTerminator b && negb (Nat.eqb n 0)
  end = true ->
  body = init ++ [z] ->
  isPlain z = true ->
  forallb dot body = true ->
  match body with a :: _ => negb (isSpace a) | [] => false end = true ->
  matchAt false true (pre ++ kw ++ lit " " ++ body ++ repeat 59%N n ++ tail)
          (pattern importRegex) (List.length pre)
  = Some (mkState (List.length pre + List.length kw + 1 + List.length body + n)
                  [(3, (List.length pre + List.length kw + 1,
                        List.length pre + List.length kw + 1 + List.length body));
                   (2, (List.length pre, List.length pre + List.length kw));
                   (1, (List.length pre, List.length pre))]).
Proof.
  intros Hpre Hkw Htail Hbody Hz Hdot Hhd.
  set (s := pre ++ kw ++ lit " " ++ body ++ repeat 59%N n ++ tail).
  assert (Hs : forall k, skipn (List.length pre + k) s
                         = skipn k (kw ++ lit " " ++ body ++ repeat 59%N n ++ tail)).
  { intros k. rewrite Nat.add_comm, <- skipn_skipn. unfold s.
    now rewrite skipn_app_length. }
  assert (Hs0 : skipn (List.length pre) s
                = kw ++ lit " " ++ body ++ repeat 59%N n ++ tail).
  { rewrite <- (Nat.add_0_r (List.length pre)). now rewrite Hs. }
  assert (Hstart : atLineStart true s (List.length pre) = true).
  { destruct (rev pre) as [|b rp] eqn:Er.
    - apply (f_equal (@rev N)) in Er. rewrite rev_involutive in Er.
      now rewrite Er.
    - apply (f_equal (@rev N)) in Er. rewrite rev_involutive in Er.
      cbn [rev] in Er. rewrite Er, length_app. cbn [List.length].
      rewrite Nat.add_1_r. cbn [atLineStart andb]. unfold charIs, s.
      rewrite Er, <- app_assoc, nth_error_app2 by lia.
      rewrite Nat.sub_diag. exact Hpre. }
  unfold matchAt. cbn [pattern importRegex seqs]. fold s.
  rewrite rmatch_Seq_eq, rmatch_Bol_eq. cbn [endIndex]. rewrite Hstart.
  rewrite rmatch_Seq_eq, rmatch_Grp_eq.
  rewrite rmatch_Star_stop
    by (cbn [endIndex]; rewrite Hs0; destruct Hkw as [-> | ->]; reflexivity).
  unfold setCapture. cbn [endIndex captures].
  rewrite rmatch_Seq_eq, rmatch_Grp_eq. unfold keyword. cbn [endIndex].
  assert (Hrest : forall caps,
             rmatch false true s
               (Seq (Plus (Cls isSpace))
                  (Seq (Grp 3 (LazyStar (Cls dot)))
                     (Seq (Star (Cls isSpace)) (Seq (Star (word ";")) Eol))))
               (fun y => Some y)
               (mkState (List.length pre + List.length kw) caps)
             = Some (mkState (List.length pre + List.length kw + 1
                              + List.length body + n)
                       ((3, (List.length pre + List.length kw + 1,
                             List.length pre + List.length kw + 1
                             + List.length body)) :: caps))).
  { intros caps.
    apply (rmatch_statement_rest s _ caps body init z n tail);
      [|exact Htail|exact Hbody|exact Hz|exact Hdot|exact Hhd].
    rewrite Hs, skipn_app_length. reflexivity. }
  destruct Hkw as [-> | ->].
  - apply rmatch_Alt_l.
    change (word "import") with (litThen (lit "impor") (Chr 116)).
    apply (rmatch_word_here true s _ _
             (lit " " ++ body ++ repeat 59%N n ++ tail)); [exact Hs0|].
    cbn [endIndex captures]. unfold setCapture. cbn [endIndex captures].
    apply Hrest.
  - rewrite rmatch_Alt_r.
    2:{ change (word "import") with (litThen (lit "impor") (Chr 116)).
        apply (rmatch_word_not true s _ _ _ 102%N
                 (lit "rom" ++ lit " " ++ body ++ repeat 59%N n ++ tail));
          [exact Hs0|reflexivity]. }
    change (word "from") with (litThen (lit "fro") (Chr 109)).
    apply (rmatch_word_here true s _ _
             (lit " " ++ body ++ repeat 59%N n ++ tail)); [exact Hs0|].
    cbn [endIndex captures]. unfold setCapture. cbn [endIndex captures].
    apply Hrest.
Qed.

(** The captures of the match of a statement. *)
Lemma statement_groups pre kw body n tail :
  group (pre ++ kw ++ lit " " ++ body ++ repeat 59%N n ++ tail)
        (mkResult (List.length pre)
           (mkState (List.length pre + List.length kw + 1 + List.length body + n)
              [(3, (List.length pre + List.length kw + 1,
                    List.length pre + List.length kw + 1 + List.length body));
               (2, (List.length pre, List.length pre + List.length kw));
               (1, (List.length pre, List.length pre))])) 2
  = Some kw
  /\ group (pre ++ kw ++ lit " " ++ body ++ repeat 59%N n ++ tail)
           (mkResult (List.length pre)
              (mkState (List.length pre + List.length kw + 1 + List.length body + n)
                 [(3, (List.length pre + List.length kw + 1,
                       List.length pre + List.length kw + 1 + List.length body));
                  (2, (List.length pre, List.length pre + List.length kw));
                  (1, (List.length pre, List.length pre))])) 3
     = Some body.
Proof.
  unfold group. cbn [final getCapture captures find fst snd Nat.eqb].
  unfold substring. split.
  - rewrite skipn_app_length.
    replace (List.length pre + List.length kw - List.length pre)
      with (List.length kw) by lia.
    rewrite firstn_app, firstn_all, Nat.sub_diag. cbn [firstn].
    now rewrite app_nil_r.
  - replace (List.length pre + List.length kw + 1 + List.length body
             - (List.length pre + List.length kw + 1))
      with (List.length body) by lia.
    replace (List.length pre + List.length kw + 1)
      with (1 + (List.length kw + List.length pre)) by lia.
    rewrite <- !skipn_skipn, !skipn_app_length.
    cbn [lit map list_ascii_of_string app skipn].
    rewrite firstn_app, firstn_all, Nat.sub_diag. cbn [firstn].
    now rewrite app_nil_r.
Qed.


Lemma matchAt_at_end s i :
  skipn i s = [] -> matchAt false true s (pattern importRegex) i = None.
Proof.
  intros H. unfold matchAt. cbn [pattern importRegex seqs].
  rewrite rmatch_Seq_eq, rmatch_Bol_eq. cbn [endIndex].
  destruct (atLineStart true s i); [|reflexivity].
  rewrite rmatch_Seq_eq, rmatch_Grp_eq.
  rewrite rmatch_Star_stop by (cbn [endIndex]; now rewrite H).
  unfold setCapture. cbn [endIndex captures].
  rewrite rmatch_Seq_eq, rmatch_Grp_eq. unfold keyword.
  rewrite rmatch_Alt_eq.
  change (word "import") with (litThen (lit "impor") (Chr 116)).
  change (word "from") with (litThen (lit "fro") (Chr 109)).
  rewrite !rmatch_litThen. cbn [endIndex]. rewrite H. reflexivity.
Qed.

Lemma parseLoop_S fuel code rel lastIndex :
  parseLoop (S fuel) code rel lastIndex
  = match exec importRegex code lastIndex with
    | None => Returns []
    | Some m =>
        r <- importOf code rel m ;;
        rs <- parseLoop fuel code rel (lastOf m) ;;
        Returns (r :: rs)
    end.
Proof. reflexivity. Qed.

(** [parseImports] on one statement, with [n] semicolons at its end: the
    grammar matches once, with the keyword and the body as its second and
    third captures. *)
Lemma parseImports_statement kw body init z n rel :
  kw = lit "import" \/ kw = lit "from" ->
  body = init ++ [z] ->
  isPlain z = true ->
  forallb dot body = true ->
  match body with a :: _ => negb (isSpace a) | [] => false end = true ->
  exists m,
    importMatch (kw ++ lit " " ++ body ++ repeat 59%N n) m
    /\ group (kw ++ lit " " ++ body ++ repeat 59%N n) m 2 = Some kw
    /\ group (kw ++ lit " " ++ body ++ repeat 59%N n) m 3 = Some body
    /\ parseImports (kw ++ lit " " ++ body ++ repeat 59%N n) rel
       = (r <- importOf (kw ++ lit " " ++ body ++ repeat 59%N n) rel m ;;
          Returns [r]).
Proof.
  intros Hkw Hbody Hz Hdot Hhd.
  pose proof (matchAt_statement [] kw body init z n [] eq_refl Hkw eq_refl Hbody
                Hz Hdot Hhd) as Hm.
  destruct (statement_groups [] kw body n []) as [H2 H3].
  cbn [app List.length Nat.add] in Hm, H2, H3.
  rewrite app_nil_r in Hm, H2, H3.
  set (code := kw ++ lit " " ++ body ++ repeat 59%N n) in *.
  assert (Hlen : List.length code
                 = S (List.length kw + List.length body + n)).
  { unfold code. rewrite !length_app, repeat_length.
    cbn [List.length lit map list_ascii_of_string]. lia. }
  set (y := mkState (List.length kw + 1 + List.length body + n)
                    [(3, (List.length kw + 1,
                          List.length kw + 1 + List.length body));
                     (2, (0, List.length kw)); (1, (0, 0))]) in *.
  exists (mkResult 0 y).
  assert (He0 : exec importRegex code 0 = Some (mkResult 0 y)).
  { apply exec_here; [lia|exact Hm]. }
  assert (He1 : exec importRegex code (List.length code) = None).
  { rewrite exec_skip; [apply exec_past_end; lia|].
    apply matchAt_at_end. apply skipn_all. }
  split; [|split; [exact H2|split; [exact H3|]]].
  - split; [cbn [index]; lia|exact Hm].
  - unfold parseImports. rewrite Hlen, parseLoop_S, He0.
    replace (lastOf (mkResult 0 y)) with (List.length code)
      by (unfold lastOf, y; cbn [final endIndex]; lia).
    rewrite <- Hlen, parseLoop_S, He1.
    destruct (importOf code rel (mkResult 0 y)); reflexivity.
Qed.

(** ** Splitting into words *)

Lemma isPlain_no_space c : isPlain c = true -> isSpace c = false.
Proof.
  unfold isPlain. intros H. apply andb_prop in H. destruct H as [H _].
  now apply negb_true_iff in H.
Qed.

Lemma isPlain_dot c : isPlain c = true -> dot c = true.
Proof.
  intros H. apply isPlain_no_space in H. unfold dot, isLineTerminator.
  unfold isSpace in H.
  destruct (N.eqb c 10); [now rewrite ?orb_true_r in H|].
  destruct (N.eqb c 13); [now rewrite ?orb_true_r in H|].
  destruct (N.eqb c 8232); [now rewrite ?orb_true_r in H|].
  destruct (N.eqb c 8233); [now rewrite ?orb_true_r in H|].
  reflexivity.
Qed.

Lemma isToken_cons t :
  isToken t = true ->
  exists a r, t = a :: r /\ isPlain a = true /\ forallb isPlain r = true.
Proof.
  unfold isToken. destruct t as [|a r]; [discriminate|].
  cbn [List.length Nat.eqb negb andb forallb]. intros H.
  apply andb_prop in H. destruct H as [Ha Hr]. now exists a, r.
Qed.

Lemma isToken_plain t : isToken t = true -> forallb isPlain t = true.
Proof. unfold isToken. intros H. apply andb_prop in H. now destruct H. Qed.

Lemma matchAt_reSpaces_none s q ch :
  nth_error s q = Some ch -> isSpace ch = false ->
  matchAt false false s (pattern reSpaces) q = None.
Proof.
  intros Hq Hch. unfold matchAt. cbn [pattern reSpaces]. unfold Plus.
  rewrite rmatch_Rep_eq, repeatMatcher_S. cbn [Nat.eqb negb groups].
  rewrite clear_nil, rmatch_Cls_at. cbn [endIndex].
  rewrite nth_error_skipn in Hq.
  destruct (skipn q s) as [|b t]; [reflexivity|].
  cbn [hd_error] in Hq. inversion Hq; subst b. now rewrite Hch.
Qed.

Lemma matchAt_reSpaces_one s q t :
  skipn q s = 32%N :: t ->
  match t with [] => true | b :: _ => negb (isSpace b) end = true ->
  matchAt false false s (pattern reSpaces) q = Some (mkState (q + 1) []).
Proof.
  intros Hs Ht. unfold matchAt. cbn [pattern reSpaces].
  apply (rmatch_Plus_run false s isSpace _ _ 32%N [] t);
    [exact Hs|reflexivity|reflexivity|exact Ht|reflexivity].
Qed.

Lemma splitLoop_S fuel re s p q :
  splitLoop (S fuel) re s p q
  = if List.length s <=? q then [substring p (List.length s) s]
    else
      match matchAt (flagI re) (flagM re) s (pattern re) q with
      | None => splitLoop fuel re s p (S q)
      | Some y =>
          if Nat.eqb (Nat.min (endIndex y) (List.length s)) p
          then splitLoop fuel re s p (S q)
          else substring p q s
               :: splitLoop fuel re s (Nat.min (endIndex y) (List.length s))
                            (Nat.min (endIndex y) (List.length s))
      end.
Proof. reflexivity. Qed.

(** The search for a separator goes over a word without finding one. *)
Lemma splitLoop_scan s p :
  forall m q fuel,
    (forall i, q <= i < q + m ->
               exists ch, nth_error s i = Some ch /\ isSpace ch = false) ->
    splitLoop (m + fuel) reSpaces s p q = splitLoop fuel reSpaces s p (q + m).
Proof.
  induction m as [|m IH]; intros q fuel H.
  - now rewrite Nat.add_0_r.
  - destruct (H q) as [ch [Hch Hns]]; [lia|].
    cbn [Nat.add]. rewrite splitLoop_S.
    assert (Hlt : q < List.length s) by (apply nth_error_Some; now rewrite Hch).
    replace (List.length s <=? q) with false
      by (symmetry; apply Nat.leb_gt; exact Hlt).
    cbn [flagI flagM reSpaces].
    rewrite (matchAt_reSpaces_none s q ch Hch Hns).
    rewrite IH by (intros i Hi; apply H; lia).
    f_equal. lia.
Qed.

Lemma word_units pre t tail i :
  forallb isPlain t = true ->
  List.length pre <= i < List.length pre + List.length t ->
  exists ch, nth_error (pre ++ t ++ tail) i = Some ch /\ isSpace ch = false.
Proof.
  intros Ht Hi.
  destruct (nth_error t (i - List.length pre)) as [ch|] eqn:E.
  - exists ch. split.
    + rewrite nth_error_app2 by lia. rewrite nth_error_app1 by lia. exact E.
    + apply nth_error_In in E. rewrite forallb_forall in Ht.
      apply isPlain_no_space. now apply Ht.
  - apply nth_error_None in E. lia.
Qed.

Lemma joinSpaces_head toks :
  toks <> [] -> Forall (fun t => isToken t = true) toks ->
  exists a r, joinSpaces toks = a :: r /\ isPlain a = true.
Proof.
  intros Hne Hall. destruct toks as [|t toks]; [contradiction|].
  inversion Hall as [|? ? Ht Hrest]; subst.
  destruct (isToken_cons t Ht) as [a [r [-> [Ha _]]]].
  destruct toks as [|t2 toks]; cbn [joinSpaces]; eauto.
  cbn [app]. eauto.
Qed.

(** [split] on white space gives back the words that one space
    separates. *)
Lemma splitLoop_tokens :
  forall toks pre fuel,
    toks <> [] ->
    Forall (fun t => isToken t = true) toks ->
    2 * List.length (joinSpaces toks) + 1 < fuel ->
    splitLoop fuel reSpaces (pre ++ joinSpaces toks) (List.length pre)
              (List.length pre)
    = toks.
Proof.
  induction toks as [|t toks IH]; intros pre fuel Hne Hall Hfuel;
    [contradiction|].
  inversion Hall as [|? ? Ht Hrest]; subst.
  pose proof (isToken_plain t Ht) as Hplain.
  destruct toks as [|t2 toks].
  - cbn [joinSpaces] in *.
    replace fuel with (List.length t + (fuel - List.length t)) by lia.
    rewrite splitLoop_scan.
    2:{ intros i Hi.
        replace (pre ++ t) with (pre ++ t ++ []) by now rewrite app_nil_r.
        now apply word_units. }
    destruct (fuel - List.length t) as [|fuel'] eqn:Ef; [lia|].
    rewrite splitLoop_S, length_app.
    rewrite Nat.leb_refl. unfold substring.
    rewrite skipn_app_length.
    replace (List.length pre + List.length t - List.length pre)
      with (List.length t) by lia.
    now rewrite firstn_all.
  - assert (Hne2 : t2 :: toks <> []) by discriminate.
    destruct (joinSpaces_head (t2 :: toks) Hne2 Hrest) as [a [r [Hj Ha]]].
    change (joinSpaces (t :: t2 :: toks))
      with (t ++ lit " " ++ joinSpaces (t2 :: toks)) in *.
    set (J := joinSpaces (t2 :: toks)) in *.
    set (s := pre ++ t ++ lit " " ++ J).
    assert (Hlen : List.length s
                   = List.length pre + List.length t + 1 + List.length J).
    { unfold s. rewrite !length_app.
      cbn [List.length lit map list_ascii_of_string]. lia. }
    rewrite !length_app in Hfuel.
    cbn [List.length lit map list_ascii_of_string] in Hfuel.
    replace fuel with (List.length t + (fuel - List.length t)) by lia.
    rewrite splitLoop_scan by (intros i Hi; now apply word_units).
    destruct (fuel - List.length t) as [|fuel'] eqn:Ef; [lia|].
    rewrite splitLoop_S.
    replace (List.length s <=? List.length pre + List.length t) with false
      by (symmetry; apply Nat.leb_gt; lia).
    cbn [flagI flagM reSpaces].
    assert (Hs : skipn (List.length pre + List.length t) s = 32%N :: J).
    { unfold s. rewrite Nat.add_comm, <- skipn_skipn.
      now rewrite !skipn_app_length. }
    rewrite (matchAt_reSpaces_one s _ J Hs)
      by (rewrite Hj; now rewrite (isPlain_no_space a Ha)).
    cbn [endIndex].
    replace (Nat.min (List.length pre + List.length t + 1) (List.length s))
      with (List.length pre + List.length t + 1) by lia.
    replace (Nat.eqb (List.length pre + List.length t + 1) (List.length pre))
      with false by (symmetry; apply Nat.eqb_neq; lia).
    f_equal.
    + unfold substring, s. rewrite skipn_app_length.
      replace (List.length pre + List.length t - List.length pre)
        with (List.length t) by lia.
      rewrite firstn_app, firstn_all, Nat.sub_diag. cbn [firstn].
      now rewrite app_nil_r.
    + specialize (IH (pre ++ t ++ lit " ") fuel' Hne2 Hrest).
      replace (List.length (pre ++ t ++ lit " "))
        with (List.length pre + List.length t + 1) in IH
        by (rewrite !length_app;
            cbn [List.length lit map list_ascii_of_string]; lia).
      replace ((pre ++ t ++ lit " ") ++ J) with s in IH
        by (unfold s; now rewrite <- !app_assoc).
      apply IH. lia.
Qed.

Lemma split_joinSpaces toks :
  toks <> [] ->
  Forall (fun t => isToken t = true) toks ->
  split reSpaces (joinSpaces toks) = toks.
Proof.
  intros Hne Hall.
  destruct (joinSpaces_head toks Hne Hall) as [a [r [Hj _]]].
  unfold split. rewrite Hj. rewrite <- Hj.
  apply (splitLoop_tokens toks [] _ Hne Hall). lia.
Qed.

Lemma joinSpaces_last toks :
  toks <> [] -> Forall (fun t => isToken t = true) toks ->
  exists init z, joinSpaces toks = init ++ [z] /\ isPlain z = true.
Proof.
  induction toks as [|t toks IH]; intros Hne Hall; [contradiction|].
  inversion Hall as [|? ? Ht Hrest]; subst.
  destruct toks as [|t2 toks].
  - cbn [joinSpaces]. pose proof (isToken_plain t Ht) as Hplain.
    destruct (isToken_cons t Ht) as [a [r [Hta _]]].
    destruct (@exists_last _ t) as [init [z Hz]]; [now rewrite Hta|].
    exists init, z. split; [exact Hz|].
    rewrite forallb_forall in Hplain. apply Hplain. rewrite Hz.
    apply in_or_app. right. now left.
  - destruct IH as [init [z [Hj Hz]]]; [discriminate|exact Hrest|].
    change (joinSpaces (t :: t2 :: toks))
      with (t ++ lit " " ++ joinSpaces (t2 :: toks)).
    rewrite Hj. exists (t ++ lit " " ++ init), z.
    split; [now rewrite <- !app_assoc|exact Hz].
Qed.

Lemma joinSpaces_dot toks :
  Forall (fun t => isToken t = true) toks ->
  forallb dot (joinSpaces toks) = true.
Proof.
  induction toks as [|t toks IH]; intros Hall; [reflexivity|].
  inversion Hall as [|? ? Ht Hrest]; subst.
  assert (Hd : forallb dot t = true).
  { apply forallb_forall. intros c Hc. apply isPlain_dot.
    pose proof (isToken_plain t Ht) as Hplain.
    rewrite forallb_forall in Hplain. now apply Hplain. }
  destruct toks as [|t2 toks]; [exact Hd|].
  change (joinSpaces (t :: t2 :: toks))
    with (t ++ lit " " ++ joinSpaces (t2 :: toks)).
  rewrite !forallb_app, Hd, (IH Hrest). reflexivity.
Qed.

(** [parseImports] on a statement of words: what the loop body gives for
    the keyword and the words. *)
Lemma parseImports_semicolons kw toks n rel :
  kw = lit "import" \/ kw = lit "from" ->
  toks <> [] ->
  Forall (fun t => isToken t = true) toks ->
  exists m,
    importMatch (kw ++ lit " " ++ joinSpaces toks ++ repeat 59%N n) m
    /\ group (kw ++ lit " " ++ joinSpaces toks ++ repeat 59%N n) m 2 = Some kw
    /\ group (kw ++ lit " " ++ joinSpaces toks ++ repeat 59%N n) m 3
       = Some (joinSpaces toks)
    /\ parseImports (kw ++ lit " " ++ joinSpaces toks ++ repeat 59%N n) rel
       = (r <- importOf (kw ++ lit " " ++ joinSpaces toks ++ repeat 59%N n)
                        rel m ;;
          Returns [r]).
Proof.
  intros Hkw Hne Hall.
  destruct (joinSpaces_last toks Hne Hall) as [init [z [Hj Hz]]].
  destruct (joinSpaces_head toks Hne Hall) as [a [r [Hh Ha]]].
  apply (parseImports_statement kw (joinSpaces toks) init z n rel Hkw Hj Hz
           (joinSpaces_dot toks Hall)).
  rewrite Hh. now rewrite (isPlain_no_space a Ha).
Qed.

Lemma parseImports_words kw toks rel :
  kw = lit "import" \/ kw = lit "from" ->
  toks <> [] ->
  Forall (fun t => isToken t = true) toks ->
  exists m,
    group (kw ++ lit " " ++ joinSpaces toks ++ lit ";") m 2 = Some kw
    /\ group (kw ++ lit " " ++ joinSpaces toks ++ lit ";") m 3
       = Some (joinSpaces toks)
    /\ split reSpaces (joinSpaces toks) = toks
    /\ parseImports (kw ++ lit " " ++ joinSpaces toks ++ lit ";") rel
       = (r <- importOf (kw ++ lit " " ++ joinSpaces toks ++ lit ";") rel m ;;
          Returns [r]).
Proof.
  intros Hkw Hne Hall.
  destruct (parseImports_semicolons kw toks 1 rel Hkw Hne Hall)
    as [m [_ [H2 [H3 Hp]]]].
  change (repeat 59%N 1) with (lit ";") in *.
  exists m. split; [exact H2|]. split; [exact H3|].
  split; [now apply split_joinSpaces|exact Hp].
Qed.

Lemma resolve_plain rel s :
  startsWithDot s = false -> resolve rel (Some s) = Returns (Some s).
Proof. intros H. now rewrite resolve_some, H, andb_false_r. Qed.

(** The loop body on a match whose keyword is [from] and whose third
    capture holds words with one space between them. *)
Lemma importOf_from_words code rel m p more :
  isToken p = true ->
  startsWithDot p = false ->
  Forall (fun t => isToken t = true) more ->
  group code m 2 = Some (lit "from") ->
  group code m 3 = Some (joinSpaces (p :: more)) ->
  importOf code rel m
  = Returns (mkImport (Some (lit "from")) (Some p)
                      (nth_error more 1) (nth_error more 1)
                      (Some (p ++ lit "." ++ toStr (nth_error more 1)))).
Proof.
  intros Hp Hdot Hmore H2 H3.
  unfold importOf. rewrite H2, H3. cbn [method bind].
  rewrite split_joinSpaces by (try discriminate; now constructor).
  change (nth_error (p :: more) 0) with (Some p).
  change (nth_error (p :: more) 2) with (nth_error more 1).
  change (jsval_eqb (Some (lit "from")) (Some (lit "import"))) with false.
  cbv iota. rewrite (resolve_plain rel p Hdot). cbn [bind].
  destruct (isToken_cons p Hp) as [a [r [Hpa _]]].
  assert (Ht : truthy_str (Some p) = true) by now rewrite Hpa.
  rewrite Ht. cbn [toStr].
  rewrite resolve_plain.
  - cbn [bind]. now rewrite <- app_assoc.
  - rewrite Hpa in *. exact Hdot.
Qed.

(** X21: a [from] statement, the keyword and words with one space between
    them and a semicolon: the first word is the package, and the third
    word, the one after the word that follows the package, is both the
    class and the alias, whatever else the statement holds; the resolved
    path is the package, a dot and the class.  When the statement has no
    third word the class and the alias are undefined and the resolved path
    ends with [.undefined].  The package does not begin with a dot. *)
Theorem parseImports_from_statement p more rel :
  isToken p = true ->
  startsWithDot p = false ->
  Forall (fun t => isToken t = true) more ->
  parseImports (lit "from " ++ joinSpaces (p :: more) ++ lit ";") rel
  = Returns [mkImport (Some (lit "from")) (Some p)
                      (nth_error more 1) (nth_error more 1)
                      (Some (p ++ lit "." ++ toStr (nth_error more 1)))].
Proof.
  intros Hp Hdot Hmore.
  destruct (parseImports_words (lit "from") (p :: more) rel)
    as [m [H2 [H3 [_ Hparse]]]];
    [now right|discriminate|now constructor|].
  refine (eq_trans Hparse _).
  now rewrite (importOf_from_words _ rel m p more Hp Hdot Hmore H2 H3).
Qed.

(** ** The paths of an import *)

Section GreedyBack.

Variables (ml : bool) (s : jsstring).

(** A greedy star of a class gives up the whole run when the continuation
    refuses every place after its start. *)
Lemma rmatch_Star_fails p c :
  forall run t x,
    skipn (endIndex x) s = run ++ t ->
    forallb p run = true ->
    match t with [] => true | b :: _ => negb (p b) end = true ->
    (forall k, 1 <= k <= List.length run ->
               c (mkState (endIndex x + k) (captures x)) = None) ->
    rmatch false ml s (Star (Cls p)) c x = c x.
Proof.
  induction run as [|a run IH]; intros t x Hs Hrun Ht Hfail.
  - apply rmatch_Star_stop. now rewrite Hs.
  - cbn [forallb] in Hrun. apply andb_prop in Hrun. destruct Hrun as [Ha Hrun].
    assert (Hlen : endIndex x < List.length s).
    { apply nth_error_Some. rewrite nth_error_skipn, Hs. discriminate. }
    unfold Star. cbn [rmatch]. rewrite repeatMatcher_S. cbn [Nat.eqb negb].
    cbn [rmatch groups]. rewrite clear_nil, nth_error_skipn, Hs.
    cbn [app hd_error]. change (classHolds false p a) with (p a). rewrite Ha.
    unfold repeatCont. cbn [endIndex captures].
    replace (Nat.eqb (S (endIndex x)) (endIndex x)) with false
      by (symmetry; apply Nat.eqb_neq; lia).
    rewrite andb_false_r. cbn [pred_max Nat.pred].
    replace (0 + (List.length s - endIndex x))
      with (S (0 + (List.length s - S (endIndex x)))) by lia.
    specialize (IH t (mkState (S (endIndex x)) (captures x))).
    unfold Star in IH. cbn [rmatch groups endIndex captures] in IH.
    rewrite IH.
    + specialize (Hfail 1). rewrite Nat.add_1_r in Hfail.
      rewrite Hfail by (cbn [List.length]; lia). reflexivity.
    + rewrite skipn_S, Hs. reflexivity.
    + exact Hrun.
    + exact Ht.
    + intros k Hk. specialize (Hfail (S k)).
      rewrite Nat.add_succ_r in Hfail. apply Hfail. cbn [List.length]. lia.
Qed.

(** A greedy star of a class goes back to the last place the continuation
    accepts. *)
Lemma rmatch_Star_back p c w :
  forall run1 run2 t x,
    skipn (endIndex x) s = run1 ++ run2 ++ t ->
    forallb p run1 = true ->
    forallb p run2 = true ->
    match t with [] => true | b :: _ => negb (p b) end = true ->
    (forall k, 1 <= k <= List.length run2 ->
               c (mkState (endIndex x + List.length run1 + k) (captures x))
               = None) ->
    c (mkState (endIndex x + List.length run1) (captures x)) = Some w ->
    rmatch false ml s (Star (Cls p)) c x = Some w.
Proof.
  induction run1 as [|a run1 IH]; intros run2 t x Hs Hr1 Hr2 Ht Hfail Hc.
  - cbn [List.length app] in *. rewrite Nat.add_0_r in Hc.
    replace (mkState (endIndex x) (captures x)) with x in Hc by now destruct x.
    rewrite (rmatch_Star_fails p c run2 t x Hs Hr2 Ht); [exact Hc|].
    intros k Hk. specialize (Hfail k Hk). now rewrite Nat.add_0_r in Hfail.
  - cbn [forallb] in Hr1. apply andb_prop in Hr1. destruct Hr1 as [Ha Hr1].
    assert (Hlen : endIndex x < List.length s).
    { apply nth_error_Some. rewrite nth_error_skipn, Hs. discriminate. }
    unfold Star. cbn [rmatch]. rewrite repeatMatcher_S. cbn [Nat.eqb negb].
    cbn [rmatch groups]. rewrite clear_nil, nth_error_skipn, Hs.
    cbn [app hd_error]. change (classHolds false p a) with (p a). rewrite Ha.
    unfold repeatCont. cbn [endIndex captures].
    replace (Nat.eqb (S (endIndex x)) (endIndex x)) with false
      by (symmetry; apply Nat.eqb_neq; lia).
    rewrite andb_false_r. cbn [pred_max Nat.pred].
    replace (0 + (List.length s - endIndex x))
      with (S (0 + (List.length s - S (endIndex x)))) by lia.
    specialize (IH run2 t (mkState (S (endIndex x)) (captures x))).
    unfold Star in IH. cbn [rmatch groups endIndex captures] in IH.
    rewrite IH; [reflexivity| |exact Hr1|exact Hr2|exact Ht| |].
    + rewrite skipn_S, Hs. reflexivity.
    + intros k Hk. specialize (Hfail k Hk). cbn [List.length] in Hfail.
      now rewrite Nat.add_succ_r in Hfail.
    + cbn [List.length] in Hc. now rewrite Nat.add_succ_r in Hc.
Qed.

End GreedyBack.

Lemma replace_reLeadingDot s : replace reLeadingDot [] s = dropDot s.
Proof.
  unfold replace, matches, dropDot. cbn [flagG reLeadingDot].
  rewrite (@exec_anchored reLeadingDot s (word ".")) by reflexivity.
  destruct s as [|c s]; [reflexivity|].
  unfold matchAt. cbn [flagI pattern reLeadingDot seqs].
  rewrite rmatch_Seq_eq, rmatch_Bol_eq. cbn [atLineStart endIndex].
  change (word ".") with (Chr 46). rewrite rmatch_Chr_last.
  cbn [endIndex skipn startsWithDot].
  destruct (N.eqb c 46); reflexivity.
Qed.

Lemma noneOf_dot b : noneOf "." b = negb (N.eqb b 46).
Proof. unfold noneOf, oneOf. cbn. now rewrite orb_false_r. Qed.

(** Taking away what [^ ( .* ) \.] matches leaves what follows the last
    dot. *)
Lemma replace_reUpToLastDot pkg name :
  forallb dot pkg = true ->
  forallb dot name = true ->
  forallb (noneOf ".") name = true ->
  replace reUpToLastDot [] (pkg ++ lit "." ++ name) = name.
Proof.
  intros Hpkg Hname Hnd.
  set (s := pkg ++ lit "." ++ name).
  assert (Hs : forall k, skipn (List.length pkg + k) s = skipn k (46%N :: name)).
  { intros k. rewrite Nat.add_comm, <- skipn_skipn. unfold s.
    now rewrite skipn_app_length. }
  assert (Hm : matchAt false false s (pattern reUpToLastDot) 0
               = Some (mkState (S (List.length pkg)) [(1, (0, List.length pkg))])).
  { unfold matchAt. cbn [pattern reUpToLastDot seqs].
    rewrite rmatch_Seq_eq, rmatch_Bol_eq. cbn [atLineStart endIndex].
    rewrite rmatch_Seq_eq, rmatch_Grp_eq. change (word ".") with (Chr 46).
    apply (rmatch_Star_back false s dot _ _ pkg (46%N :: name) []).
    - cbn [endIndex skipn]. unfold s. now rewrite app_nil_r.
    - exact Hpkg.
    - cbn [forallb]. now rewrite Hname.
    - reflexivity.
    - intros k Hk. cbn [endIndex captures Nat.add List.length] in *.
      rewrite rmatch_Chr_last. unfold setCapture. cbn [endIndex].
      rewrite Hs. destruct k as [|k]; [lia|]. cbn [skipn].
      destruct (skipn k name) as [|b t] eqn:E; [reflexivity|].
      assert (Hin : In b name).
      { rewrite <- (firstn_skipn k name), E. apply in_or_app. right. now left. }
      rewrite forallb_forall in Hnd. specialize (Hnd b Hin).
      rewrite noneOf_dot in Hnd. apply negb_true_iff in Hnd. now rewrite Hnd.
    - cbn [endIndex captures Nat.add]. rewrite rmatch_Chr_last.
      unfold setCapture. cbn [endIndex captures].
      rewrite <- (Nat.add_0_r (List.length pkg)) at 1. rewrite Hs.
      cbn [skipn]. change (N.eqb 46 46) with true. cbv iota. reflexivity. }
  unfold replace, matches. cbn [flagG reUpToLastDot].
  rewrite (@exec_anchored reUpToLastDot s _ eq_refl eq_refl).
  cbn [flagI reUpToLastDot]. fold s.
  change (pattern (mkRegExp (seqs [Bol; Grp 1 (Star (Cls dot)); word "."])
                            false false false))
    with (pattern reUpToLastDot).
  rewrite Hm. cbn [splice index expand flat_map]. unfold lastOf, substring.
  cbn [final endIndex firstn app].
  replace (S (List.length pkg)) with (List.length pkg + 1) by lia.
  rewrite Hs. reflexivity.
Qed.

(** A match of [ ( (^ \.) | \. ) [^.]+ $ ] starts at a dot, and goes on
    with the rest of the pattern after it. *)
Lemma matchAt_reDotClass_parts s i w :
  matchAt false false s (pattern reDotClass) i = Some w ->
  nth_error s i = Some 46%N
  /\ exists st,
       endIndex st = S i
       /\ rmatch false false s (Seq (Plus (Cls (noneOf "."))) Eol)
                 (fun y => Some y) st = Some w.
Proof.
  intros E. unfold matchAt in E. cbn [pattern reDotClass seqs] in E.
  change (word ".") with (Chr 46) in E.
  rewrite rmatch_Seq_eq, rmatch_Grp_eq, rmatch_Alt_eq in E.
  rewrite nth_error_skipn.
  match type of E with
  | match ?L with Some z => Some z | None => ?R end = Some w =>
      destruct L as [z|] eqn:E1
  end.
  - inversion E; subst z.
    rewrite rmatch_Grp_eq, rmatch_Seq_eq, rmatch_Bol_eq in E1.
    destruct (atLineStart false s _); [|discriminate E1].
    rewrite rmatch_Chr_last in E1. cbn [endIndex] in E1.
    destruct (skipn i s) as [|b t]; [discriminate E1|].
    destruct (N.eqb b 46) eqn:Eb; [|discriminate E1].
    apply N.eqb_eq in Eb. subst b. split; [reflexivity|].
    eexists. split; [|exact E1]. reflexivity.
  - rewrite rmatch_Chr_last in E. cbn [endIndex] in E.
    destruct (skipn i s) as [|b t]; [discriminate E|].
    destruct (N.eqb b 46) eqn:Eb; [|discriminate E].
    apply N.eqb_eq in Eb. subst b. split; [reflexivity|].
    eexists. split; [|exact E]. reflexivity.
Qed.

(** Such a match starts at a dot that is followed by no other dot. *)
Lemma matchAt_reDotClass_inv s i w :
  matchAt false false s (pattern reDotClass) i = Some w ->
  forall n, S i <= n < List.length s ->
            exists ch, nth_error s n = Some ch /\ noneOf "." ch = true.
Proof.
  intros E. destruct (matchAt_reDotClass_parts s i w E) as [_ [st [Hst H]]].
  rewrite rmatch_Seq_eq in H. unfold Plus in H. rewrite rmatch_Rep_eq in H.
  apply repeat_class_inv in H. destruct H as [y [Hy [Hle Hall]]].
  cbn [rmatch] in Hy. unfold atLineEnd in Hy.
  rewrite andb_false_l, orb_false_r in Hy.
  destruct (List.length s <=? endIndex y) eqn:El; [|discriminate Hy].
  apply Nat.leb_le in El.
  intros n Hn. apply Hall. lia.
Qed.

(** A text without a dot is left as it is by both replacements. *)
Lemma replace_reDotClass_none name :
  forallb (noneOf ".") name = true ->
  replace reDotClass [Ref 2] name = name.
Proof.
  intros Hnd.
  assert (He : exec reDotClass name 0 = None).
  { unfold exec. apply firstMatch_none. intros i _.
    cbn [flagI flagM reDotClass].
    destruct (matchAt false false name (pattern reDotClass) i) as [w|] eqn:E;
      [exfalso|reflexivity].
    destruct (matchAt_reDotClass_parts name i w E) as [Hdot _].
    apply nth_error_In in Hdot. rewrite forallb_forall in Hnd.
    specialize (Hnd _ Hdot). discriminate Hnd. }
  unfold replace, matches. cbn [flagG reDotClass]. now rewrite He.
Qed.

Lemma replace_reUpToLastDot_none name :
  forallb dot name = true ->
  forallb (noneOf ".") name = true ->
  replace reUpToLastDot [] name = name.
Proof.
  intros Hdot Hnd.
  assert (Hno : forall k x,
             endIndex x = k ->
             rmatch false false name (Chr 46) (fun y => Some y) x = None).
  { intros k x Hx. rewrite rmatch_Chr_last, Hx.
    destruct (skipn k name) as [|b t] eqn:E; [reflexivity|].
    assert (Hin : In b name).
    { rewrite <- (firstn_skipn k name), E. apply in_or_app. right. now left. }
    rewrite forallb_forall in Hnd. specialize (Hnd b Hin).
    rewrite noneOf_dot in Hnd. apply negb_true_iff in Hnd. now rewrite Hnd. }
  assert (Hm : matchAt false false name (pattern reUpToLastDot) 0 = None).
  { unfold matchAt. cbn [pattern reUpToLastDot seqs].
    rewrite rmatch_Seq_eq, rmatch_Bol_eq. cbn [atLineStart endIndex].
    rewrite rmatch_Seq_eq, rmatch_Grp_eq. change (word ".") with (Chr 46).
    rewrite (rmatch_Star_fails false name dot _ name []);
      [|cbn [endIndex skipn]; now rewrite app_nil_r|exact Hdot|reflexivity|].
    - now apply (Hno 0).
    - intros k Hk. now apply (Hno k). }
  unfold replace, matches. cbn [flagG reUpToLastDot].
  rewrite (@exec_anchored reUpToLastDot name _ eq_refl eq_refl).
  cbn [flagI reUpToLastDot].
  change (pattern (mkRegExp (seqs [Bol; Grp 1 (Star (Cls dot)); word "."])
                            false false false))
    with (pattern reUpToLastDot).
  now rewrite Hm.
Qed.

(** Putting the second capture in the place of what
    [ ( (^ \.) | \. ) [^.]+ $ ] matches takes the last dot and the name
    after it away, when something comes before that dot. *)
Lemma replace_reDotClass pkg name :
  pkg <> [] ->
  isSegment name = true ->
  replace reDotClass [Ref 2] (pkg ++ lit "." ++ name) = pkg.
Proof.
  intros Hpkg Hname.
  destruct (isSegment_cons name Hname) as [a [run [-> [Ha Hrun]]]].
  set (s := pkg ++ lit "." ++ a :: run).
  assert (Hs : forall k, skipn (List.length pkg + k) s
                         = skipn k (46%N :: a :: run)).
  { intros k. rewrite Nat.add_comm, <- skipn_skipn. unfold s.
    now rewrite skipn_app_length. }
  assert (Hlen : List.length s = S (List.length pkg) + S (List.length run)).
  { unfold s. rewrite !length_app.
    cbn [List.length lit map list_ascii_of_string]. lia. }
  assert (Hm : matchAt false false s (pattern reDotClass) (List.length pkg)
               = Some (mkState (S (List.length pkg) + S (List.length run))
                               [(1, (List.length pkg, S (List.length pkg)))])).
  { unfold matchAt. cbn [pattern reDotClass seqs].
    change (word ".") with (Chr 46).
    rewrite rmatch_Seq_eq, rmatch_Grp_eq, rmatch_Alt_eq.
    rewrite rmatch_Grp_eq, rmatch_Seq_eq, rmatch_Bol_eq. cbn [endIndex].
    replace (atLineStart false s (List.length pkg)) with false
      by (destruct pkg; [contradiction|reflexivity]).
    cbv iota. rewrite rmatch_Chr_last. cbn [endIndex captures].
    rewrite <- (Nat.add_0_r (List.length pkg)) at 1. rewrite Hs.
    cbn [skipn]. change (N.eqb 46 46) with true. cbv iota.
    unfold setCapture. cbn [endIndex captures].
    rewrite rmatch_Seq_eq.
    apply (rmatch_Plus_run false s (noneOf ".") _ _ a run []);
      [|exact Ha|exact Hrun|reflexivity|].
    - cbn [endIndex]. replace (S (List.length pkg)) with (List.length pkg + 1)
        by lia.
      rewrite Hs. cbn [skipn]. now rewrite app_nil_r.
    - cbn [rmatch endIndex captures]. unfold atLineEnd.
      replace (List.length s <=? S (List.length pkg) + S (List.length run))
        with true by (symmetry; apply Nat.leb_le; lia).
      reflexivity. }
  assert (Hdot : nth_error s (List.length pkg) = Some 46%N).
  { unfold s. rewrite nth_error_app2 by lia. now rewrite Nat.sub_diag. }
  assert (Hexec : exec reDotClass s 0
                  = Some (mkResult (List.length pkg)
                            (mkState (S (List.length pkg) + S (List.length run))
                               [(1, (List.length pkg, S (List.length pkg)))]))).
  { rewrite (exec_skip_many reDotClass s (List.length pkg) 0).
    - apply exec_here; [lia|exact Hm].
    - intros i Hi. cbn [flagI flagM reDotClass].
      destruct (matchAt false false s (pattern reDotClass) i) as [w|] eqn:E;
        [exfalso|reflexivity].
      destruct (matchAt_reDotClass_inv s i w E (List.length pkg))
        as [ch [Hch Hnd]]; [lia|].
      rewrite Hdot in Hch. inversion Hch; subst ch. discriminate Hnd. }
  unfold replace, matches. cbn [flagG reDotClass]. fold s. rewrite Hexec.
  cbn [splice index expand flat_map]. unfold group, lastOf, substring.
  cbn [final getCapture captures find fst Nat.eqb endIndex skipn app].
  rewrite <- Hlen, skipn_all, Nat.sub_0_r. unfold s.
  rewrite firstn_app, firstn_all, Nat.sub_diag. cbn [firstn].
  now rewrite !app_nil_r.
Qed.

Lemma isName_parts t :
  isName t = true ->
  isToken t = true /\ forallb (noneOf ".") t = true /\ isSegment t = true.
Proof.
  unfold isName. intros H. apply andb_prop in H. destruct H as [Ht Hd].
  split; [exact Ht|]. split; [exact Hd|].
  unfold isSegment. unfold isToken in Ht. apply andb_prop in Ht.
  destruct Ht as [Hne _]. now rewrite Hne, Hd.
Qed.

Lemma joinDots_plain segs :
  Forall (fun t => isName t = true) segs ->
  forallb isPlain (joinDots segs) = true.
Proof.
  induction segs as [|t segs IH]; intros Hall; [reflexivity|].
  inversion Hall as [|? ? Ht Hrest]; subst.
  destruct (isName_parts t Ht) as [Htok _].
  pose proof (isToken_plain t Htok) as Hplain.
  destruct segs as [|t2 segs]; [exact Hplain|].
  change (joinDots (t :: t2 :: segs)) with (t ++ lit "." ++ joinDots (t2 :: segs)).
  rewrite !forallb_app, Hplain, (IH Hrest). reflexivity.
Qed.

Lemma joinDots_start segs :
  segs <> [] ->
  Forall (fun t => isName t = true) segs ->
  exists a r, joinDots segs = a :: r /\ N.eqb a 46 = false.
Proof.
  intros Hne Hall. destruct segs as [|t segs]; [contradiction|].
  inversion Hall as [|? ? Ht Hrest]; subst.
  destruct (isName_parts t Ht) as [_ [_ Hseg]].
  destruct (isSegment_cons t Hseg) as [a [r [-> [Ha _]]]].
  rewrite noneOf_dot in Ha. apply negb_true_iff in Ha.
  destruct segs as [|t2 segs]; cbn [joinDots app]; eauto.
Qed.

Lemma withDots_joinDots segs :
  segs <> [] -> withDots segs = joinDots segs ++ lit ".".
Proof.
  intros Hne. destruct (@exists_last _ segs Hne) as [init [l ->]].
  rewrite withDots_snoc, joinDots_snoc. now rewrite <- app_assoc.
Qed.

Lemma plain_dots t : forallb isPlain t = true -> forallb dot t = true.
Proof.
  intros H. apply forallb_forall. intros c Hc. apply isPlain_dot.
  rewrite forallb_forall in H. now apply H.
Qed.

(** The loop body on a match whose keyword is [import] and whose third
    capture holds a dotted path of names, maybe followed by further words,
    with one space between them. *)
Lemma importOf_import_words code rel m segs name more :
  segs <> [] ->
  Forall (fun t => isName t = true) segs ->
  isName name = true ->
  Forall (fun t => isToken t = true) more ->
  group code m 2 = Some (lit "import") ->
  group code m 3 = Some (joinSpaces (joinDots (segs ++ [name]) :: more)) ->
  importOf code rel m
  = Returns (mkImport (Some (lit "import")) (Some (joinDots segs)) (Some name)
                      (Some (match nth_error more 1 with
                             | Some d => dropDot d
                             | None => joinDots (segs ++ [name])
                             end))
                      (Some (joinDots (segs ++ [name])))).
Proof.
  intros Hne Hsegs Hname Hmore H2 H3.
  destruct (isName_parts name Hname) as [Hntok [Hnd Hnseg]].
  pose proof (joinDots_plain segs Hsegs) as Hpplain.
  destruct (joinDots_start segs Hne Hsegs) as [a [r [Hpa Ha]]].
  assert (Hpath : joinDots (segs ++ [name]) = joinDots segs ++ lit "." ++ name).
  { rewrite joinDots_snoc, (withDots_joinDots segs Hne).
    now rewrite <- app_assoc. }
  rewrite Hpath in *. set (pkg := joinDots segs) in *.
  assert (Hdot0 : startsWithDot (pkg ++ lit "." ++ name) = false)
    by (rewrite Hpa; exact Ha).
  assert (Htok : isToken (pkg ++ lit "." ++ name) = true).
  { unfold isToken. rewrite !forallb_app, Hpplain, (isToken_plain name Hntok).
    rewrite Hpa. reflexivity. }
  unfold importOf. rewrite H2, H3. cbn [method bind].
  rewrite split_joinSpaces by (try discriminate; now constructor).
  change (nth_error ((pkg ++ lit "." ++ name) :: more) 0)
    with (@Some jsstring (pkg ++ lit "." ++ name)).
  change (nth_error ((pkg ++ lit "." ++ name) :: more) 2)
    with (nth_error more 1).
  change (jsval_eqb (Some (lit "import")) (Some (lit "import"))) with true.
  cbv iota. cbn [method bind].
  rewrite (replace_reDotClass pkg name) by (try exact Hnseg; now rewrite Hpa).
  rewrite (resolve_plain rel pkg) by (rewrite Hpa; exact Ha).
  cbn [bind].
  rewrite (replace_reUpToLastDot pkg name (plain_dots pkg Hpplain)
             (plain_dots name (isToken_plain name Hntok)) Hnd).
  rewrite (resolve_plain rel _ Hdot0).
  destruct (nth_error more 1) as [d|] eqn:Ed.
  - assert (Hd : isToken d = true).
    { apply nth_error_In in Ed. rewrite Forall_forall in Hmore.
      now apply Hmore. }
    destruct (isToken_cons d Hd) as [d0 [dr [-> _]]].
    unfold or_else. cbn [truthy_str method bind].
    now rewrite replace_reLeadingDot.
  - unfold or_else. cbn [truthy_str method bind].
    rewrite replace_reLeadingDot. unfold dropDot. now rewrite Hdot0.
Qed.

Lemma isToken_path segs name :
  segs <> [] ->
  Forall (fun t => isName t = true) segs ->
  isName name = true ->
  isToken (joinDots (segs ++ [name])) = true.
Proof.
  intros Hne Hsegs Hname.
  destruct (isName_parts name Hname) as [Hntok _].
  destruct (joinDots_start segs Hne Hsegs) as [a [r [Hpa Ha]]].
  rewrite joinDots_snoc, (withDots_joinDots segs Hne), <- app_assoc.
  unfold isToken.
  rewrite !forallb_app, (joinDots_plain segs Hsegs), (isToken_plain name Hntok).
  rewrite Hpa. reflexivity.
Qed.

(** The same for a path of one name, which holds no dot. *)
Lemma importOf_import_single code rel m name more :
  isName name = true ->
  Forall (fun t => isToken t = true) more ->
  group code m 2 = Some (lit "import") ->
  group code m 3 = Some (joinSpaces (name :: more)) ->
  importOf code rel m
  = Returns (mkImport (Some (lit "import")) (Some name) (Some name)
                      (Some (match nth_error more 1 with
                             | Some d => dropDot d
                             | None => name
                             end))
                      (Some name)).
Proof.
  intros Hname Hmore H2 H3.
  destruct (isName_parts name Hname) as [Hntok [Hnd Hnseg]].
  assert (Hdot0 : startsWithDot name = false).
  { destruct (isSegment_cons name Hnseg) as [a [r [-> [Ha _]]]].
    rewrite noneOf_dot in Ha. now apply negb_true_iff in Ha. }
  unfold importOf. rewrite H2, H3. cbn [method bind].
  rewrite split_joinSpaces by (try discriminate; now constructor).
  change (nth_error (name :: more) 0) with (Some name).
  change (nth_error (name :: more) 2) with (nth_error more 1).
  change (jsval_eqb (Some (lit "import")) (Some (lit "import"))) with true.
  cbv iota. cbn [method bind].
  rewrite (replace_reDotClass_none name Hnd).
  rewrite (resolve_plain rel name Hdot0). cbn [bind].
  rewrite (replace_reUpToLastDot_none name
             (plain_dots name (isToken_plain name Hntok)) Hnd).
  destruct (nth_error more 1) as [d|] eqn:Ed.
  - assert (Hd : isToken d = true).
    { apply nth_error_In in Ed. rewrite Forall_forall in Hmore.
      now apply Hmore. }
    destruct (isToken_cons d Hd) as [d0 [dr [-> _]]].
    unfold or_else. cbn [truthy_str method bind].
    now rewrite replace_reLeadingDot.
  - unfold or_else. cbn [truthy_str method bind].
    rewrite replace_reLeadingDot. unfold dropDot. now rewrite Hdot0.
Qed.

(** X20: an [import] statement, the keyword, a dotted path of names, maybe
    further words, with one space between them, and a semicolon: the class
    is the last name of the path and the resolved path the path as written,
    whatever the base; the package is the path without its last name, and
    that name itself for a path of one name; the alias is the third word,
    less a leading dot, whatever the second word is, and the whole path
    when the statement has no third word. *)
Theorem parseImports_import_statement segs name more rel :
  Forall (fun t => isName t = true) segs ->
  isName name = true ->
  Forall (fun t => isToken t = true) more ->
  parseImports
    (lit "import " ++ joinSpaces (joinDots (segs ++ [name]) :: more) ++ lit ";")
    rel
  = Returns [mkImport (Some (lit "import"))
                      (Some (match segs with
                             | [] => name
                             | _ :: _ => joinDots segs
                             end))
                      (Some name)
                      (Some (match nth_error more 1 with
                             | Some d => dropDot d
                             | None => joinDots (segs ++ [name])
                             end))
                      (Some (joinDots (segs ++ [name])))].
Proof.
  intros Hsegs Hname Hmore.
  destruct segs as [|s0 segs].
  - cbn [app joinDots].
    destruct (isName_parts name Hname) as [Hntok _].
    destruct (parseImports_words (lit "import") (name :: more) rel)
      as [m [H2 [H3 [_ Hparse]]]];
      [now left|discriminate|now constructor|].
    refine (eq_trans Hparse _).
    now rewrite (importOf_import_single _ rel m name more Hname Hmore H2 H3).
  - assert (Hne : s0 :: segs <> []) by discriminate.
    destruct (parseImports_words (lit "import")
                (joinDots ((s0 :: segs) ++ [name]) :: more) rel)
      as [m [H2 [H3 [_ Hparse]]]];
      [now left|discriminate
      |constructor; [now apply isToken_path|exact Hmore]|].
    refine (eq_trans Hparse _).
    now rewrite (importOf_import_words _ rel m (s0 :: segs) name more Hne Hsegs
                   Hname Hmore H2 H3).
Qed.

Lemma parseImports_import_statement_witness :
  Forall (fun t => isName t = true) [lit "a"; lit "b"]
  /\ isName (lit "C") = true
  /\ Forall (fun t => isToken t = true) [lit "as"; lit "D"]
  /\ parseImports
       (lit "import "
        ++ joinSpaces (joinDots ([lit "a"; lit "b"] ++ [lit "C"])
                       :: [lit "as"; lit "D"])
        ++ lit ";") None
     = Returns [mkImport (Some (lit "import"))
                         (Some (match [lit "a"; lit "b"] with
                                | [] => lit "C"
                                | _ :: _ => joinDots [lit "a"; lit "b"]
                                end))
                         (Some (lit "C"))
                         (Some (match nth_error [lit "as"; lit "D"] 1 with
                                | Some d => dropDot d
                                | None => joinDots ([lit "a"; lit "b"] ++ [lit "C"])
                                end))
                         (Some (joinDots ([lit "a"; lit "b"] ++ [lit "C"])))].
Proof.
  assert (H1 : Forall (fun t => isName t = true) [lit "a"; lit "b"])
    by (repeat constructor).
  assert (H2 : Forall (fun t => isToken t = true) [lit "as"; lit "D"])
    by (repeat constructor).
  split; [exact H1|]. split; [reflexivity|].
  split; [exact H2|].
  exact (parseImports_import_statement [lit "a"; lit "b"] (lit "C")
           [lit "as"; lit "D"] None H1 eq_refl H2).
Defined.

Lemma parseImports_from_statement_witness :
  isToken (lit "a.b") = true
  /\ startsWithDot (lit "a.b") = false
  /\ Forall (fun t => isToken t = true) [lit "import"; lit "C"; lit "as"; lit "D"]
  /\ parseImports
       (lit "from "
        ++ joinSpaces (lit "a.b" :: [lit "import"; lit "C"; lit "as"; lit "D"])
        ++ lit ";") None
     = Returns [mkImport (Some (lit "from")) (Some (lit "a.b"))
                  (nth_error [lit "import"; lit "C"; lit "as"; lit "D"] 1)
                  (nth_error [lit "import"; lit "C"; lit "as"; lit "D"] 1)
                  (Some (lit "a.b" ++ lit "."
                         ++ toStr (nth_error [lit "import"; lit "C"; lit "as";
                                              lit "D"] 1)))].
Proof.
  assert (H : Forall (fun t => isToken t = true)
                     [lit "import"; lit "C"; lit "as"; lit "D"])
    by (repeat constructor).
  split; [reflexivity|]. split; [reflexivity|]. split; [exact H|].
  exact (parseImports_from_statement (lit "a.b")
           [lit "import"; lit "C"; lit "as"; lit "D"] None eq_refl eq_refl H).
Defined.

(** With a dot at its start and a name after it, the text is replaced by
    its second capture, the dot. *)
Lemma replace_reDotClass_leading name :
  isSegment name = true ->
  replace reDotClass [Ref 2] (lit "." ++ name) = lit ".".
Proof.
  intros Hname.
  destruct (isSegment_cons name Hname) as [a [run [-> [Ha Hrun]]]].
  set (s := lit "." ++ a :: run).
  assert (Hm : matchAt false false s (pattern reDotClass) 0
               = Some (mkState (1 + S (List.length run))
                               [(1, (0, 1)); (2, (0, 1))])).
  { unfold matchAt. cbn [pattern reDotClass seqs].
    change (word ".") with (Chr 46).
    rewrite rmatch_Seq_eq, rmatch_Grp_eq, rmatch_Alt_eq.
    rewrite rmatch_Grp_eq, rmatch_Seq_eq, rmatch_Bol_eq.
    cbn [endIndex atLineStart]. rewrite rmatch_Chr_last.
    cbn [endIndex captures skipn]. unfold s at 1.
    cbn [lit map list_ascii_of_string app].
    change (N.eqb (N_of_ascii "."%char) 46) with true. cbv iota.
    unfold setCapture. cbn [endIndex captures].
    assert (Hrest : rmatch false false s (Seq (Plus (Cls (noneOf "."))) Eol)
                      (fun y => Some y) (mkState 1 [(1, (0, 1)); (2, (0, 1))])
                    = Some (mkState (1 + S (List.length run))
                                    [(1, (0, 1)); (2, (0, 1))])).
    { rewrite rmatch_Seq_eq.
      apply (rmatch_Plus_run false s (noneOf ".") _ _ a run []);
        [|exact Ha|exact Hrun|reflexivity|].
      - cbn [endIndex]. unfold s. cbn. now rewrite app_nil_r.
      - cbn [rmatch endIndex captures]. unfold atLineEnd.
        replace (List.length s <=? 1 + S (List.length run)) with true;
          [reflexivity|].
        symmetry. apply Nat.leb_le. unfold s. cbn. lia. }
    rewrite Hrest. reflexivity. }
  unfold replace, matches. cbn [flagG reDotClass]. fold s.
  rewrite (exec_here reDotClass s 0 _ (Nat.le_0_l _) Hm).
  cbn [splice index expand flat_map]. unfold group, lastOf, substring.
  cbn [final getCapture captures find fst snd Nat.eqb endIndex skipn app
       Nat.sub firstn].
  rewrite skipn_all2 by (unfold s; cbn; lia).
  unfold s. reflexivity.
Qed.

Lemma dots_plain n : forallb isPlain (repeat 46%N n) = true.
Proof. induction n as [|n IH]; [reflexivity|]. cbn [repeat forallb]. now rewrite IH. Qed.

Lemma dots_snoc n (t : jsstring) :
  repeat 46%N (S n) ++ t = repeat 46%N n ++ lit "." ++ t.
Proof.
  change (repeat 46%N (S n)) with (46%N :: repeat 46%N n).
  rewrite repeat_cons, <- app_assoc. reflexivity.
Qed.

(** X22: an [import] of a relative path, [n + 1] dots and a name, against
    a base of segments: the class is the name, the alias the path less
    its first dot, and the resolved path the base without its last
    [n + 1] segments, and then the name.  The package is the base without
    its last [n] segments, or without the last one for a single dot, each
    segment left followed by a dot: with two dots or more it lies one
    level below the package the class is resolved in. *)
Theorem parseImports_relative_import base n name :
  base <> [] ->
  Forall (fun s => isSegment s = true) base ->
  isName name = true ->
  parseImports (lit "import " ++ (repeat 46%N (S n) ++ name) ++ lit ";")
               (Some (joinDots base))
  = Returns [mkImport (Some (lit "import"))
               (Some (withDots (firstn (List.length base - Nat.max n 1) base)))
               (Some name)
               (Some (repeat 46%N n ++ name))
               (Some (withDots (firstn (List.length base - S n) base) ++ name))].
Proof.
  intros Hne Hbase Hname.
  destruct (isName_parts name Hname) as [Hntok [Hnd Hnseg]].
  destruct (isToken_cons name Hntok) as [a [r [Hna [Ha _]]]].
  assert (Hndot : startsWithDot name = false).
  { destruct (isSegment_cons name Hnseg) as [a' [r' [-> [Ha' _]]]].
    rewrite noneOf_dot in Ha'. now apply negb_true_iff in Ha'. }
  set (rel := Some (joinDots base)).
  set (body := repeat 46%N (S n) ++ name).
  assert (Htok : isToken body = true).
  { unfold isToken, body. rewrite forallb_app, dots_plain.
    now rewrite (isToken_plain name Hntok). }
  destruct (parseImports_words (lit "import") [body] rel)
    as [m [H2 [H3 [Hsplit Hparse]]]];
    [now left|discriminate|now repeat constructor|].
  cbn [joinSpaces] in *.
  refine (eq_trans Hparse _). unfold importOf. rewrite H2, H3.
  cbn [method bind]. rewrite Hsplit.
  change (nth_error [body] 0) with (@Some jsstring body).
  change (nth_error [body] 2) with (@None jsstring).
  change (jsval_eqb (Some (lit "import")) (Some (lit "import"))) with true.
  cbv iota. cbn [method bind or_else truthy_str].
  rewrite replace_reLeadingDot.
  assert (Hcls : replace reUpToLastDot [] body = name).
  { unfold body. rewrite dots_snoc.
    apply replace_reUpToLastDot;
      [apply plain_dots, dots_plain
      |apply plain_dots; now apply isToken_plain|exact Hnd]. }
  rewrite Hcls.
  assert (Hrel : forall k nm,
             startsWithDot nm = false ->
             resolve rel (@Some jsstring (repeat 46%N (S k) ++ nm))
             = Returns (Some (withDots (firstn (List.length base - S k) base)
                              ++ nm))).
  { intros k nm Hnm.
    change (repeat 46%N (S k) ++ nm) with (46%N :: repeat 46%N k ++ nm).
    unfold rel. rewrite resolve_dotted by now apply joinDots_truthy.
    cbn [toStr].
    change (46%N :: repeat 46%N k ++ nm) with (repeat 46%N (S k) ++ nm).
    now rewrite resolveLoop_relative. }
  assert (Hres : resolve rel (@Some jsstring body)
                 = Returns (Some (withDots (firstn (List.length base - S n) base)
                                  ++ name))).
  { apply Hrel. exact Hndot. }
  rewrite Hres.
  assert (Hpkg : resolve rel (Some (replace reDotClass [Ref 2] body))
                 = Returns (Some (withDots
                                    (firstn (List.length base - Nat.max n 1)
                                            base)))).
  { destruct n as [|n'].
    - unfold body. change (repeat 46%N 1 ++ name) with (lit "." ++ name).
      rewrite (replace_reDotClass_leading name Hnseg).
      pose proof (Hrel 0 [] eq_refl) as Hr.
      rewrite !app_nil_r in Hr. exact Hr.
    - unfold body. rewrite dots_snoc.
      rewrite (replace_reDotClass (repeat 46%N (S n')) name)
        by (try exact Hnseg; discriminate).
      pose proof (Hrel n' [] eq_refl) as Hr.
      rewrite !app_nil_r in Hr.
      replace (Nat.max (S n') 1) with (S n') by lia. exact Hr. }
  rewrite Hpkg. cbn [bind]. reflexivity.
Qed.

Lemma parseImports_relative_import_witness :
  [lit "a"; lit "b"; lit "c"] <> []
  /\ Forall (fun s => isSegment s = true) [lit "a"; lit "b"; lit "c"]
  /\ isName (lit "Foo") = true
  /\ parseImports (lit "import " ++ (repeat 46%N (S 1) ++ lit "Foo") ++ lit ";")
                  (Some (joinDots [lit "a"; lit "b"; lit "c"]))
     = Returns [mkImport (Some (lit "import"))
                  (Some (withDots
                           (firstn (List.length [lit "a"; lit "b"; lit "c"]
                                    - Nat.max 1 1)
                                   [lit "a"; lit "b"; lit "c"])))
                  (Some (lit "Foo"))
                  (Some (repeat 46%N 1 ++ lit "Foo"))
                  (Some (withDots
                           (firstn (List.length [lit "a"; lit "b"; lit "c"] - S 1)
                                   [lit "a"; lit "b"; lit "c"])
                         ++ lit "Foo"))].
Proof.
  assert (H : Forall (fun s => isSegment s = true) [lit "a"; lit "b"; lit "c"])
    by (repeat constructor).
  split; [discriminate|]. split; [exact H|]. split; [reflexivity|].
  exact (parseImports_relative_import [lit "a"; lit "b"; lit "c"] 1 (lit "Foo")
           ltac:(discriminate) H eq_refl).
Defined.

(** ** A header of import statements *)








(** ** The terminator of a statement *)

(** The loop body reads the match through its second and third captures
    only. *)
Lemma importOf_groups code code' rel m m' :
  group code m 2 = group code' m' 2 ->
  group code m 3 = group code' m' 3 ->
  importOf code rel m = importOf code' rel m'.
Proof. intros H2 H3. unfold importOf. now rewrite H2, H3. Qed.

(** The white space after the keyword may be a line break: the grammar
    then matches over two lines, and the second line, which it would not
    match alone, is in the record. *)
Lemma parseImports_over_line_break :
  parseImports (lit "import" ++ [LF] ++ lit "var x = 1;") None
  = Returns [mkImport (Some (lit "import")) (Some (lit "var")) (Some (lit "var"))
                      (Some (lit "=")) (Some (lit "var"))]
  /\ parseImports (lit "var x = 1;") None = Returns [].
Proof. split; vm_compute; reflexivity. Qed.

(** C6, amended: on every input text and base, [parseImports] returns (it
    neither throws nor loops), and every record it returns is the record of
    a match of the import grammar in the text, so a text in which the
    grammar matches nowhere gives no record.  The grammar takes any number
    of [;] before the end of the line, none included: a statement, the
    keyword [import] or [from] and words with one space between them, gives
    one record, and the same one without a semicolon, with one, and with
    several. *)
Theorem parseImports_returns_matches_only code rel kw toks :
  kw = lit "import" \/ kw = lit "from" ->
  toks <> [] ->
  Forall (fun t => isToken t = true) toks ->
  (exists recs,
     parseImports code rel = Returns recs
     /\ Forall (fun r => exists m, importMatch code m
                                   /\ importOf code rel m = Returns r) recs)
  /\ ((forall m, ~ importMatch code m) -> parseImports code rel = Returns [])
  /\ exists r,
       forall n,
         parseImports (kw ++ lit " " ++ joinSpaces toks ++ repeat 59%N n) rel
         = Returns [r].
Proof.
  intros Hkw Hne Htoks.
  assert (Hrecs : exists recs,
             parseImports code rel = Returns recs
             /\ Forall (fun r => exists m, importMatch code m
                                           /\ importOf code rel m = Returns r)
                       recs).
  { apply parseImports_returns. intros m Hm.
    destruct (importOf_returns rel Hm) as [r [_ [Hr _]]].
    exists r. split; [exact Hr|]. now exists m. }
  split; [exact Hrecs|]. split.
  - intros Hnone. destruct Hrecs as [recs [Hp Hall]]. rewrite Hp.
    destruct recs as [|r recs]; [reflexivity|].
    inversion Hall as [|? ? [m [Hm _]] _]; subst.
    destruct (Hnone m Hm).
  - destruct (parseImports_semicolons kw toks 1 rel Hkw Hne Htoks)
      as [m1 [Hm1 [H21 [H31 _]]]].
    destruct (importOf_returns rel Hm1) as [r [_ [Hr _]]].
    exists r. intros n.
    destruct (parseImports_semicolons kw toks n rel Hkw Hne Htoks)
      as [m [_ [H2 [H3 Hp]]]].
    rewrite Hp.
    rewrite (importOf_groups _ (kw ++ lit " " ++ joinSpaces toks ++ repeat 59%N 1)
               rel m m1) by congruence.
    now rewrite Hr.
Qed.

Lemma parseImports_returns_matches_only_witness :
  (lit "import" = lit "import" \/ lit "import" = lit "from")
  /\ [lit "a.b.C"] <> []
  /\ Forall (fun t => isToken t = true) [lit "a.b.C"]
  /\ (exists recs,
        parseImports (lit "var x = 1;") None = Returns recs
        /\ Forall (fun r => exists m, importMatch (lit "var x = 1;") m
                                      /\ importOf (lit "var x = 1;") None m
                                         = Returns r) recs)
  /\ (forall m, ~ importMatch (lit "var x = 1;") m)
  /\ parseImports (lit "var x = 1;") None = Returns []
  /\ exists r,
       forall n,
         parseImports (lit "import" ++ lit " " ++ joinSpaces [lit "a.b.C"]
                       ++ repeat 59%N n) None
         = Returns [r].
Proof.
  assert (H : Forall (fun t => isToken t = true) [lit "a.b.C"])
    by (repeat constructor).
  assert (Hno : forall m, ~ importMatch (lit "var x = 1;") m).
  { intros m [Hle Hm].
    assert (He : exec importRegex (lit "var x = 1;") 0 = None)
      by (vm_compute; reflexivity).
    unfold exec in He.
    assert (Hf : matchAt false true (lit "var x = 1;") (pattern importRegex)
                         (index m) = None).
    { apply (firstMatch_fails _ _ _ He (index m)). apply in_seq. lia. }
    rewrite Hf in Hm. discriminate Hm. }
  destruct (parseImports_returns_matches_only (lit "var x = 1;") None
              (lit "import") [lit "a.b.C"] (or_introl eq_refl)
              ltac:(discriminate) H) as [H1 [H2 H3]].
  split; [now left|]. split; [discriminate|]. split; [exact H|].
  split; [exact H1|]. split; [exact Hno|]. split; [exact (H2 Hno)|exact H3].
Defined.
